(** * Bank-Policies-Chat-LLM: the multi-corpus retrieval engine

    A shallow embedding of [backend/api/retrieval.py] (class
    [RetrievalEngine]) and of the sources projector of
    [backend/api/chat_logic.py], with the properties of the retrieval
    and fusion policy proved over it; then of the code around the
    engine: the chunker and the index builder of [backend/ingest], the
    session store, the prompt and the answer parser of
    [backend/api/chat_logic.py], and the request handler of
    [backend/api/main.py].

    Modelling conventions.
    - Python [str] values are [string]s of ASCII characters; [str.lower],
      [str.strip] and [str.splitlines] are given on that alphabet.
    - Python exceptions are values of [PyError]; a computation that can
      raise lives in the monad [M], which also records every subscript
      read of a corpus array ([corpus.chunks[i]], [corpus.metadatas[i]]).
    - [self._corpora] is a dict filled only by
      [self._corpora[name] = CorpusIndex(name=name, ...)]: it is the list of
      its values in insertion order, the key of an entry being its [name].
    - The FAISS index of a corpus is an external object: it is the
      function that [index.search] computes.  The embedding model, the
      floating-point type of distances and scores, the score transform
      [float(1 / (1 + dist))] and the float comparison [<] are parameters
      of the engine; the score transform is then given on IEEE 754
      binary32 and binary64 values, each operation being the exact
      result rounded to nearest, ties to even.
    - A loop that may run forever ([chunk_text]) takes a fuel and returns
      [None] when the fuel is spent before the loop ends.
    - The session store is passed to the methods that use it and
      returned as they leave it.  The PDF reader, the language model,
      [json.loads] and Pydantic's validation are parameters; an
      exception that the request handler does not catch is the outcome
      [Unhandled]. *)

From Stdlib Require Import List String Ascii ZArith Lia Bool.
From Stdlib Require Import Permutation Sorted QArith Qround Qpower Lqa.
From Stdlib Require Import Floats.SpecFloat.
Import ListNotations.

Open Scope string_scope.
Open Scope Z_scope.
Open Scope list_scope.

(** ** Python strings *)

Definition newline : string := String (ascii_of_nat 10) EmptyString.

Definition lower_ascii (c : ascii) : ascii :=
  let n := nat_of_ascii c in
  if ((65 <=? n)%nat && (n <=? 90)%nat)%bool then ascii_of_nat (n + 32) else c.

(** [str.lower()] *)
Fixpoint lower (s : string) : string :=
  match s with
  | EmptyString => EmptyString
  | String c s' => String (lower_ascii c) (lower s')
  end.

(** [sep.join(parts)] *)
Definition join (sep : string) (parts : list string) : string :=
  String.concat sep parts.

(** [str.isspace] on one ASCII character: tab, line feed, vertical tab,
    form feed, carriage return, the four separators 0x1c-0x1f, space. *)
Definition is_space (c : ascii) : bool :=
  let n := nat_of_ascii c in
  (((9 <=? n) && (n <=? 13)) || ((28 <=? n) && (n <=? 31)) || (n =? 32))%nat%bool.

Fixpoint lstrip (s : string) : string :=
  match s with
  | EmptyString => EmptyString
  | String c s' => if is_space c then lstrip s' else s
  end.

Fixpoint rstrip (s : string) : string :=
  match s with
  | EmptyString => EmptyString
  | String c s' =>
      match rstrip s' with
      | EmptyString => if is_space c then EmptyString else String c EmptyString
      | t => String c t
      end
  end.

(** [str.strip()] *)
Definition strip (s : string) : string := rstrip (lstrip s).

(** The ASCII line boundaries of [str.splitlines]: line feed, vertical
    tab, form feed, carriage return, and the separators 0x1c-0x1e. *)
Definition is_linebreak (c : ascii) : bool :=
  let n := nat_of_ascii c in
  (((10 <=? n) && (n <=? 13)) || ((28 <=? n) && (n <=? 30)))%nat%bool.

Definition is_cr (c : ascii) : bool := (nat_of_ascii c =? 13)%nat.
Definition is_lf (c : ascii) : bool := (nat_of_ascii c =? 10)%nat.

(** [str.splitlines()]: a carriage return followed by a line feed is one
    boundary, and no empty line follows a final boundary. *)
Fixpoint splitlines (s : string) : list string :=
  match s with
  | EmptyString => []
  | String c s' =>
      if is_linebreak c then
        match s' with
        | String c' s'' =>
            if (is_cr c && is_lf c')%bool then EmptyString :: splitlines s''
            else EmptyString :: splitlines s'
        | EmptyString => [EmptyString]
        end
      else
        match splitlines s' with
        | [] => [String c EmptyString]
        | line :: lines => String c line :: lines
        end
  end.

(** [s[:n]] for a non-negative [n]. *)
Fixpoint str_take (n : nat) (s : string) : string :=
  match n, s with
  | O, _ => EmptyString
  | _, EmptyString => EmptyString
  | S n', String c s' => String c (str_take n' s')
  end.

(** [s[n:]] for a non-negative [n]. *)
Fixpoint str_drop (n : nat) (s : string) : string :=
  match n, s with
  | O, _ => s
  | _, EmptyString => EmptyString
  | S n', String _ s' => str_drop n' s'
  end.

(** A bound of a slice as Python reads it: counted from the end when
    negative, then clamped into [0, len]. *)
Definition slice_bound (len i : Z) : Z :=
  if i <? 0 then Z.max (i + len) 0 else Z.min i len.

(** [s[a:b]] *)
Definition str_slice (s : string) (a b : Z) : string :=
  let len := Z.of_nat (String.length s) in
  let lo := slice_bound len a in
  let hi := slice_bound len b in
  str_take (Z.to_nat (hi - lo)) (str_drop (Z.to_nat lo) s).

Definition upper_ascii (c : ascii) : ascii :=
  let n := nat_of_ascii c in
  if ((97 <=? n)%nat && (n <=? 122)%nat)%bool then ascii_of_nat (n - 32) else c.

(** [str.upper()] *)
Fixpoint upper (s : string) : string :=
  match s with
  | EmptyString => EmptyString
  | String c s' => String (upper_ascii c) (upper s')
  end.

(** [s.startswith(p)] *)
Definition startswith (s p : string) : bool := String.prefix p s.

(** [needle in s] *)
Fixpoint str_contains (s needle : string) : bool :=
  (String.prefix needle s
   || match s with
      | EmptyString => false
      | String _ s' => str_contains s' needle
      end)%bool.

(** [s.find(c)] for a one-character [c], counting from [i]. *)
Fixpoint find_from (c : ascii) (s : string) (i : Z) : Z :=
  match s with
  | EmptyString => -1
  | String a s' => if Ascii.eqb a c then i else find_from c s' (i + 1)
  end.

Definition str_find (s : string) (c : ascii) : Z := find_from c s 0.

(** [s.rfind(c)] for a one-character [c], counting from [i]. *)
Fixpoint rfind_from (c : ascii) (s : string) (i : Z) : Z :=
  match s with
  | EmptyString => -1
  | String a s' =>
      let later := rfind_from c s' (i + 1) in
      if later =? -1 then (if Ascii.eqb a c then i else -1) else later
  end.

Definition str_rfind (s : string) (c : ascii) : Z := rfind_from c s 0.

(** Truth value of an [Optional[str]]: [None] and [""] are false. *)
Definition truthy (s : option string) : bool :=
  match s with
  | None => false
  | Some s => negb (s =? "")%string
  end.

(** [a] occurs in [b] as a contiguous substring. *)
Definition substring_of (a b : string) : Prop :=
  exists pre post, b = (pre ++ a ++ post)%string.

(** ** Exceptions and the engine monad *)

Inductive PyError : Type :=
| IndexError
| TypeError
| AssertionError
| ValueError
| KeyError
| FileNotFoundError
| RuntimeError
| UnpicklingError.

Inductive Res (A : Type) : Type :=
| Ok (a : A)
| Raise (e : PyError).

Arguments Ok {A} a.
Arguments Raise {A} e.

(** The two parallel arrays of a corpus. *)
Inductive Arr : Type := ArrChunks | ArrMetadatas.

(** One subscript read: which array, and the subscript as written. *)
Definition Read : Type := (Arr * Z)%type.

Definition M (A : Type) : Type := (list Read * Res A)%type.

Definition ret {A} (a : A) : M A := ([], Ok a).

Definition lift {A} (r : Res A) : M A := ([], r).

Definition bind {A B} (m : M A) (f : A -> M B) : M B :=
  match m with
  | (l, Ok a) => let (l', r) := f a in (l ++ l', r)
  | (l, Raise e) => (l, Raise e)
  end.

Definition reads {A} (m : M A) : list Read := fst m.

Definition result {A} (m : M A) : Res A := snd m.

Declare Scope engine_scope.
Delimit Scope engine_scope with engine.

Notation "x <- m ;; k" := (bind m (fun x => k))
  (at level 100, m at next level, right associativity) : engine_scope.

Open Scope engine_scope.

(** [l[i]] for a Python list: a negative subscript counts from the end,
    anything outside [-len, len) raises [IndexError]. *)
Definition getitem {A} (l : list A) (i : Z) : Res A :=
  let n := Z.of_nat (List.length l) in
  let j := if i <? 0 then i + n else i in
  if ((j <? 0) || (n <=? j))%bool then Raise IndexError
  else match nth_error l (Z.to_nat j) with
       | Some a => Ok a
       | None => Raise IndexError
       end.

(** A subscript read of a corpus array, recorded in the log. *)
Definition read {A} (arr : Arr) (l : list A) (i : Z) : M A :=
  ([(arr, i)], getitem l i).

(** [l[:k]] *)
Definition slice_to {A} (l : list A) (k : Z) : list A :=
  if k <? 0 then firstn (List.length l - Z.to_nat (- k)) l
  else firstn (Z.to_nat k) l.

(** ** Data model *)

(** A metadata dict; the engine reads its keys with [.get], so either
    key may be missing. *)
Record Meta : Type := {
  source_file : option string;
  chunk_id : option Z
}.

(** config/settings.py *)
Definition TOP_K_PER_INDEX : Z := 5.
Definition MAX_BANKS_WHEN_NO_BANK_SPECIFIED : Z := 5.

(** ** The index builder
    [backend/ingest/pdf_utils.py] and [backend/ingest/build_indexes.py]:
    how the chunks and the metadata dicts of a stored corpus are made. *)

(** *** backend/ingest/pdf_utils.py *)

(** The [while start < text_length] loop of [chunk_text]; [fuel] bounds
    the number of times the loop condition is evaluated, and [None] means
    that the loop is still running when the fuel is spent. *)
Fixpoint chunk_loop (fuel : nat) (text : string) (chunk_size overlap : Z)
    (start : Z) (chunks : list string) : option (list string) :=
  match fuel with
  | O => None
  | S fuel' =>
      if start <? Z.of_nat (String.length text) then
        let end_ := start + chunk_size in
        let chunk := str_slice text start end_ in
        let chunks :=
          if (strip chunk =? "")%string then chunks
          else chunks ++ [strip chunk] in
        chunk_loop fuel' text chunk_size overlap
          (start + (chunk_size - overlap)) chunks
      else Some chunks
  end.

Definition chunk_text (fuel : nat) (text : string) (chunk_size overlap : Z)
    : option (list string) :=
  chunk_loop fuel text chunk_size overlap 0 [].

(** *** backend/ingest/build_indexes.py *)

(** [s.endswith(suffix)] *)
Definition endswith (s suffix : string) : bool :=
  ((String.length suffix <=? String.length s)%nat
   && (str_drop (String.length s - String.length suffix) s =? suffix)%string)%bool.

(** The metadata dict that the builder writes for a chunk. *)
Record BuiltMeta : Type := {
  built_source_file : string;
  built_chunk_id : Z;
  built_folder : string
}.

(** [enumerate(l)] *)
Fixpoint enumerate_from {A} (i : Z) (l : list A) : list (Z * A) :=
  match l with
  | [] => []
  | x :: l' => (i, x) :: enumerate_from (i + 1) l'
  end.

Definition enumerate {A} (l : list A) : list (Z * A) := enumerate_from 0 l.

(** The [for i, chunk in enumerate(chunks)] loop. *)
Definition append_chunks (folder_name filename : string)
    (all : list string * list BuiltMeta) (file_chunks : list string)
    : list string * list BuiltMeta :=
  fold_left
    (fun acc ic =>
       (fst acc ++ [snd ic],
        snd acc ++ [{| built_source_file := filename;
                       built_chunk_id := fst ic;
                       built_folder := folder_name |}]))
    (enumerate file_chunks) all.

(** The [for filename in os.listdir(data_folder)] loop.  [read_pdf_text]
    stands for the PDF reader, [chunk_size] and [overlap] for
    [DEFAULT_CHUNK_SIZE] and [DEFAULT_CHUNK_OVERLAP]; [None] means that
    [chunk_text] is still running on some file when its fuel is spent. *)
Fixpoint build_files (fuel : nat) (read_pdf_text : string -> string)
    (chunk_size overlap : Z) (folder_name : string) (filenames : list string)
    (all : list string * list BuiltMeta)
    : option (list string * list BuiltMeta) :=
  match filenames with
  | [] => Some all
  | filename :: rest =>
      if negb (endswith (lower filename) ".pdf") then
        build_files fuel read_pdf_text chunk_size overlap folder_name rest all
      else
        match chunk_text fuel (read_pdf_text filename) chunk_size overlap with
        | None => None
        | Some file_chunks =>
            build_files fuel read_pdf_text chunk_size overlap folder_name rest
              (append_chunks folder_name filename all file_chunks)
        end
  end.

(** [build_corpus_for_folder]; the listing is [None] when the data
    folder does not exist. *)
Definition build_corpus_for_folder (fuel : nat)
    (read_pdf_text : string -> string) (chunk_size overlap : Z)
    (folder_name : string) (listing : option (list string))
    : option (list string * list BuiltMeta) :=
  match listing with
  | None => Some ([], [])
  | Some filenames =>
      build_files fuel read_pdf_text chunk_size overlap folder_name filenames
        ([], [])
  end.

(** What the engine reads, with [.get], in a metadata dict written by
    the builder. *)
Definition meta_of_built (m : BuiltMeta) : Meta :=
  {| source_file := Some (built_source_file m);
     chunk_id := Some (built_chunk_id m) |}.

(** *** Vocabulary of the builder's properties *)

(** Whether a string starts, or ends, with a whitespace character. *)
Definition head_space (s : string) : bool :=
  match s with
  | EmptyString => false
  | String c _ => is_space c
  end.

Fixpoint last_space (s : string) : bool :=
  match s with
  | EmptyString => false
  | String c EmptyString => is_space c
  | String _ s' => last_space s'
  end.

(** The stripped window of [text] that starts at [start]. *)
Definition window (text : string) (chunk_size : Z) (start : Z) : string :=
  strip (str_slice text start (start + chunk_size)).

(** The number of windows that [chunk_text] reads when it advances by a
    positive [step]. *)
Definition window_count (text : string) (step : Z) : nat :=
  Z.to_nat ((Z.of_nat (String.length text) + step - 1) / step).

(** The non-empty stripped windows at [0], [step], [2 * step], ... *)
Definition windows (text : string) (chunk_size overlap : Z) : list string :=
  filter (fun c => negb (c =? "")%string)
    (map (fun i => window text chunk_size (Z.of_nat i * (chunk_size - overlap)))
       (seq 0 (window_count text (chunk_size - overlap)))).

(** The files of a listing that the builder reads. *)
Definition pdf_files (filenames : list string) : list string :=
  filter (fun f => endswith (lower f) ".pdf") filenames.

(** The metadata dicts of a file with [n] chunks. *)
Definition file_metas (folder_name filename : string) (n : nat)
    : list BuiltMeta :=
  map (fun i => {| built_source_file := filename;
                   built_chunk_id := Z.of_nat i;
                   built_folder := folder_name |})
      (seq 0 n).

(** Each metadata dict either starts a file (chunk_id 0) or continues
    the file of the dict before it with the next chunk_id. *)
Fixpoint chained (prev : option BuiltMeta) (l : list BuiltMeta) : Prop :=
  match l with
  | [] => True
  | m :: l' =>
      (built_chunk_id m = 0
       \/ exists p, prev = Some p
                    /\ built_source_file m = built_source_file p
                    /\ built_chunk_id m = built_chunk_id p + 1)
      /\ 0 <= built_chunk_id m
      /\ chained (Some m) l'
  end.

(** ** backend/api/session_store.py *)

Record Message : Type := {
  role : string;
  content : string
}.

(** A session dict, [{"history": [...], "bank": ...}]. *)
Record Session : Type := {
  history : list Message;
  session_bank : option string
}.

(** [self._sessions], in insertion order.  The methods take the store
    and return it as they leave it. *)
Definition SessionStore : Type := list (string * Session).

(** [self._sessions.get(session_id)] *)
Definition sessions_lookup (sessions : SessionStore) (session_id : string)
    : option Session :=
  option_map snd (find (fun p => (fst p =? session_id)%string) sessions).

(** [self._sessions[session_id] = session], also the effect of mutating
    the session dict stored under [session_id]. *)
Fixpoint sessions_update (sessions : SessionStore) (session_id : string)
    (session : Session) : SessionStore :=
  match sessions with
  | [] => [(session_id, session)]
  | (k, v) :: rest =>
      if (k =? session_id)%string then (k, session) :: rest
      else (k, v) :: sessions_update rest session_id session
  end.

Definition get_session (sessions : SessionStore) (session_id : string)
    : Session * SessionStore :=
  match sessions_lookup sessions session_id with
  | Some session => (session, sessions)
  | None =>
      let session := {| history := []; session_bank := None |} in
      (session, sessions_update sessions session_id session)
  end.

Definition add_message (sessions : SessionStore) (session_id : string)
    (role content : string) : SessionStore :=
  let (session, sessions) := get_session sessions session_id in
  sessions_update sessions session_id
    {| history := history session ++ [{| role := role; content := content |}];
       session_bank := session_bank session |}.

Definition get_history (sessions : SessionStore) (session_id : string)
    : list Message * SessionStore :=
  let (session, sessions) := get_session sessions session_id in
  (history session, sessions).

Definition set_bank (sessions : SessionStore) (session_id : string)
    (bank : option string) : SessionStore :=
  let (session, sessions) := get_session sessions session_id in
  sessions_update sessions session_id
    {| history := history session; session_bank := bank |}.

Definition get_bank (sessions : SessionStore) (session_id : string)
    : option string * SessionStore :=
  let (session, sessions) := get_session sessions session_id in
  (session_bank session, sessions).

(** What a session id reads in a store: the defaults of a new session
    when the id is unknown. *)
Definition history_of (sessions : SessionStore) (session_id : string)
    : list Message :=
  match sessions_lookup sessions session_id with
  | Some session => history session
  | None => []
  end.

Definition bank_of (sessions : SessionStore) (session_id : string)
    : option string :=
  match sessions_lookup sessions session_id with
  | Some session => session_bank session
  | None => None
  end.

(** ** Floating-point scores
    A finite float is the rational it denotes.  [dist] is a numpy
    float32; [1 / (1 + dist)] is evaluated in binary32 or in binary64,
    depending on how NumPy promotes the Python [int] 1 (binary32 under
    NEP 50, binary64 before), and the conversion [float(...)] is
    exact. *)

Record Format : Type := {
  prec : Z;   (* number of significant bits *)
  emin : Z    (* exponent of the smallest positive value *)
}.

Definition binary32 : Format := {| prec := 24; emin := -149 |}.
Definition binary64 : Format := {| prec := 53; emin := -1074 |}.

Definition pow2 (e : Z) : Q := (2 ^ e)%Q.

(** The largest finite binary32 value. *)
Definition FLT_MAX : Q := inject_Z 340282346638528859811704183484516925440.

(** [floor (log2 x)] for a positive rational. *)
Definition ilog2 (x : Q) : Z :=
  let k := Z.log2 (Qnum x) - Z.log2 (Zpos (Qden x)) in
  if Qle_bool (pow2 k) x then k else k - 1.

(** The integer nearest to [q], the even one of two at equal distance. *)
Definition rne (q : Q) : Z :=
  let f := Qfloor q in
  match Qcompare (q - inject_Z f) (1 # 2) with
  | Lt => f
  | Gt => f + 1
  | Eq => if Z.even f then f else f + 1
  end.

(** The exponent of the unit in the last place around [x]. *)
Definition ulp_exp (F : Format) (x : Q) : Z :=
  Z.max (ilog2 x - (prec F - 1)) (emin F).

Definition round_pos (F : Format) (x : Q) : Q :=
  let e := ulp_exp F x in (inject_Z (rne (x / pow2 e)) * pow2 e)%Q.

(** Rounding to nearest, ties to even, without overflow. *)
Definition round (F : Format) (x : Q) : Q :=
  match Qcompare x 0 with
  | Eq => 0%Q
  | Gt => round_pos F x
  | Lt => (- round_pos F (- x))%Q
  end.

(** [float(1 / (1 + dist))] evaluated in the format [F]. *)
Definition score_fl (F : Format) (dist : Q) : Q :=
  round F (1 / round F (1 + dist))%Q.

(** The value of a finite float of the Standard Library. *)
Definition SF2Q (f : spec_float) : option Q :=
  match f with
  | S754_zero _ => Some 0%Q
  | S754_finite s m e =>
      Some ((if s then -1 else 1) * inject_Z (Zpos m) * pow2 e)%Q
  | _ => None
  end.

(** [1 / (1 + x)] with the Standard Library's binary32 operations. *)
Definition sf_score32 (x : spec_float) : spec_float :=
  let one := S754_finite false 8388608 (-23) in
  SFdiv 24 128 one (SFadd 24 128 one x).

(** [1 / (1 + x)] with the Standard Library's binary64 operations. *)
Definition sf_score64 (x : spec_float) : spec_float :=
  let one := S754_finite false 4503599627370496 (-52) in
  SFdiv 53 1024 one (SFadd 53 1024 one x).

Definition agrees (F : Format) (sf : spec_float -> spec_float)
    (x : spec_float) : bool :=
  match SF2Q x, SF2Q (sf x) with
  | Some d, Some s => Qeq_bool (score_fl F d) s
  | _, _ => false
  end.

(** Some binary32 values: 0, 2^-60, 2^-24 and its successor, 2^-23, an
    arbitrary small one, 1 and its successor, three larger ones, the
    largest finite one and the smallest positive one. *)
Definition sample_floats : list spec_float :=
  [ S754_zero false;
    S754_finite false 8388608 (-83);
    S754_finite false 8388608 (-47);
    S754_finite false 8388609 (-47);
    S754_finite false 8388608 (-46);
    S754_finite false 12345678 (-30);
    S754_finite false 8388608 (-23);
    S754_finite false 8388609 (-23);
    S754_finite false 16777215 (-20);
    S754_finite false 11184811 (-10);
    S754_finite false 13421773 3;
    S754_finite false 16777215 104;
    S754_finite false 1 (-149) ].

Section Engine.

Variables Embedding Dist Score : Type.

(** [self._encode_query] *)
Variable _encode_query : string -> Embedding.

(** [float(1 / (1 + dist))] on the index's float type. *)
Variable score_of_distance : Dist -> Score.

(** [a < b] on scores. *)
Variable score_ltb : Score -> Score -> bool.

Record CorpusIndex : Type := {
  name : string;
  index : Embedding -> Z -> Res (list (Dist * Z));
  chunks : list string;
  metadatas : list Meta
}.

(** The dict built by [_search_single_corpus] for one hit. *)
Record Doc : Type := {
  score : Score;
  bank : string;
  document_name : string;
  doc_chunk_id : Z;
  raw_chunk : string;
  merged_text : string
}.

Definition option_string_eqb (a b : option string) : bool :=
  match a, b with
  | Some x, Some y => (x =? y)%string
  | None, None => true
  | _, _ => false
  end.

(** [m.get("source_file") == current_file and
     m.get("chunk_id") == current_chunk_id + delta]: the right operand of
    [and] is evaluated only when the files agree, and the arithmetic on
    a missing [current_chunk_id] raises. *)
Definition neighbor_matches (m : Meta) (current_file : option string)
    (current_chunk_id : option Z) (delta : Z) : Res bool :=
  if option_string_eqb (source_file m) current_file then
    match current_chunk_id with
    | None => Raise TypeError
    | Some n =>
        Ok (match chunk_id m with
            | Some x => x =? n + delta
            | None => false
            end)
    end
  else Ok false.

Definition _merge_neighbors (corpus : CorpusIndex) (idx : Z) : M string :=
  current_meta <- read ArrMetadatas (metadatas corpus) idx ;;
  let current_file := source_file current_meta in
  let current_chunk_id := chunk_id current_meta in
  let texts : list string := [] in
  texts <-
    (if idx - 1 >=? 0 then
       prev_meta <- read ArrMetadatas (metadatas corpus) (idx - 1) ;;
       same <- lift (neighbor_matches prev_meta current_file
                       current_chunk_id (-1)) ;;
       if same : bool then
         t <- read ArrChunks (chunks corpus) (idx - 1) ;;
         ret (texts ++ [t])
       else ret texts
     else ret texts) ;;
  cur <- read ArrChunks (chunks corpus) idx ;;
  let texts := texts ++ [cur] in
  texts <-
    (if idx + 1 <? Z.of_nat (List.length (chunks corpus)) then
       next_meta <- read ArrMetadatas (metadatas corpus) (idx + 1) ;;
       same <- lift (neighbor_matches next_meta current_file
                       current_chunk_id 1) ;;
       if same : bool then
         t <- read ArrChunks (chunks corpus) (idx + 1) ;;
         ret (texts ++ [t])
       else ret texts
     else ret texts) ;;
  ret (join newline texts).

(** The body of the [for dist, idx in zip(distances, indices)] loop. *)
Fixpoint search_hits (corpus : CorpusIndex) (hits : list (Dist * Z))
    : M (list Doc) :=
  match hits with
  | [] => ret []
  | (dist, idx) :: rest =>
      if idx =? -1 then search_hits corpus rest
      else
        meta <- read ArrMetadatas (metadatas corpus) idx ;;
        chunk_text <- read ArrChunks (chunks corpus) idx ;;
        merged <- _merge_neighbors corpus idx ;;
        let r := {| score := score_of_distance dist;
                    bank := name corpus;
                    document_name :=
                      match source_file meta with
                      | Some f => f
                      | None => "unknown"
                      end;
                    doc_chunk_id :=
                      match chunk_id meta with
                      | Some n => n
                      | None => idx
                      end;
                    raw_chunk := chunk_text;
                    merged_text := merged |} in
        results <- search_hits corpus rest ;;
        ret (r :: results)
  end.

Definition _search_single_corpus (corpus : CorpusIndex)
    (query_embedding : Embedding) (top_k : Z) : M (list Doc) :=
  hits <- lift (index corpus query_embedding top_k) ;;
  search_hits corpus hits.

(** [self._corpora.get(key)] *)
Definition corpora_get (corpora : list CorpusIndex) (key : string)
    : option CorpusIndex :=
  find (fun c => (name c =? key)%string) corpora.

(** The first entry whose lowered name is [bank_key] (the [for ... break]
    loop of the hinted branch). *)
Definition find_bank (corpora : list CorpusIndex) (bank_key : string)
    : option CorpusIndex :=
  find (fun c => (lower (name c) =? bank_key)%string) corpora.

Definition is_common_name (n : string) : bool :=
  (lower n =? "common")%string.

(** What [pickle.load] returns for a [metadata.pkl]: a dict, of which
    the loader reads the keys "chunks" and "metadatas" (either may be
    missing), or an object of another type. *)
Inductive Pickled : Type :=
| PickledDict (chunks_value : option (list string))
              (metadatas_value : option (list Meta))
| PickledOther.

(** One name returned by [os.listdir(STORAGE_DIR)]: whether it is a
    directory and, for each of its files [index.faiss] and
    [metadata.pkl] that exists, what [faiss.read_index] and
    [pickle.load] make of it: a value, or the exception they raise on a
    file they cannot decode. *)
Record DirEntry : Type := {
  entry_name : string;
  entry_is_dir : bool;
  index_faiss : option (Res (Embedding -> Z -> Res (list (Dist * Z))));
  metadata_pkl : option (Res Pickled)
}.

(** [d[c.name] = c] *)
Fixpoint dict_setitem (d : list CorpusIndex) (c : CorpusIndex)
    : list CorpusIndex :=
  match d with
  | [] => [c]
  | c' :: d' =>
      if (name c' =? name c)%string then c :: d' else c' :: dict_setitem d' c
  end.

(** [meta[key]] on the unpickled object: [KeyError] for a dict without
    the key, [TypeError] for an object that is not a dict. *)
Definition pickled_getitem {A} (meta : Pickled)
    (key : option (list string) -> option (list Meta) -> option A) : Res A :=
  match meta with
  | PickledDict chunks_value metadatas_value =>
      match key chunks_value metadatas_value with
      | Some v => Ok v
      | None => Raise KeyError
      end
  | PickledOther => Raise TypeError
  end.

(** The body of the [for name in os.listdir(STORAGE_DIR)] loop: the
    corpus to register, [None] after a [continue], or the exception of
    [faiss.read_index], of [pickle.load] or of [meta[...]]. *)
Definition load_corpus (e : DirEntry) : Res (option CorpusIndex) :=
  if negb (entry_is_dir e) then Ok None
  else
    match index_faiss e, metadata_pkl e with
    | Some read_index, Some pickle_load =>
        match read_index with
        | Raise err => Raise err
        | Ok ix =>
            match pickle_load with
            | Raise err => Raise err
            | Ok meta =>
                match pickled_getitem meta (fun cs _ => cs) with
                | Raise err => Raise err
                | Ok cs =>
                    match pickled_getitem meta (fun _ ms => ms) with
                    | Raise err => Raise err
                    | Ok ms =>
                        Ok (Some {| name := entry_name e; index := ix;
                                    chunks := cs; metadatas := ms |})
                    end
                end
            end
        end
    | _, _ => Ok None
    end.

Fixpoint load_entries (entries : list DirEntry) (corpora : list CorpusIndex)
    : Res (list CorpusIndex) :=
  match entries with
  | [] => Ok corpora
  | e :: rest =>
      match load_corpus e with
      | Raise err => Raise err
      | Ok None => load_entries rest corpora
      | Ok (Some c) => load_entries rest (dict_setitem corpora c)
      end
  end.

(** [_load_all_corpora]; [None] stands for a missing [STORAGE_DIR]. *)
Definition _load_all_corpora (listing : option (list DirEntry))
    : Res (list CorpusIndex) :=
  match listing with
  | None => Raise FileNotFoundError
  | Some entries => load_entries entries []
  end.

(** [available_banks] *)
Definition available_banks (corpora : list CorpusIndex) : list string :=
  filter (fun n => negb (is_common_name n)) (map name corpora).

Definition option_list {A} (o : option A) : list A :=
  match o with
  | Some a => [a]
  | None => []
  end.

(** Corpus selection, the first part of [retrieve]. *)
Definition corpora_to_search (corpora : list CorpusIndex)
    (bank : option string) : list CorpusIndex :=
  let common_corpus := corpora_get corpora "common" in
  if truthy bank then
    let bank_key := lower (match bank with Some b => b | None => "" end) in
    let bank_corpus := find_bank corpora bank_key in
    option_list bank_corpus ++ option_list common_corpus
  else
    option_list common_corpus
    ++ filter (fun c => negb (is_common_name (name c))) corpora.

(** The [for corpus in corpora_to_search] loop. *)
Fixpoint search_all (cs : list CorpusIndex) (query_emb : Embedding)
    (top_k : Z) : M (list Doc) :=
  match cs with
  | [] => ret []
  | corpus :: rest =>
      corpus_results <- _search_single_corpus corpus query_emb top_k ;;
      more <- search_all rest query_emb top_k ;;
      ret (corpus_results ++ more)
  end.

(** [l.sort(key=key, reverse=True)]: a stable sort, largest key first;
    elements with equal keys keep their order. *)
Fixpoint insert_desc {A} (key : A -> Score) (x : A) (l : list A) : list A :=
  match l with
  | [] => [x]
  | y :: l' =>
      if score_ltb (key x) (key y) then y :: insert_desc key x l'
      else x :: l
  end.

Definition sort_desc {A} (key : A -> Score) (l : list A) : list A :=
  fold_right (insert_desc key) [] l.

Definition is_common (r : Doc) : bool := is_common_name (bank r).

(** [d.setdefault(k, []).append(r)] on an insertion-ordered dict. *)
Fixpoint setdefault_append (d : list (string * list Doc)) (k : string)
    (r : Doc) : list (string * list Doc) :=
  match d with
  | [] => [(k, [r])]
  | (k', rs) :: d' =>
      if (k' =? k)%string then (k', rs ++ [r]) :: d'
      else (k', rs) :: setdefault_append d' k r
  end.

Definition bank_to_results (other_results : list Doc)
    : list (string * list Doc) :=
  fold_left (fun d r => setdefault_append d (bank r) r) other_results [].

(** [max(r["score"] for r in rs)]: the first largest score; the empty
    sequence raises. *)
Definition max_score (rs : list Doc) : Res Score :=
  match rs with
  | [] => Raise ValueError
  | r :: rs' =>
      Ok (fold_left
            (fun best r' =>
               if score_ltb best (score r') then score r' else best)
            rs' (score r))
  end.

Fixpoint bank_scores_of (items : list (string * list Doc))
    : M (list (string * Score)) :=
  match items with
  | [] => ret []
  | (bank_name, rs) :: rest =>
      best_score <- lift (max_score rs) ;;
      more <- bank_scores_of rest ;;
      ret ((bank_name, best_score) :: more)
  end.

(** [d[k]] *)
Definition dict_getitem (d : list (string * list Doc)) (k : string)
    : Res (list Doc) :=
  match find (fun p => (fst p =? k)%string) d with
  | Some p => Ok (snd p)
  | None => Raise KeyError
  end.

(** The [for b in selected_banks] loop. *)
Fixpoint extend_selected (d : list (string * list Doc))
    (selected_banks : list string) (top_k : Z) (filtered_results : list Doc)
    : M (list Doc) :=
  match selected_banks with
  | [] => ret filtered_results
  | b :: rest =>
      rs <- lift (dict_getitem d b) ;;
      extend_selected d rest top_k (filtered_results ++ slice_to rs top_k)
  end.

(** [if top_k_per_index is None: top_k_per_index = TOP_K_PER_INDEX] *)
Definition top_k_or_default (top_k_per_index : option Z) : Z :=
  match top_k_per_index with
  | None => TOP_K_PER_INDEX
  | Some k => k
  end.

Definition retrieve (corpora : list CorpusIndex) (question : string)
    (bank : option string) (top_k_per_index : option Z) : M (list Doc) :=
  let top_k_per_index := top_k_or_default top_k_per_index in
  let query_emb := _encode_query question in
  let cs := corpora_to_search corpora bank in
  all_results <- search_all cs query_emb top_k_per_index ;;
  let all_results := sort_desc score all_results in
  if truthy bank then
    ret (slice_to all_results (top_k_per_index * Z.of_nat (List.length cs)))
  else
    let common_results := filter is_common all_results in
    let other_results := filter (fun r => negb (is_common r)) all_results in
    let b2r := bank_to_results other_results in
    bank_scores <- bank_scores_of b2r ;;
    let bank_scores := sort_desc snd bank_scores in
    let selected_banks :=
      map fst (slice_to bank_scores MAX_BANKS_WHEN_NO_BANK_SPECIFIED) in
    let filtered_results := slice_to common_results top_k_per_index in
    filtered_results <-
      extend_selected b2r selected_banks top_k_per_index filtered_results ;;
    ret (sort_desc score filtered_results).

(** *** backend/api/chat_logic.py: the sources projector *)

Record Source : Type := {
  source_bank : string;
  source_document_name : string;
  snippet : string
}.

(** [key not in sources_map] *)
Definition dict_contains (m : list ((string * string) * Source))
    (key : string * string) : bool :=
  existsb (fun e => ((fst (fst e) =? fst key)
                     && (snd (fst e) =? snd key))%string%bool) m.

(** [" ".join(text.strip().splitlines())[:400]] *)
Definition snippet_of (text : string) : string :=
  str_take 400 (join " " (splitlines (strip text))).

Definition build_sources_step (sources_map : list ((string * string) * Source))
    (doc : Doc) : list ((string * string) * Source) :=
  let key := (bank doc, document_name doc) in
  if dict_contains sources_map key then sources_map
  else
    sources_map
    ++ [(key, {| source_bank := bank doc;
                 source_document_name := document_name doc;
                 snippet := snippet_of (merged_text doc) |})].

Definition build_sources_for_llm (retrieved_docs : list Doc) : list Source :=
  map snd (fold_left build_sources_step retrieved_docs []).

(** *** backend/api/chat_logic.py: the prompt and the answer *)

Definition build_context_block (retrieved_docs : list Doc) : string :=
  join newline
    (map (fun doc =>
            ("[BANK: " ++ bank doc ++ "] [DOCUMENT: " ++ document_name doc
             ++ "]" ++ newline
             ++ merged_text doc ++ newline
             ++ "----" ++ newline)%string)
         retrieved_docs).

Definition _history_to_text (history : list Message) : string :=
  join newline
    (map (fun msg => (upper (role msg) ++ ": " ++ content msg)%string)
         history).

(** A value returned by [json.loads]; a number keeps its literal. *)
#[local] Unset Elimination Schemes.
Inductive Json : Type :=
| JNull
| JBool (b : bool)
| JNumber (literal : string)
| JString (s : string)
| JArray (items : list Json)
| JObject (members : list (string * Json)).
#[local] Set Elimination Schemes.

(** [json.loads]: [None] stands for [JSONDecodeError]. *)
Variable json_loads : string -> option Json.

Definition fence : string := "```".

Definition fallback_answer (raw : string) : Json :=
  JObject [ ("summary", JString raw); ("steps", JString "");
            ("sources", JArray []); ("cost_saving_tips", JString "") ].

Definition safe_parse_llm_json (raw : string) : Json :=
  let text := strip raw in
  let text :=
    if startswith text fence then
      let lines := splitlines text in
      let lines := tl lines in
      let lines :=
        match lines with
        | [] => lines
        | _ :: _ =>
            if startswith (strip (last lines "")) fence then removelast lines
            else lines
        end in
      strip (join newline lines)
    else text in
  match json_loads text with
  | Some parsed => parsed
  | None =>
      let start := str_find text "{" in
      let end_ := str_rfind text "}" in
      if (negb (start =? -1) && negb (end_ =? -1) && (start <? end_))%bool then
        let candidate := str_slice text start (end_ + 1) in
        match json_loads candidate with
        | Some parsed => parsed
        | None => fallback_answer raw
        end
      else fallback_answer raw
  end.

(** The data of a request, as [generate_answer] hands it to the model
    inside the prompt. *)
Record Payload : Type := {
  payload_question : string;
  bank_context : string;
  policy_context : string;
  structured_sources_hint : list Source;
  chat_history : string
}.

(** [client.models.generate_content(...)] on the prompt built from a
    payload: the [text] of the response, which may be [None]; the outer
    [None] stands for an exception of the client. *)
Variable gemini : Payload -> option (option string).

(** The dict returned by [generate_answer]. *)
Record AnswerData : Type := {
  summary : string;
  steps : string;
  sources : list Json;
  cost_saving_tips : string
}.

(** [parsed.get(key, default)]; [None] stands for the [AttributeError]
    of a value that is not a dict. *)
Definition json_get (parsed : Json) (key : string) (default : Json)
    : option Json :=
  match parsed with
  | JObject members =>
      Some match find (fun p => (fst p =? key)%string) members with
           | Some p => snd p
           | None => default
           end
  | _ => None
  end.

(** [parsed.get(key, "").strip()] *)
Definition stripped_member (parsed : Json) (key : string) : option string :=
  match json_get parsed key (JString "") with
  | Some (JString s) => Some (strip s)
  | _ => None
  end.

(** [generate_answer]; [None] stands for an exception. *)
Definition generate_answer (question : string) (bank : option string)
    (session_id : string) (retrieved_docs : list Doc)
    (sessions : SessionStore) : option AnswerData * SessionStore :=
  let (history, sessions) := get_history sessions session_id in
  let policy_context := build_context_block retrieved_docs in
  let sources_for_llm := build_sources_for_llm retrieved_docs in
  let history_text := _history_to_text history in
  let user_payload :=
    {| payload_question := question;
       bank_context := if truthy bank
                       then match bank with Some b => b | None => "" end
                       else "";
       policy_context := policy_context;
       structured_sources_hint := sources_for_llm;
       chat_history := history_text |} in
  match gemini user_payload with
  | None => (None, sessions)
  | Some response_text =>
      let content := match response_text with
                     | Some t => if (t =? "")%string then "" else t
                     | None => ""
                     end in
      let parsed := safe_parse_llm_json content in
      (match json_get parsed "sources" (JArray []) with
       | None => None
       | Some sources =>
           let sources := match sources with
                          | JArray items => items
                          | _ => []
                          end in
           match stripped_member parsed "summary",
                 stripped_member parsed "steps",
                 stripped_member parsed "cost_saving_tips" with
           | Some summary, Some steps, Some cost_saving_tips =>
               Some {| summary := summary; steps := steps;
                       sources := sources;
                       cost_saving_tips := cost_saving_tips |}
           | _, _, _ => None
           end
       end, sessions)
  end.

(** *** backend/api/models.py and backend/api/main.py *)

Record QuestionRequest : Type := {
  req_question : string;
  req_bank : option string;
  req_session_id : string;
  req_top_k_per_index : Z
}.

Record SourceItem : Type := {
  item_bank : string;
  item_document_name : string;
  item_snippet : string
}.

Record AnswerResponse : Type := {
  response_summary : string;
  response_steps : string;
  response_sources : list SourceItem;
  response_cost_saving_tips : string
}.

(** Pydantic's validation of a [str] field; [None] stands for
    [ValidationError]. *)
Variable pydantic_str : Json -> option string.

(** [SourceItem(bank=s.get("bank", ""), ...)] *)
Definition source_item (s : Json) : option SourceItem :=
  match json_get s "bank" (JString ""),
        json_get s "document_name" (JString ""),
        json_get s "snippet" (JString "") with
  | Some b, Some d, Some sn =>
      match pydantic_str b, pydantic_str d, pydantic_str sn with
      | Some b, Some d, Some sn =>
          Some {| item_bank := b; item_document_name := d;
                  item_snippet := sn |}
      | _, _, _ => None
      end
  | _, _, _ => None
  end.

Fixpoint sources_items (sources : list Json) : option (list SourceItem) :=
  match sources with
  | [] => Some []
  | s :: rest =>
      match source_item s with
      | None => None
      | Some item =>
          match sources_items rest with
          | None => None
          | Some items => Some (item :: items)
          end
      end
  end.

(** The detail of an [HTTPException]. *)
Inductive Detail : Type :=
| DetailText (text : string)
| DetailError (e : PyError).

(** How a request ends: with a response, with an [HTTPException], or
    with an exception that the handler does not catch. *)
Inductive Outcome : Type :=
| Respond (response : AnswerResponse)
| HTTPException (status_code : Z) (detail : Detail)
| Unhandled.

(** The [for b in retrieval_engine.available_banks] loop. *)
Fixpoint detect_bank (banks : list string) (lower_q : string)
    (bank : option string) : option string :=
  match banks with
  | [] => bank
  | b :: rest =>
      if str_contains lower_q (lower b) then Some b
      else detect_bank rest lower_q bank
  end.

Definition ask_question (corpora : list CorpusIndex)
    (sessions : SessionStore) (req : QuestionRequest)
    : Outcome * SessionStore :=
  if (strip (req_question req) =? "")%string then
    (HTTPException 400 (DetailText "Question cannot be empty."), sessions)
  else
    let (session_bank, sessions) := get_bank sessions (req_session_id req) in
    let bank := if truthy (req_bank req) then req_bank req else session_bank in
    let bank :=
      if truthy bank then bank
      else detect_bank (available_banks corpora) (lower (req_question req))
             bank in
    let sessions :=
      if truthy bank then set_bank sessions (req_session_id req) bank
      else sessions in
    match result (retrieve corpora (req_question req) bank
                    (Some (req_top_k_per_index req))) with
    | Raise e => (HTTPException 500 (DetailError e), sessions)
    | Ok retrieved_docs =>
        let (answer, sessions) :=
          generate_answer (req_question req) bank (req_session_id req)
            retrieved_docs sessions in
        match answer with
        | None => (Unhandled, sessions)
        | Some answer_data =>
            let sessions :=
              add_message sessions (req_session_id req) "user"
                (req_question req) in
            let sessions :=
              add_message sessions (req_session_id req) "assistant"
                (summary answer_data) in
            match sources_items (sources answer_data) with
            | None => (Unhandled, sessions)
            | Some items =>
                (Respond {| response_summary := summary answer_data;
                            response_steps := steps answer_data;
                            response_sources := items;
                            response_cost_saving_tips :=
                              cost_saving_tips answer_data |},
                 sessions)
            end
        end
    end.

(** ** Vocabulary of the properties *)

(** The metadata at position [j] names the document [file] and carries
    the sequence index [seq]. *)
Definition meta_at (c : CorpusIndex) (j : Z) (file : option string)
    (seq : Z) : Prop :=
  0 <= j < Z.of_nat (List.length (chunks c)) /\
  exists mj, nth_error (metadatas c) (Z.to_nat j) = Some mj /\
             source_file mj = file /\ chunk_id mj = Some seq.

Definition neighbor_ok (c : CorpusIndex) (m : Meta) (n j delta : Z) : bool :=
  match nth_error (metadatas c) (Z.to_nat j) with
  | Some mj =>
      option_string_eqb (source_file mj) (source_file m)
      && match chunk_id mj with
         | Some x => x =? n + delta
         | None => false
         end
  | None => false
  end.

Definition chunk_at (c : CorpusIndex) (j : Z) : string :=
  nth (Z.to_nat j) (chunks c) "".

(** The chunk text stored at position [j]. *)
Definition text_at (c : CorpusIndex) (j : Z) (t : string) : Prop :=
  0 <= j /\ nth_error (chunks c) (Z.to_nat j) = Some t.

(** The four shapes of a repaired text. *)
Definition merged_shape (c : CorpusIndex) (idx : Z) (cur merged : string)
    : Prop :=
  merged = cur
  \/ (exists prev, text_at c (idx - 1) prev /\
                   merged = (prev ++ newline ++ cur)%string)
  \/ (exists next, text_at c (idx + 1) next /\
                   merged = (cur ++ newline ++ next)%string)
  \/ (exists prev next,
        text_at c (idx - 1) prev /\ text_at c (idx + 1) next /\
        merged = (prev ++ newline ++ cur ++ newline ++ next)%string).

(** The arrays of a corpus are aligned and every metadata dict carries
    a sequence index. *)
Definition corpus_wf (c : CorpusIndex) : Prop :=
  List.length (metadatas c) = List.length (chunks c) /\
  Forall (fun m => chunk_id m <> None) (metadatas c).

Definition is_sentinel (h : Dist * Z) : bool := snd h =? -1.

Definition valid_hits (hits : list (Dist * Z)) : list (Dist * Z) :=
  filter (fun h => negb (is_sentinel h)) hits.

(** The record that [_search_single_corpus] builds for the hit [h]. *)
Definition hit_doc (c : CorpusIndex) (h : Dist * Z) (r : Doc) : Prop :=
  score r = score_of_distance (fst h) /\
  bank r = name c /\
  text_at c (snd h) (raw_chunk r) /\
  (exists m, nth_error (metadatas c) (Z.to_nat (snd h)) = Some m /\
             document_name r = match source_file m with
                               | Some f => f
                               | None => "unknown"
                               end /\
             doc_chunk_id r = match chunk_id m with
                              | Some n => n
                              | None => snd h
                              end) /\
  result (_merge_neighbors c (snd h)) = Ok (merged_text r) /\
  substring_of (raw_chunk r) (merged_text r) /\
  merged_shape c (snd h) (raw_chunk r) (merged_text r).

Definition hit_in_range (c : CorpusIndex) (h : Dist * Z) : Prop :=
  snd h = -1 \/ 0 <= snd h < Z.of_nat (List.length (chunks c)).

(** Every read lies inside the arrays, next to the id of a kept hit. *)
Definition reads_local (c : CorpusIndex) (hits : list (Dist * Z))
    (log : list Read) : Prop :=
  forall (arr : Arr) (p : Z),
    In (arr, p) log ->
    0 <= p < Z.of_nat (List.length (chunks c)) /\
    exists h, In h (valid_hits hits) /\
              (p = snd h - 1 \/ p = snd h \/ p = snd h + 1).

(** What FAISS returns for [index.search(q, k)] on an index of [ntotal]
    vectors: [k] pairs, the first [min(k, ntotal)] with ids inside the
    index and all the others with the sentinel id. *)
Definition faiss_search_contract (ntotal : nat) (k : Z)
    (hits : list (Dist * Z)) : Prop :=
  Z.of_nat (List.length hits) = k /\
  Forall (fun h => 0 <= snd h < Z.of_nat ntotal)
         (firstn (Nat.min (Z.to_nat k) ntotal) hits) /\
  Forall (fun h => snd h = -1) (skipn (Nat.min (Z.to_nat k) ntotal) hits).

(** [a] may stand before [b] in a list sorted by decreasing key. *)
Definition desc {A} (key : A -> Score) (a b : A) : Prop :=
  score_ltb (key a) (key b) = false.

(** The float comparison [<] is a strict weak order (no NaN among the
    scores). *)
Definition ltb_asym : Prop :=
  forall a b, score_ltb a b = true -> score_ltb b a = false.

Definition ltb_negtrans : Prop :=
  forall a b c,
    score_ltb a b = false -> score_ltb b c = false -> score_ltb a c = false.

(** The records stored under [b], the empty list for a missing key. *)
Definition group_lookup (d : list (string * list Doc)) (b : string)
    : list Doc :=
  match find (fun p => (fst p =? b)%string) d with
  | Some p => snd p
  | None => []
  end.

Definition has_bank (b : string) (r : Doc) : bool := (bank r =? b)%string.

(** [scores] lists, in the order of the groups, each bank with the
    best score of its group. *)
Definition scores_of (d : list (string * list Doc))
    (scores : list (string * Score)) : Prop :=
  Forall2 (fun p q => fst q = fst p /\ max_score (snd p) = Ok (snd q))
          d scores.

(** The distinct bank names of the scoped records of [docs]. *)
Definition scoped_names (docs : list Doc) : list string :=
  nodup string_dec (map bank (filter (fun r => negb (is_common r)) docs)).

Definition doc_key (d : Doc) : string * string := (bank d, document_name d).

Definition key_eqb (a b : string * string) : bool :=
  ((fst a =? fst b) && (snd a =? snd b))%string%bool.

(** The entry emitted for a record. *)
Definition source_of (d : Doc) : Source :=
  {| source_bank := bank d;
     source_document_name := document_name d;
     snippet := snippet_of (merged_text d) |}.

(** The records whose (bank, document) pair occurs for the first time,
    in list order. *)
Fixpoint keep_first (docs : list Doc) : list Doc :=
  match docs with
  | [] => []
  | d :: ds =>
      d :: filter (fun d' => negb (key_eqb (doc_key d) (doc_key d')))
             (keep_first ds)
  end.

Definition fresh (seen : list (string * string)) (d : Doc) : bool :=
  negb (existsb (fun k => key_eqb k (doc_key d)) seen).

Definition space : ascii := ascii_of_nat 32.

(** Every line boundary of [s] replaced by one space (a carriage
    return followed by a line feed being one boundary). *)
Fixpoint replace_breaks (s : string) : string :=
  match s with
  | EmptyString => EmptyString
  | String c s' =>
      if is_linebreak c then
        match s' with
        | String c' s'' =>
            if (is_cr c && is_lf c')%bool then String space (replace_breaks s'')
            else String space (replace_breaks s')
        | EmptyString => String space EmptyString
        end
      else String c (replace_breaks s')
  end.

(** The spec's reading of the snippet: every line feed of the text
    replaced by one space. *)
Fixpoint flatten_newlines (s : string) : string :=
  match s with
  | EmptyString => EmptyString
  | String c s' =>
      String (if is_lf c then space else c) (flatten_newlines s')
  end.

Fixpoint ends_with_break (s : string) : bool :=
  match s with
  | EmptyString => false
  | String c s' =>
      match s' with
      | EmptyString => is_linebreak c
      | String _ _ => ends_with_break s'
      end
  end.

Fixpoint all_chars (P : ascii -> bool) (s : string) : bool :=
  match s with
  | EmptyString => true
  | String c s' => (P c && all_chars P s')%bool
  end.

(** The corpus that [_load_all_corpora] registers for a directory entry
    that loads: none for a plain file or a directory that lacks one of
    its two files. *)
Definition corpus_of_entry (e : DirEntry) : option CorpusIndex :=
  match load_corpus e with
  | Ok (Some c) => Some c
  | _ => None
  end.

(** The entry loads: the loop body raises nothing on it. *)
Definition loads (e : DirEntry) : Prop :=
  exists o, load_corpus e = Ok o.

(** One iteration of the loader's loop on an entry that loads. *)
Definition load_step (corpora : list CorpusIndex) (e : DirEntry)
    : list CorpusIndex :=
  match corpus_of_entry e with
  | Some c => dict_setitem corpora c
  | None => corpora
  end.

(** The request [req] with its bank replaced by [b]. *)
Definition with_bank (req : QuestionRequest) (b : option string)
    : QuestionRequest :=
  {| req_question := req_question req;
     req_bank := b;
     req_session_id := req_session_id req;
     req_top_k_per_index := req_top_k_per_index req |}.

(** The bank that [ask_question] passes to [retrieve]. *)
Definition bank_used (corpora : list CorpusIndex) (sessions : SessionStore)
    (req : QuestionRequest) : option string :=
  let bank :=
    if truthy (req_bank req) then req_bank req
    else bank_of sessions (req_session_id req) in
  if truthy bank then bank
  else detect_bank (available_banks corpora) (lower (req_question req)) bank.

(** The store after the bank of a request has been settled. *)
Definition store_with_bank (corpora : list CorpusIndex)
    (sessions : SessionStore) (req : QuestionRequest) : SessionStore :=
  let sessions' := snd (get_bank sessions (req_session_id req)) in
  if truthy (bank_used corpora sessions req)
  then set_bank sessions' (req_session_id req) (bank_used corpora sessions req)
  else sessions'.

(** The block of the policy context that stands for one record. *)
Definition context_part (doc : Doc) : string :=
  ("[BANK: " ++ bank doc ++ "] [DOCUMENT: " ++ document_name doc ++ "]"
   ++ newline ++ merged_text doc ++ newline ++ "----" ++ newline)%string.

(** The payload that [generate_answer] builds. *)
Definition payload_of (question : string) (bank : option string)
    (history : list Message) (retrieved_docs : list Doc) : Payload :=
  {| payload_question := question;
     bank_context := if truthy bank
                     then match bank with Some b => b | None => "" end
                     else "";
     policy_context := build_context_block retrieved_docs;
     structured_sources_hint := build_sources_for_llm retrieved_docs;
     chat_history := _history_to_text history |}.

(** [response.text or ""] *)
Definition content_of (response_text : option string) : string :=
  match response_text with
  | Some t => t
  | None => ""
  end.

(** The text that [safe_parse_llm_json] hands to [json.loads] first:
    the stripped reply, without its code fence when it has one. *)
Definition unfenced (raw : string) : string :=
  let text := strip raw in
  if startswith text fence then
    let lines := tl (splitlines text) in
    let lines :=
      match lines with
      | [] => lines
      | _ :: _ =>
          if startswith (strip (last lines "")) fence then removelast lines
          else lines
      end in
    strip (join newline lines)
  else text.

(** The span of [text] from its first opening brace to its last closing
    brace, when the first comes before the last. *)
Definition brace_span (text : string) : option string :=
  let start := str_find text "{" in
  let end_ := str_rfind text "}" in
  if (negb (start =? -1) && negb (end_ =? -1) && (start <? end_))%bool
  then Some (str_slice text start (end_ + 1))
  else None.

Definition no_linebreak (s : string) : bool :=
  all_chars (fun c => negb (is_linebreak c)) s.

(** Whether the character [c] occurs in [s]. *)
Fixpoint has_char (c : ascii) (s : string) : bool :=
  match s with
  | EmptyString => false
  | String a s' => (Ascii.eqb a c || has_char c s')%bool
  end.

(** ** Properties *)

(** *** The monad *)

Lemma result_bind {A B} (m : M A) (f : A -> M B) :
  result (bind m f) =
  match result m with
  | Ok a => result (f a)
  | Raise e => Raise e
  end.
Proof.
  destruct m as [l [a | e]]; simpl; [destruct (f a) |]; reflexivity.
Qed.

Lemma bind_ok {A B} (l : list Read) (a : A) (f : A -> M B) :
  bind (l, Ok a) f = (l ++ reads (f a), result (f a)).
Proof. simpl. destruct (f a); reflexivity. Qed.

Lemma result_lift {A} (r : Res A) : result (lift r) = r.
Proof. reflexivity. Qed.

(** *** Subscripts *)

Lemma getitem_in_range {A} (l : list A) (i : Z) (a : A) :
  0 <= i -> nth_error l (Z.to_nat i) = Some a -> getitem l i = Ok a.
Proof.
  intros Hi Hnth. unfold getitem.
  assert (Hlt : (Z.to_nat i < List.length l)%nat)
    by (apply nth_error_Some; congruence).
  assert (Hneg : (i <? 0) = false) by (apply Z.ltb_ge; lia).
  assert (Hup : (Z.of_nat (List.length l) <=? i) = false)
    by (apply Z.leb_gt; lia).
  cbv zeta. rewrite Hneg, Hneg, Hup, Hnth. reflexivity.
Qed.

Lemma nth_error_in_range {A} (l : list A) (i : Z) :
  0 <= i < Z.of_nat (List.length l) ->
  exists a, nth_error l (Z.to_nat i) = Some a.
Proof.
  intros Hi. destruct (nth_error l (Z.to_nat i)) eqn:E; [eauto |].
  apply nth_error_None in E. lia.
Qed.

Lemma read_in_range {A} (arr : Arr) (l : list A) (i : Z) (a : A) :
  0 <= i -> nth_error l (Z.to_nat i) = Some a ->
  read arr l i = ([(arr, i)], Ok a).
Proof.
  intros Hi Hnth. unfold read. rewrite (getitem_in_range l i a Hi Hnth).
  reflexivity.
Qed.

(** *** Neighbour repair *)

Lemma option_string_eqb_eq (a b : option string) :
  option_string_eqb a b = true <-> a = b.
Proof.
  destruct a as [x |], b as [y |]; simpl; split; intros H;
    try discriminate; try reflexivity.
  - apply String.eqb_eq in H. congruence.
  - injection H as ->. apply String.eqb_refl.
Qed.

Lemma neighbor_ok_meta_at (c : CorpusIndex) (m : Meta) (n j delta : Z) :
  0 <= j < Z.of_nat (List.length (chunks c)) ->
  (neighbor_ok c m n j delta = true <->
   meta_at c j (source_file m) (n + delta)).
Proof.
  intros Hj. unfold neighbor_ok, meta_at. split.
  - destruct (nth_error (metadatas c) (Z.to_nat j)) as [mj |] eqn:E;
      [| discriminate].
    intros H. apply andb_true_iff in H as [Hf Hc].
    apply option_string_eqb_eq in Hf.
    destruct (chunk_id mj) as [x |] eqn:Ex; [| discriminate].
    apply Z.eqb_eq in Hc. subst x.
    split; [exact Hj |]. exists mj. auto.
  - intros [_ (mj & E & Hf & Hc)]. rewrite E, Hc, Z.eqb_refl, andb_true_r.
    apply option_string_eqb_eq. exact Hf.
Qed.

Lemma neighbor_matches_ok (c : CorpusIndex) (m mj : Meta) (n j delta : Z) :
  nth_error (metadatas c) (Z.to_nat j) = Some mj ->
  chunk_id m = Some n ->
  neighbor_matches mj (source_file m) (chunk_id m) delta
  = Ok (neighbor_ok c m n j delta).
Proof.
  intros E Hn. unfold neighbor_matches, neighbor_ok. rewrite E, Hn.
  destruct (option_string_eqb (source_file mj) (source_file m)); reflexivity.
Qed.

(** One side of the repair: the guarded look at the neighbour at [j]. *)
Lemma neighbor_block (c : CorpusIndex) (m : Meta) (n j delta : Z)
    (guard : bool) (texts : list string) :
  List.length (metadatas c) = List.length (chunks c) ->
  chunk_id m = Some n ->
  (guard = true -> 0 <= j < Z.of_nat (List.length (chunks c))) ->
  (if guard then
     prev_meta <- read ArrMetadatas (metadatas c) j ;;
     same <- lift (neighbor_matches prev_meta (source_file m)
                     (chunk_id m) delta) ;;
     if same : bool then
       t <- read ArrChunks (chunks c) j ;;
       ret (texts ++ [t])
     else ret texts
   else ret texts)
  = ((if guard
      then (ArrMetadatas, j)
           :: (if neighbor_ok c m n j delta then [(ArrChunks, j)] else [])
      else []),
     Ok (texts ++ (if (guard && neighbor_ok c m n j delta)%bool
                   then [chunk_at c j] else []))).
Proof.
  intros Hlen Hn Hg. destruct guard.
  - specialize (Hg eq_refl).
    destruct (nth_error_in_range (metadatas c) j) as [mj Hmj];
      [rewrite Hlen; exact Hg |].
    destruct (nth_error_in_range (chunks c) j Hg) as [t Ht].
    rewrite (read_in_range ArrMetadatas _ j mj (proj1 Hg) Hmj).
    cbn [bind].
    rewrite (neighbor_matches_ok c m mj n j delta Hmj Hn).
    rewrite (read_in_range ArrChunks _ j t (proj1 Hg) Ht).
    unfold chunk_at. rewrite (nth_error_nth _ _ _ Ht).
    destruct (neighbor_ok c m n j delta); simpl.
    + reflexivity.
    + rewrite app_nil_r. reflexivity.
  - simpl. rewrite app_nil_r. reflexivity.
Qed.

(** The run of [_merge_neighbors] at an in-range position of an aligned
    corpus: the reads it performs and the text it returns. *)
Lemma merge_neighbors_run (c : CorpusIndex) (idx : Z) (m : Meta) (n : Z)
    (cur : string) :
  List.length (metadatas c) = List.length (chunks c) ->
  0 <= idx ->
  nth_error (metadatas c) (Z.to_nat idx) = Some m ->
  chunk_id m = Some n ->
  nth_error (chunks c) (Z.to_nat idx) = Some cur ->
  let len := Z.of_nat (List.length (chunks c)) in
  let bp := ((0 <=? idx - 1) && neighbor_ok c m n (idx - 1) (-1))%bool in
  let bn := ((idx + 1 <? len) && neighbor_ok c m n (idx + 1) 1)%bool in
  _merge_neighbors c idx =
  ([(ArrMetadatas, idx)]
   ++ (if 0 <=? idx - 1
       then (ArrMetadatas, idx - 1)
            :: (if neighbor_ok c m n (idx - 1) (-1)
                then [(ArrChunks, idx - 1)] else [])
       else [])
   ++ [(ArrChunks, idx)]
   ++ (if idx + 1 <? len
       then (ArrMetadatas, idx + 1)
            :: (if neighbor_ok c m n (idx + 1) 1
                then [(ArrChunks, idx + 1)] else [])
       else []),
   Ok (join newline
         ((if bp then [chunk_at c (idx - 1)] else [])
          ++ [cur]
          ++ (if bn then [chunk_at c (idx + 1)] else [])))).
Proof.
  intros Hlen Hidx Hm Hn Hcur len bp bn.
  assert (Hlt : idx < len).
  { assert ((Z.to_nat idx < List.length (chunks c))%nat)
      by (apply nth_error_Some; congruence). lia. }
  unfold _merge_neighbors.
  rewrite (read_in_range ArrMetadatas _ idx m Hidx Hm).
  rewrite (read_in_range ArrChunks _ idx cur Hidx Hcur).
  rewrite Z.geb_leb.
  cbn [bind]. cbv zeta.
  rewrite (neighbor_block c m n (idx - 1) (-1) (0 <=? idx - 1) [] Hlen Hn)
    by (intros H; apply Z.leb_le in H; lia).
  cbn [bind].
  rewrite (neighbor_block c m n (idx + 1) 1
             (idx + 1 <? Z.of_nat (List.length (chunks c))) _ Hlen Hn)
    by (intros H; apply Z.ltb_lt in H; lia).
  cbn [bind ret]. subst bp bn len. simpl app.
  rewrite app_nil_r, <- !app_assoc. reflexivity.
Qed.

Lemma side_guard (c : CorpusIndex) (m : Meta) (n j delta : Z) (guard : bool) :
  (guard = true <-> 0 <= j < Z.of_nat (List.length (chunks c))) ->
  ((guard && neighbor_ok c m n j delta)%bool = true <->
   meta_at c j (source_file m) (n + delta)).
Proof.
  intros Hg. rewrite andb_true_iff. split.
  - intros [G H]. apply neighbor_ok_meta_at; [apply Hg; exact G | exact H].
  - intros H. pose proof H as [Hj _]. split; [apply Hg; exact Hj |].
    apply neighbor_ok_meta_at; assumption.
Qed.

Lemma side_parts (c : CorpusIndex) (j : Z) (b : bool) (P : Prop) :
  (b = true <-> P) ->
  (P -> 0 <= j < Z.of_nat (List.length (chunks c))) ->
  let part := if b then [chunk_at c j] else [] in
  ((exists t, text_at c j t /\ part = [t]) <-> P) /\ (part = [] <-> ~ P).
Proof.
  intros Hb Hr part. subst part. destruct b.
  - assert (HP : P) by (apply Hb; reflexivity). split; split.
    + intros _. exact HP.
    + intros _. destruct (nth_error_in_range (chunks c) j (Hr HP)) as [t Ht].
      exists t. unfold text_at, chunk_at.
      rewrite (nth_error_nth _ _ _ Ht). split; [split |]; auto.
      apply (Hr HP).
    + discriminate.
    + intros H. contradiction.
  - assert (HP : ~ P) by (intros H; apply Hb in H; discriminate).
    split; split.
    + intros (t & _ & H). discriminate.
    + intros H. contradiction.
    + intros _. exact HP.
    + reflexivity.
Qed.

Lemma join_single (sep t : string) : join sep [t] = t.
Proof. reflexivity. Qed.

(** C2. At every in-range position [idx] of an aligned corpus whose
    metadata carries a sequence index, [_merge_neighbors] returns the
    newline-join of [pre ++ [cur] ++ post], where [pre] holds the text at
    [idx - 1] if and only if the metadata there names the same source
    file with sequence index one less, [post] holds the text at [idx + 1]
    if and only if the metadata there names the same source file with
    sequence index one more, and the result is the chunk's own text when
    neither side qualifies.  With three chunks of one document numbered
    0, 1, 2 and the hit at position 1 the result is
    chunk0 + newline + chunk1 + newline + chunk2. *)
Theorem merge_neighbors_adjacency :
  (forall (c : CorpusIndex) (idx : Z) (m : Meta) (n : Z) (cur : string),
     List.length (metadatas c) = List.length (chunks c) ->
     0 <= idx ->
     nth_error (metadatas c) (Z.to_nat idx) = Some m ->
     chunk_id m = Some n ->
     nth_error (chunks c) (Z.to_nat idx) = Some cur ->
     exists pre post : list string,
       result (_merge_neighbors c idx)
       = Ok (join newline (pre ++ [cur] ++ post)) /\
       ((exists t, text_at c (idx - 1) t /\ pre = [t]) <->
        meta_at c (idx - 1) (source_file m) (n - 1)) /\
       (pre = [] <-> ~ meta_at c (idx - 1) (source_file m) (n - 1)) /\
       ((exists t, text_at c (idx + 1) t /\ post = [t]) <->
        meta_at c (idx + 1) (source_file m) (n + 1)) /\
       (post = [] <-> ~ meta_at c (idx + 1) (source_file m) (n + 1)) /\
       (~ meta_at c (idx - 1) (source_file m) (n - 1) ->
        ~ meta_at c (idx + 1) (source_file m) (n + 1) ->
        result (_merge_neighbors c idx) = Ok cur))
  /\
  (forall (nm : string) (ix : Embedding -> Z -> Res (list (Dist * Z)))
          (doc : option string) (chunk0 chunk1 chunk2 : string),
     result (_merge_neighbors
               {| name := nm; index := ix;
                  chunks := [chunk0; chunk1; chunk2];
                  metadatas :=
                    [ {| source_file := doc; chunk_id := Some 0 |};
                      {| source_file := doc; chunk_id := Some 1 |};
                      {| source_file := doc; chunk_id := Some 2 |} ] |} 1)
     = Ok (chunk0 ++ newline ++ chunk1 ++ newline ++ chunk2)%string).
Proof.
  split.
  - intros c idx m n cur Hlen Hidx Hm Hn Hcur.
    pose proof (merge_neighbors_run c idx m n cur Hlen Hidx Hm Hn Hcur) as Hrun.
    cbv zeta in Hrun.
    assert (Hlt : idx < Z.of_nat (List.length (chunks c))).
    { assert ((Z.to_nat idx < List.length (chunks c))%nat)
        by (apply nth_error_Some; congruence). lia. }
    pose proof (side_guard c m n (idx - 1) (-1) (0 <=? idx - 1)) as Hp.
    replace (n + -1) with (n - 1) in Hp by lia.
    assert (Hp' := Hp ltac:(rewrite Z.leb_le; lia)). clear Hp.
    pose proof (side_guard c m n (idx + 1) 1
                  (idx + 1 <? Z.of_nat (List.length (chunks c)))) as Hq.
    assert (Hq' := Hq ltac:(rewrite Z.ltb_lt; lia)). clear Hq.
    pose proof (side_parts c (idx - 1) _ _ Hp' ltac:(intros [H _]; exact H))
      as [Hp1 Hp2].
    pose proof (side_parts c (idx + 1) _ _ Hq' ltac:(intros [H _]; exact H))
      as [Hq1 Hq2].
    eexists _, _. split; [rewrite Hrun; reflexivity |].
    split; [exact Hp1 |]. split; [exact Hp2 |].
    split; [exact Hq1 |]. split; [exact Hq2 |].
    intros Np Nq. rewrite Hrun. simpl result.
    apply Hp2 in Np. apply Hq2 in Nq. rewrite Np, Nq. reflexivity.
  - intros nm ix doc chunk0 chunk1 chunk2.
    assert (Hsame : option_string_eqb doc doc = true)
      by (apply option_string_eqb_eq; reflexivity).
    unfold _merge_neighbors, read, getitem, neighbor_matches. simpl.
    rewrite Hsame. reflexivity.
Qed.

Lemma string_app_assoc (a b c : string) :
  ((a ++ b) ++ c = a ++ (b ++ c))%string.
Proof. induction a as [| x a IH]; simpl; [| rewrite IH]; reflexivity. Qed.

Lemma string_app_nil_r (a : string) : (a ++ "" = a)%string.
Proof. induction a as [| x a IH]; simpl; [| rewrite IH]; reflexivity. Qed.

Lemma join_two (sep a b : string) :
  join sep [a; b] = (a ++ sep ++ b)%string.
Proof. reflexivity. Qed.

Lemma join_three (sep a b c : string) :
  join sep [a; b; c] = (a ++ sep ++ b ++ sep ++ c)%string.
Proof. reflexivity. Qed.

(** The reads of one run of the repair stay on the three positions
    around [idx], inside the arrays. *)
Lemma merge_neighbors_reads (c : CorpusIndex) (idx : Z) (m : Meta) (n : Z) :
  List.length (metadatas c) = List.length (chunks c) ->
  0 <= idx < Z.of_nat (List.length (chunks c)) ->
  nth_error (metadatas c) (Z.to_nat idx) = Some m ->
  chunk_id m = Some n ->
  forall (arr : Arr) (p : Z),
    In (arr, p) (reads (_merge_neighbors c idx)) ->
    0 <= p < Z.of_nat (List.length (chunks c)) /\
    (p = idx - 1 \/ p = idx \/ p = idx + 1).
Proof.
  intros Hlen Hidx Hm Hn arr p Hin.
  destruct (nth_error_in_range (chunks c) idx Hidx) as [cur Hcur].
  rewrite (merge_neighbors_run c idx m n cur Hlen (proj1 Hidx) Hm Hn Hcur)
    in Hin.
  cbv zeta in Hin. unfold reads in Hin. cbn [fst] in Hin.
  destruct (0 <=? idx - 1) eqn:Ep;
    destruct (idx + 1 <? Z.of_nat (List.length (chunks c))) eqn:En;
    destruct (neighbor_ok c m n (idx - 1) (-1));
    destruct (neighbor_ok c m n (idx + 1) 1);
    simpl in Hin;
    try apply Z.leb_le in Ep; try apply Z.ltb_lt in En;
    repeat (destruct Hin as [Hin | Hin];
            [injection Hin as _ <-; lia |]);
    contradiction.
Qed.

Lemma text_at_chunk_at (c : CorpusIndex) (j : Z) :
  0 <= j < Z.of_nat (List.length (chunks c)) ->
  text_at c j (chunk_at c j).
Proof.
  intros Hj. destruct (nth_error_in_range (chunks c) j Hj) as [t Ht].
  unfold text_at, chunk_at. rewrite (nth_error_nth _ _ _ Ht).
  split; [apply Hj | exact Ht].
Qed.

Lemma merge_neighbors_shape (c : CorpusIndex) (idx : Z) (m : Meta) (n : Z)
    (cur : string) :
  List.length (metadatas c) = List.length (chunks c) ->
  0 <= idx ->
  nth_error (metadatas c) (Z.to_nat idx) = Some m ->
  chunk_id m = Some n ->
  nth_error (chunks c) (Z.to_nat idx) = Some cur ->
  exists merged,
    result (_merge_neighbors c idx) = Ok merged /\
    (exists pre post, merged = join newline (pre ++ [cur] ++ post)) /\
    substring_of cur merged /\
    merged_shape c idx cur merged.
Proof.
  intros Hlen Hidx Hm Hn Hcur.
  rewrite (merge_neighbors_run c idx m n cur Hlen Hidx Hm Hn Hcur).
  cbv zeta. eexists. split; [reflexivity |]. split; [eauto |].
  assert (Hlt : idx < Z.of_nat (List.length (chunks c))).
  { assert ((Z.to_nat idx < List.length (chunks c))%nat)
      by (apply nth_error_Some; congruence). lia. }
  unfold merged_shape, substring_of.
  destruct (0 <=? idx - 1) eqn:Ep;
    destruct (idx + 1 <? Z.of_nat (List.length (chunks c))) eqn:En;
    destruct (neighbor_ok c m n (idx - 1) (-1));
    destruct (neighbor_ok c m n (idx + 1) 1);
    cbn [andb app];
    try apply Z.leb_le in Ep; try apply Z.ltb_lt in En;
    rewrite ?join_single, ?join_two, ?join_three.
  all: try (split; [exists "", ""; simpl; rewrite string_app_nil_r;
                    reflexivity | left; reflexivity]).
  all: try (split;
            [exists (chunk_at c (idx - 1) ++ newline)%string,
                    (newline ++ chunk_at c (idx + 1))%string;
             rewrite !string_app_assoc; reflexivity
            | right; right; right;
              exists (chunk_at c (idx - 1)), (chunk_at c (idx + 1));
              split; [apply text_at_chunk_at; lia |];
              split; [apply text_at_chunk_at; lia | reflexivity] ]).
  all: try (split;
            [exists (chunk_at c (idx - 1) ++ newline)%string, "";
             rewrite string_app_nil_r, !string_app_assoc; reflexivity
            | right; left; exists (chunk_at c (idx - 1));
              split; [apply text_at_chunk_at; lia | reflexivity] ]).
  all: try (split;
            [exists "", (newline ++ chunk_at c (idx + 1))%string;
             reflexivity
            | right; right; left; exists (chunk_at c (idx + 1));
              split; [apply text_at_chunk_at; lia | reflexivity] ]).
Qed.

(** *** Per-corpus search *)

Lemma corpus_wf_meta (c : CorpusIndex) (idx : Z) :
  corpus_wf c ->
  0 <= idx < Z.of_nat (List.length (chunks c)) ->
  exists m n cur,
    nth_error (metadatas c) (Z.to_nat idx) = Some m /\
    chunk_id m = Some n /\
    nth_error (chunks c) (Z.to_nat idx) = Some cur.
Proof.
  intros [Hlen Hall] Hidx.
  destruct (nth_error_in_range (metadatas c) idx) as [m Hm];
    [rewrite Hlen; exact Hidx |].
  destruct (nth_error_in_range (chunks c) idx Hidx) as [cur Hcur].
  rewrite Forall_forall in Hall.
  specialize (Hall m (nth_error_In _ _ Hm)).
  destruct (chunk_id m) as [n |] eqn:En; [| contradiction].
  exists m, n, cur. auto.
Qed.

Lemma search_hits_sentinel (c : CorpusIndex) (dist : Dist)
    (rest : list (Dist * Z)) :
  search_hits c ((dist, -1) :: rest) = search_hits c rest.
Proof. reflexivity. Qed.

Lemma search_hits_valid (c : CorpusIndex) (dist : Dist) (idx : Z)
    (rest : list (Dist * Z)) (m : Meta) (n : Z) :
  List.length (metadatas c) = List.length (chunks c) ->
  0 <= idx < Z.of_nat (List.length (chunks c)) ->
  nth_error (metadatas c) (Z.to_nat idx) = Some m ->
  chunk_id m = Some n ->
  exists r,
    hit_doc c (dist, idx) r /\
    search_hits c ((dist, idx) :: rest)
    = ((ArrMetadatas, idx) :: (ArrChunks, idx)
         :: reads (_merge_neighbors c idx) ++ reads (search_hits c rest),
       match result (search_hits c rest) with
       | Ok rs => Ok (r :: rs)
       | Raise e => Raise e
       end).
Proof.
  intros Hlen Hidx Hm Hn.
  destruct (nth_error_in_range (chunks c) idx Hidx) as [cur Hcur].
  destruct (merge_neighbors_shape c idx m n cur Hlen (proj1 Hidx) Hm Hn Hcur)
    as (merged & Hres & _ & Hsub & Hshape).
  eexists. split; cycle 1.
  - cbn [search_hits].
    replace (idx =? -1) with false by (symmetry; apply Z.eqb_neq; lia).
    rewrite (read_in_range ArrMetadatas _ idx m (proj1 Hidx) Hm).
    rewrite (read_in_range ArrChunks _ idx cur (proj1 Hidx) Hcur).
    cbn [bind].
    destruct (_merge_neighbors c idx) as [lm rm] eqn:Em.
    unfold result in Hres. cbn [snd] in Hres. subst rm.
    cbn [bind reads fst].
    destruct (search_hits c rest) as [lr [rs | e]]; cbn [bind ret result snd fst];
      rewrite ?app_nil_r; reflexivity.
  - unfold hit_doc. cbn [score bank raw_chunk merged_text document_name
                         doc_chunk_id fst snd].
    split; [reflexivity |]. split; [reflexivity |].
    split; [split; [apply Hidx | exact Hcur] |].
    split; [exists m; auto |].
    split; [exact Hres |]. split; [exact Hsub | exact Hshape].
Qed.

Lemma search_hits_spec (c : CorpusIndex) (hits : list (Dist * Z)) :
  corpus_wf c ->
  Forall (hit_in_range c) hits ->
  exists docs,
    result (search_hits c hits) = Ok docs /\
    Forall2 (hit_doc c) (valid_hits hits) docs /\
    reads_local c hits (reads (search_hits c hits)).
Proof.
  intros Hwf Hall. induction Hall as [| [dist idx] rest Hh Hrest IH].
  - exists []. split; [reflexivity |]. split; [constructor |].
    intros arr p [].
  - destruct IH as (docs & Hres & Hdocs & Hreads).
    destruct Hh as [Hs | Hv]; cbn [snd] in *.
    + subst idx. rewrite search_hits_sentinel.
      exists docs. split; [exact Hres |]. split; [exact Hdocs |].
      exact Hreads.
    + destruct (corpus_wf_meta c idx Hwf Hv) as (m & n & cur & Hm & Hn & _).
      destruct (search_hits_valid c dist idx rest m n (proj1 Hwf) Hv Hm Hn)
        as (r & Hr & Heq).
      rewrite Heq. cbn [result snd reads fst]. rewrite Hres.
      assert (Hkeep : valid_hits ((dist, idx) :: rest)
                      = (dist, idx) :: valid_hits rest).
      { unfold valid_hits, is_sentinel. cbn [filter snd].
        replace (idx =? -1) with false by (symmetry; apply Z.eqb_neq; lia).
        reflexivity. }
      exists (r :: docs). split; [reflexivity |].
      split; [rewrite Hkeep; constructor; assumption |].
      intros arr p Hin. rewrite Hkeep.
      assert (Hhere : forall q,
                 q = idx - 1 \/ q = idx \/ q = idx + 1 ->
                 exists h, In h ((dist, idx) :: valid_hits rest) /\
                           (q = snd h - 1 \/ q = snd h \/ q = snd h + 1)).
      { intros q Hq. exists (dist, idx). split; [left; reflexivity | exact Hq]. }
      destruct Hin as [Hin | [Hin | Hin]].
      * injection Hin as _ <-. split; [exact Hv | apply Hhere; auto].
      * injection Hin as _ <-. split; [exact Hv | apply Hhere; auto].
      * apply in_app_or in Hin as [Hin | Hin].
        -- destruct (merge_neighbors_reads c idx m n (proj1 Hwf) Hv Hm Hn
                       arr p Hin) as [Hp Hnear].
           split; [exact Hp | apply Hhere; exact Hnear].
        -- destruct (Hreads arr p Hin) as [Hp (h & Hh & Hnear)].
           split; [exact Hp |]. exists h. split; [right; exact Hh | exact Hnear].
Qed.

Lemma search_hits_length (c : CorpusIndex) (hits : list (Dist * Z)) :
  forall docs,
    result (search_hits c hits) = Ok docs ->
    (List.length docs <= List.length hits)%nat.
Proof.
  induction hits as [| [dist idx] rest IH]; intros docs Hres.
  - injection Hres as <-. apply Nat.le_refl.
  - cbn [search_hits] in Hres. destruct (idx =? -1).
    + specialize (IH docs Hres). simpl. lia.
    + rewrite !result_bind in Hres.
      destruct (result (read ArrMetadatas (metadatas c) idx));
        [| discriminate].
      rewrite !result_bind in Hres.
      destruct (result (read ArrChunks (chunks c) idx)); [| discriminate].
      rewrite !result_bind in Hres.
      destruct (result (_merge_neighbors c idx)); [| discriminate].
      rewrite !result_bind in Hres.
      destruct (result (search_hits c rest)) as [rs | e]; [| discriminate].
      injection Hres as <-. specialize (IH rs eq_refl). simpl. lia.
Qed.

Lemma faiss_contract_valid_hits (ntotal : nat) (k : Z)
    (hits : list (Dist * Z)) :
  faiss_search_contract ntotal k hits ->
  valid_hits hits = firstn (Nat.min (Z.to_nat k) ntotal) hits.
Proof.
  intros (_ & Hin & Hout).
  rewrite <- (firstn_skipn (Nat.min (Z.to_nat k) ntotal) hits) at 1.
  unfold valid_hits. rewrite filter_app.
  assert (H1 : forall l : list (Dist * Z),
             Forall (fun h => 0 <= snd h < Z.of_nat ntotal) l ->
             filter (fun h => negb (is_sentinel h)) l = l).
  { induction 1 as [| h l Hh _ IH]; [reflexivity |].
    cbn [filter]. unfold is_sentinel at 1.
    replace (snd h =? -1) with false by (symmetry; apply Z.eqb_neq; lia).
    cbn [negb]. rewrite IH. reflexivity. }
  assert (H2 : forall l : list (Dist * Z),
             Forall (fun h => snd h = -1) l ->
             filter (fun h => negb (is_sentinel h)) l = []).
  { induction 1 as [| h l Hh _ IH]; [reflexivity |].
    cbn [filter]. unfold is_sentinel at 1. rewrite Hh. exact IH. }
  rewrite (H1 _ Hin), (H2 _ Hout), app_nil_r. reflexivity.
Qed.

Lemma faiss_contract_in_range (c : CorpusIndex) (k : Z)
    (hits : list (Dist * Z)) :
  faiss_search_contract (List.length (chunks c)) k hits ->
  Forall (hit_in_range c) hits.
Proof.
  intros (_ & Hin & Hout).
  rewrite <- (firstn_skipn (Nat.min (Z.to_nat k) (List.length (chunks c))) hits).
  apply Forall_app. split.
  - eapply Forall_impl; [| exact Hin]. intros h Hh. right. exact Hh.
  - eapply Forall_impl; [| exact Hout]. intros h Hh. left. exact Hh.
Qed.

Lemma search_single_corpus_run (c : CorpusIndex) (q : Embedding) (k : Z)
    (hits : list (Dist * Z)) :
  index c q k = Ok hits ->
  _search_single_corpus c q k = search_hits c hits.
Proof.
  intros H. unfold _search_single_corpus, lift. rewrite H. cbn [bind].
  destruct (search_hits c hits). reflexivity.
Qed.

(** C5. When the index returns [k] pairs for a search with budget [k],
    [_search_single_corpus] returns at most [k] records; on a well-formed
    corpus it returns exactly one record per pair whose id is not the
    sentinel -1, in order, and none for a sentinel; and when the pairs
    follow the FAISS contract it returns [min(k, n)] records for a corpus
    of [n] vectors, hence all [n] of them, without raising, as soon as
    [k >= n]. *)
Theorem search_single_corpus_budget (c : CorpusIndex) (q : Embedding)
    (k : Z) (hits : list (Dist * Z)) :
  index c q k = Ok hits ->
  Z.of_nat (List.length hits) = k ->
  (forall docs,
     result (_search_single_corpus c q k) = Ok docs ->
     Z.of_nat (List.length docs) <= k) /\
  (corpus_wf c -> Forall (hit_in_range c) hits ->
   exists docs,
     result (_search_single_corpus c q k) = Ok docs /\
     Forall2 (hit_doc c) (valid_hits hits) docs /\
     List.length docs = List.length (valid_hits hits)) /\
  (corpus_wf c -> faiss_search_contract (List.length (chunks c)) k hits ->
   exists docs,
     result (_search_single_corpus c q k) = Ok docs /\
     Forall2 (hit_doc c)
       (firstn (Nat.min (Z.to_nat k) (List.length (chunks c))) hits) docs /\
     List.length docs = Nat.min (Z.to_nat k) (List.length (chunks c)) /\
     (Z.of_nat (List.length (chunks c)) <= k ->
      List.length docs = List.length (chunks c))).
Proof.
  intros Hix Hk. rewrite (search_single_corpus_run c q k hits Hix).
  split; [| split].
  - intros docs Hres. apply search_hits_length in Hres. lia.
  - intros Hwf Hall.
    destruct (search_hits_spec c hits Hwf Hall) as (docs & Hres & Hdocs & _).
    exists docs. split; [exact Hres |]. split; [exact Hdocs |].
    symmetry. eapply Forall2_length. exact Hdocs.
  - intros Hwf Hc.
    destruct (search_hits_spec c hits Hwf (faiss_contract_in_range c k hits Hc))
      as (docs & Hres & Hdocs & _).
    rewrite (faiss_contract_valid_hits _ k hits Hc) in Hdocs.
    exists docs. split; [exact Hres |]. split; [exact Hdocs |].
    assert (Hlen : List.length docs
                   = Nat.min (Z.to_nat k) (List.length (chunks c))).
    { rewrite <- (Forall2_length Hdocs), length_firstn. lia. }
    split; [exact Hlen | intros Hge; lia].
Qed.

(** C10. At an in-range position [idx] of an aligned corpus, every read
    of neighbour repair is inside the arrays and at one of the positions
    [idx - 1], [idx], [idx + 1]; the repaired text is a newline-join that
    has the chunk's own text among its components, so the own text is a
    substring of it, and it has one of four shapes: the own text alone,
    preceding + own, own + following, preceding + own + following.  The
    record built for a hit at [idx] carries this own text as [raw_chunk]
    and this repaired text as [merged_text]. *)
Theorem neighbor_repair_in_bounds (c : CorpusIndex) (idx : Z) (m : Meta)
    (n : Z) :
  List.length (metadatas c) = List.length (chunks c) ->
  0 <= idx < Z.of_nat (List.length (chunks c)) ->
  nth_error (metadatas c) (Z.to_nat idx) = Some m ->
  chunk_id m = Some n ->
  (forall (arr : Arr) (p : Z),
     In (arr, p) (reads (_merge_neighbors c idx)) ->
     0 <= p < Z.of_nat (List.length (chunks c)) /\
     (p = idx - 1 \/ p = idx \/ p = idx + 1)) /\
  (exists cur merged,
     text_at c idx cur /\
     result (_merge_neighbors c idx) = Ok merged /\
     (exists pre post, merged = join newline (pre ++ [cur] ++ post)) /\
     substring_of cur merged /\
     merged_shape c idx cur merged) /\
  (forall (dist : Dist) (rest : list (Dist * Z)),
   exists r,
     result (search_hits c ((dist, idx) :: rest))
     = match result (search_hits c rest) with
       | Ok rs => Ok (r :: rs)
       | Raise e => Raise e
       end /\
     text_at c idx (raw_chunk r) /\
     result (_merge_neighbors c idx) = Ok (merged_text r) /\
     substring_of (raw_chunk r) (merged_text r) /\
     merged_shape c idx (raw_chunk r) (merged_text r)).
Proof.
  intros Hlen Hidx Hm Hn. split; [| split].
  - apply (merge_neighbors_reads c idx m n Hlen Hidx Hm Hn).
  - destruct (nth_error_in_range (chunks c) idx Hidx) as [cur Hcur].
    destruct (merge_neighbors_shape c idx m n cur Hlen (proj1 Hidx) Hm Hn Hcur)
      as (merged & Hres & Hparts & Hsub & Hshape).
    exists cur, merged. split; [split; [apply Hidx | exact Hcur] |]. auto.
  - intros dist rest.
    destruct (search_hits_valid c dist idx rest m n Hlen Hidx Hm Hn)
      as (r & Hr & Heq).
    exists r. rewrite Heq. cbn [result snd].
    destruct Hr as (_ & _ & Hraw & _ & Hres & Hsub & Hshape).
    cbn [snd] in *. auto.
Qed.

Lemma search_hits_head_score (c : CorpusIndex) (dist : Dist) (idx : Z)
    (rest : list (Dist * Z)) (r : Doc) (rs : list Doc) :
  idx <> -1 ->
  result (search_hits c ((dist, idx) :: rest)) = Ok (r :: rs) ->
  score r = score_of_distance dist.
Proof.
  intros Hidx Hres. cbn [search_hits] in Hres.
  replace (idx =? -1) with false in Hres
    by (symmetry; apply Z.eqb_neq; exact Hidx).
  rewrite !result_bind in Hres.
  destruct (result (read ArrMetadatas (metadatas c) idx)); [| discriminate].
  rewrite !result_bind in Hres.
  destruct (result (read ArrChunks (chunks c) idx)); [| discriminate].
  rewrite !result_bind in Hres.
  destruct (result (_merge_neighbors c idx)); [| discriminate].
  rewrite !result_bind in Hres.
  destruct (result (search_hits c rest)); [| discriminate].
  injection Hres as <- _. reflexivity.
Qed.

(** *** Sorting and slicing *)

Lemma insert_desc_perm {A} (key : A -> Score) (x : A) (l : list A) :
  Permutation (x :: l) (insert_desc key x l).
Proof.
  induction l as [| y l IH]; simpl; [apply Permutation_refl |].
  destruct (score_ltb (key x) (key y)); [| apply Permutation_refl].
  eapply perm_trans; [apply perm_swap |]. apply perm_skip. exact IH.
Qed.

Lemma sort_desc_perm {A} (key : A -> Score) (l : list A) :
  Permutation l (sort_desc key l).
Proof.
  induction l as [| x l IH]; simpl; [constructor |].
  eapply perm_trans; [| apply insert_desc_perm]. apply perm_skip. exact IH.
Qed.

Lemma sort_desc_in {A} (key : A -> Score) (l : list A) (x : A) :
  In x (sort_desc key l) <-> In x l.
Proof.
  split; apply Permutation_in;
    [apply Permutation_sym |]; apply sort_desc_perm.
Qed.

Lemma insert_desc_sorted {A} (key : A -> Score) (x : A) (l : list A) :
  ltb_asym -> ltb_negtrans ->
  StronglySorted (desc key) l ->
  StronglySorted (desc key) (insert_desc key x l).
Proof.
  intros Hasym Hneg Hs. induction Hs as [| y l Hs IH Hy]; simpl.
  - constructor; constructor.
  - destruct (score_ltb (key x) (key y)) eqn:E.
    + constructor; [exact IH |].
      apply Forall_forall. intros z Hz.
      apply (Permutation_in _ (Permutation_sym (insert_desc_perm key x l)))
        in Hz.
      destruct Hz as [<- | Hz]; [apply Hasym; exact E |].
      rewrite Forall_forall in Hy. apply Hy; exact Hz.
    + constructor; [constructor; assumption |].
      constructor; [exact E |].
      rewrite Forall_forall in *. intros z Hz.
      apply (Hneg _ (key y)); [exact E | apply Hy; exact Hz].
Qed.

Lemma sort_desc_sorted {A} (key : A -> Score) (l : list A) :
  ltb_asym -> ltb_negtrans -> StronglySorted (desc key) (sort_desc key l).
Proof.
  intros Hasym Hneg. induction l as [| x l IH]; simpl.
  - constructor.
  - apply insert_desc_sorted; assumption.
Qed.

Lemma slice_to_nil {A} (k : Z) : slice_to (@nil A) k = [].
Proof. unfold slice_to. destruct (k <? 0); apply firstn_nil. Qed.

Lemma slice_to_firstn {A} (l : list A) (k : Z) :
  exists n, slice_to l k = firstn n l.
Proof. unfold slice_to. destruct (k <? 0); eauto. Qed.

Lemma slice_to_incl {A} (l : list A) (k : Z) (x : A) :
  In x (slice_to l k) -> In x l.
Proof.
  destruct (slice_to_firstn l k) as [n ->].
  rewrite <- (firstn_skipn n l) at 2. intros H. apply in_or_app. left. exact H.
Qed.

Lemma slice_to_nonneg {A} (l : list A) (k : Z) :
  0 <= k -> slice_to l k = firstn (Z.to_nat k) l.
Proof.
  intros Hk. unfold slice_to.
  replace (k <? 0) with false by (symmetry; apply Z.ltb_ge; exact Hk).
  reflexivity.
Qed.

(** *** Which corpus a record comes from *)

Lemma search_hits_bank (c : CorpusIndex) (hits : list (Dist * Z)) :
  forall docs,
    result (search_hits c hits) = Ok docs ->
    Forall (fun r => bank r = name c) docs.
Proof.
  induction hits as [| [dist idx] rest IH]; intros docs Hres.
  - injection Hres as <-. constructor.
  - cbn [search_hits] in Hres. destruct (idx =? -1).
    + apply IH. exact Hres.
    + rewrite !result_bind in Hres.
      destruct (result (read ArrMetadatas (metadatas c) idx));
        [| discriminate].
      rewrite !result_bind in Hres.
      destruct (result (read ArrChunks (chunks c) idx)); [| discriminate].
      rewrite !result_bind in Hres.
      destruct (result (_merge_neighbors c idx)); [| discriminate].
      rewrite !result_bind in Hres.
      destruct (result (search_hits c rest)) as [rs | e]; [| discriminate].
      injection Hres as <-. constructor; [reflexivity | apply IH; reflexivity].
Qed.

Lemma search_single_corpus_bank (c : CorpusIndex) (q : Embedding) (k : Z)
    (docs : list Doc) :
  result (_search_single_corpus c q k) = Ok docs ->
  Forall (fun r => bank r = name c) docs.
Proof.
  unfold _search_single_corpus. rewrite result_bind, result_lift.
  destruct (index c q k) as [hits | e]; [| discriminate].
  apply search_hits_bank.
Qed.

Lemma search_all_bank (cs : list CorpusIndex) (q : Embedding) (k : Z) :
  forall docs,
    result (search_all cs q k) = Ok docs ->
    Forall (fun r => exists c, In c cs /\ bank r = name c) docs.
Proof.
  induction cs as [| c cs IH]; intros docs Hres.
  - injection Hres as <-. constructor.
  - cbn [search_all] in Hres. rewrite !result_bind in Hres.
    destruct (result (_search_single_corpus c q k)) as [d1 |] eqn:E1;
      [| discriminate].
    rewrite !result_bind in Hres.
    destruct (result (search_all cs q k)) as [d2 |] eqn:E2; [| discriminate].
    injection Hres as <-. apply Forall_app. split.
    + eapply Forall_impl; [| apply (search_single_corpus_bank c q k d1 E1)].
      intros r Hr. exists c. split; [left; reflexivity | exact Hr].
    + eapply Forall_impl; [| apply (IH d2 eq_refl)].
      intros r (c' & Hc' & Hr). exists c'. split; [right; exact Hc' | exact Hr].
Qed.

(** *** Corpus selection *)

Lemma retrieve_hinted (corpora : list CorpusIndex) (question : string)
    (bank : option string) (k : option Z) :
  truthy bank = true ->
  result (retrieve corpora question bank k) =
  match result (search_all (corpora_to_search corpora bank)
                  (_encode_query question) (top_k_or_default k)) with
  | Ok all =>
      Ok (slice_to (sort_desc score all)
            (top_k_or_default k
             * Z.of_nat (List.length (corpora_to_search corpora bank))))
  | Raise e => Raise e
  end.
Proof.
  intros Hb. unfold retrieve. cbv zeta. rewrite result_bind, Hb.
  destruct (result (search_all _ _ _)); reflexivity.
Qed.

Lemma corpora_to_search_hinted (corpora : list CorpusIndex) (h : string) :
  h <> "" ->
  corpora_to_search corpora (Some h)
  = option_list (find_bank corpora (lower h))
    ++ option_list (corpora_get corpora "common").
Proof.
  intros Hh. unfold corpora_to_search, truthy.
  destruct (h =? "")%string eqn:E; [apply String.eqb_eq in E; contradiction |].
  reflexivity.
Qed.

Lemma truthy_some (h : string) : h <> "" -> truthy (Some h) = true.
Proof.
  intros Hh. unfold truthy.
  destruct (h =? "")%string eqn:E; [apply String.eqb_eq in E; contradiction |].
  reflexivity.
Qed.

Lemma find_bank_none (corpora : list CorpusIndex) (key : string) :
  (forall c, In c corpora -> lower (name c) <> key) ->
  find_bank corpora key = None.
Proof.
  intros H. unfold find_bank.
  destruct (find _ corpora) as [c |] eqn:E; [| reflexivity].
  apply find_some in E as [Hin Heq]. apply String.eqb_eq in Heq.
  exfalso. exact (H c Hin Heq).
Qed.

Lemma corpora_get_name (corpora : list CorpusIndex) (key : string)
    (c : CorpusIndex) :
  corpora_get corpora key = Some c -> In c corpora /\ name c = key.
Proof.
  intros H. apply find_some in H as [Hin Heq].
  apply String.eqb_eq in Heq. auto.
Qed.

Lemma search_all_single (c : CorpusIndex) (q : Embedding) (k : Z) :
  result (search_all [c] q k) = result (_search_single_corpus c q k).
Proof.
  cbn [search_all]. rewrite result_bind.
  destruct (result (_search_single_corpus c q k)) as [docs |]; [| reflexivity].
  cbn [bind ret result snd]. rewrite app_nil_r. reflexivity.
Qed.

(** C8. When corpus selection yields no corpus, and in particular on an
    empty registry (the load of an empty storage root), [retrieve]
    returns the empty list for every question, hint and [k], without
    raising and without reading any corpus array. *)
Theorem retrieve_no_corpora :
  (forall (corpora : list CorpusIndex) (question : string)
          (bank : option string) (k : option Z),
     corpora_to_search corpora bank = [] ->
     retrieve corpora question bank k = ([], Ok []))
  /\ (forall (corpora : list CorpusIndex) (bank : option string),
        corpora_get corpora "common" = None ->
        (truthy bank = true ->
         forall c, In c corpora ->
                   lower (name c)
                   <> lower (match bank with Some b => b | None => "" end)) ->
        (truthy bank = false -> available_banks corpora = []) ->
        corpora_to_search corpora bank = [])
  /\ (forall (corpora : list CorpusIndex) (question : string)
             (bank : option string) (k : option Z),
        _load_all_corpora (Some []) = Ok corpora ->
        retrieve corpora question bank k = ([], Ok [])).
Proof.
  assert (H1 : forall corpora question bank k,
             corpora_to_search corpora bank = [] ->
             retrieve corpora question bank k = ([], Ok [])).
  { intros corpora question bank k Hcs. unfold retrieve. cbv zeta.
    rewrite Hcs. cbn [search_all bind ret sort_desc fold_right filter
                       bank_to_results fold_left bank_scores_of].
    destruct (truthy bank).
    - rewrite slice_to_nil. reflexivity.
    - cbn [sort_desc fold_right bind ret]. rewrite !slice_to_nil.
      reflexivity. }
  split; [exact H1 | split].
  - intros corpora bank Hcommon Hhint Hbanks. unfold corpora_to_search.
    rewrite Hcommon. destruct (truthy bank) eqn:Hb.
    + rewrite (find_bank_none corpora _ (Hhint eq_refl)). reflexivity.
    + specialize (Hbanks eq_refl). unfold available_banks in Hbanks.
      cbn [option_list app].
      induction corpora as [| c cs IH]; [reflexivity |].
      cbn [map filter] in *.
      destruct (is_common_name (name c)); cbn [negb] in *;
        [| discriminate].
      apply IH.
      * unfold corpora_get in *. cbn [find] in Hcommon.
        destruct (name c =? "common")%string; [discriminate | exact Hcommon].
      * intros HT. discriminate.
      * exact Hbanks.
  - intros corpora question bank k Hload. injection Hload as <-.
    apply H1. unfold corpora_to_search.
    destruct (truthy bank); reflexivity.
Qed.

(** C7. A non-empty hint that matches no corpus name (case folded)
    selects the shared corpus alone, or nothing when there is no shared
    corpus.  [retrieve] then returns the ranked records of the shared
    corpus (the empty list without one); it raises only if that one
    search raises, and every record it returns is a record of the shared
    corpus. *)
Theorem retrieve_unresolved_hint (corpora : list CorpusIndex)
    (question hint : string) (k : option Z) :
  hint <> "" ->
  (forall c, In c corpora -> lower (name c) <> lower hint) ->
  corpora_to_search corpora (Some hint)
  = option_list (corpora_get corpora "common")
  /\ (corpora_get corpora "common" = None ->
      result (retrieve corpora question (Some hint) k) = Ok [])
  /\ (forall common_corpus,
        corpora_get corpora "common" = Some common_corpus ->
        result (retrieve corpora question (Some hint) k) =
        match result (_search_single_corpus common_corpus
                        (_encode_query question) (top_k_or_default k)) with
        | Ok docs =>
            Ok (slice_to (sort_desc score docs) (top_k_or_default k * 1))
        | Raise e => Raise e
        end
        /\ forall docs r,
             result (retrieve corpora question (Some hint) k) = Ok docs ->
             In r docs -> bank r = "common").
Proof.
  intros Hh Hnone.
  assert (Hcs : corpora_to_search corpora (Some hint)
                = option_list (corpora_get corpora "common")).
  { rewrite (corpora_to_search_hinted corpora hint Hh).
    rewrite (find_bank_none corpora _ Hnone). reflexivity. }
  split; [exact Hcs |].
  pose proof (retrieve_hinted corpora question (Some hint) k (truthy_some hint Hh))
    as Hret.
  rewrite Hcs in Hret. split.
  - intros Hc. rewrite Hc in Hret. rewrite Hret. cbn [option_list search_all].
    cbn [ret result snd sort_desc fold_right]. rewrite slice_to_nil.
    reflexivity.
  - intros cc Hc. rewrite Hc in Hret. cbn [option_list] in Hret.
    rewrite search_all_single in Hret. cbn [List.length] in Hret.
    split; [exact Hret |].
    intros docs r Hres Hin. rewrite Hret in Hres.
    destruct (result (_search_single_corpus cc _ _)) as [found |] eqn:E;
      [| discriminate].
    injection Hres as <-.
    apply slice_to_incl, sort_desc_in in Hin.
    pose proof (search_single_corpus_bank cc _ _ found E) as Hb.
    rewrite Forall_forall in Hb. rewrite (Hb r Hin).
    apply (corpora_get_name corpora "common" cc Hc).
Qed.

(** C3. A non-empty hint whose case-folded form is the case-folded name
    of a scoped corpus selects exactly that corpus, followed by the
    shared corpus when there is one.  Every record [retrieve] returns
    then belongs to the hinted corpus or to the shared corpus, and none
    to any other scoped corpus.  [retrieve] is the search of exactly
    these corpora, in this order, followed by the ranking and the cut:
    it reads what these searches read and nothing else, it fails exactly
    when one of them fails, and otherwise it returns the records of the
    hinted corpus and of the shared corpus, ranked and cut to
    top_k_per_index records per searched corpus. *)
Theorem retrieve_hinted_scope (corpora : list CorpusIndex)
    (question hint : string) (k : option Z) (bank_corpus : CorpusIndex) :
  hint <> "" ->
  find_bank corpora (lower hint) = Some bank_corpus ->
  is_common_name (name bank_corpus) = false ->
  In bank_corpus corpora
  /\ lower (name bank_corpus) = lower hint
  /\ corpora_to_search corpora (Some hint)
     = bank_corpus :: option_list (corpora_get corpora "common")
  /\ (forall docs r,
        result (retrieve corpora question (Some hint) k) = Ok docs ->
        In r docs ->
        bank r = name bank_corpus
        \/ (bank r = "common" /\ corpora_get corpora "common" <> None))
  /\ (forall docs r other,
        result (retrieve corpora question (Some hint) k) = Ok docs ->
        In r docs ->
        In other corpora ->
        is_common_name (name other) = false ->
        name other <> name bank_corpus ->
        bank r <> name other)
  /\ retrieve corpora question (Some hint) k
     = (all_results <-
          search_all (bank_corpus :: option_list (corpora_get corpora "common"))
            (_encode_query question) (top_k_or_default k) ;;
        ret (slice_to (sort_desc score all_results)
               (top_k_or_default k
                * Z.of_nat
                    (List.length
                       (bank_corpus
                        :: option_list (corpora_get corpora "common"))))))
  /\ result (retrieve corpora question (Some hint) k)
     = match result (_search_single_corpus bank_corpus
                       (_encode_query question) (top_k_or_default k)) with
       | Raise e => Raise e
       | Ok bank_docs =>
           match corpora_get corpora "common" with
           | None =>
               Ok (slice_to (sort_desc score bank_docs)
                     (top_k_or_default k * 1))
           | Some common_corpus =>
               match result (_search_single_corpus common_corpus
                               (_encode_query question)
                               (top_k_or_default k)) with
               | Raise e => Raise e
               | Ok common_docs =>
                   Ok (slice_to (sort_desc score (bank_docs ++ common_docs))
                         (top_k_or_default k * 2))
               end
           end
       end.
Proof.
  intros Hh Hfind Hscoped.
  assert (Hcs : corpora_to_search corpora (Some hint)
                = bank_corpus :: option_list (corpora_get corpora "common")).
  { rewrite (corpora_to_search_hinted corpora hint Hh), Hfind. reflexivity. }
  assert (Hrun : retrieve corpora question (Some hint) k
     = (all_results <-
          search_all (bank_corpus :: option_list (corpora_get corpora "common"))
            (_encode_query question) (top_k_or_default k) ;;
        ret (slice_to (sort_desc score all_results)
               (top_k_or_default k
                * Z.of_nat
                    (List.length
                       (bank_corpus
                        :: option_list (corpora_get corpora "common"))))))).
  { unfold retrieve. cbv zeta.
    rewrite Hcs, (truthy_some hint Hh). reflexivity. }
  assert (Hval : result (retrieve corpora question (Some hint) k)
     = match result (_search_single_corpus bank_corpus
                       (_encode_query question) (top_k_or_default k)) with
       | Raise e => Raise e
       | Ok bank_docs =>
           match corpora_get corpora "common" with
           | None =>
               Ok (slice_to (sort_desc score bank_docs)
                     (top_k_or_default k * 1))
           | Some common_corpus =>
               match result (_search_single_corpus common_corpus
                               (_encode_query question)
                               (top_k_or_default k)) with
               | Raise e => Raise e
               | Ok common_docs =>
                   Ok (slice_to (sort_desc score (bank_docs ++ common_docs))
                         (top_k_or_default k * 2))
               end
           end
       end).
  { rewrite Hrun, result_bind. cbn [search_all]. rewrite result_bind.
    destruct (result (_search_single_corpus bank_corpus
                        (_encode_query question) (top_k_or_default k)))
      as [bank_docs | e]; [| reflexivity].
    destruct (corpora_get corpora "common") as [cc |];
      cbn [option_list search_all List.length].
    - rewrite !result_bind.
      destruct (result (_search_single_corpus cc (_encode_query question)
                          (top_k_or_default k)))
        as [common_docs | e]; [| reflexivity].
      cbn. rewrite app_nil_r. reflexivity.
    - cbn. rewrite app_nil_r. reflexivity. }
  assert (Hfrom : forall docs r,
             result (retrieve corpora question (Some hint) k) = Ok docs ->
             In r docs ->
             bank r = name bank_corpus
             \/ (bank r = "common" /\ corpora_get corpora "common" <> None)).
  { intros docs r Hres Hin.
    rewrite (retrieve_hinted corpora question (Some hint) k
               (truthy_some hint Hh)) in Hres.
    destruct (result (search_all _ _ _)) as [all |] eqn:E; [| discriminate].
    injection Hres as <-.
    apply slice_to_incl, sort_desc_in in Hin.
    pose proof (search_all_bank _ _ _ all E) as Hb.
    rewrite Forall_forall in Hb. destruct (Hb r Hin) as (c & Hc & Hr).
    rewrite Hcs in Hc. destruct Hc as [<- | Hc]; [left; exact Hr | right].
    destruct (corpora_get corpora "common") as [cc |] eqn:Ecc; [| contradiction].
    destruct Hc as [<- | []].
    rewrite Hr. split; [| discriminate].
    apply (corpora_get_name corpora "common" cc Ecc). }
  pose proof (find_some _ _ Hfind) as [Hin Hlow].
  apply String.eqb_eq in Hlow.
  split; [exact Hin |]. split; [exact Hlow |]. split; [exact Hcs |].
  split; [exact Hfrom |].
  split; [| split; [exact Hrun | exact Hval]].
  intros docs r other Hres Hr Hother Hsc Hne Heq.
  destruct (Hfrom docs r Hres Hr) as [Hb | [Hb _]].
  - apply Hne. congruence.
  - rewrite Hb in Heq. rewrite <- Heq in Hsc. discriminate.
Qed.

(** *** Grouping by bank *)

Lemma setdefault_lookup (d : list (string * list Doc)) (k b : string)
    (r : Doc) :
  group_lookup (setdefault_append d k r) b
  = if (k =? b)%string then group_lookup d b ++ [r] else group_lookup d b.
Proof.
  unfold group_lookup. induction d as [| [k' rs] d IH]; cbn [setdefault_append].
  - cbn [find fst snd]. destruct (k =? b)%string; reflexivity.
  - destruct (k' =? k)%string eqn:E.
    + apply String.eqb_eq in E. subst k'. cbn [find fst snd].
      destruct (k =? b)%string; reflexivity.
    + cbn [find fst snd]. destruct (k' =? b)%string eqn:E'.
      * apply String.eqb_eq in E'. subst k'.
        rewrite String.eqb_sym, E. reflexivity.
      * exact IH.
Qed.

Lemma setdefault_keys (d : list (string * list Doc)) (k : string) (r : Doc) :
  map fst (setdefault_append d k r)
  = map fst d
    ++ (if existsb (fun k' => (k' =? k)%string) (map fst d) then [] else [k]).
Proof.
  induction d as [| [k' rs] d IH]; cbn [setdefault_append map fst existsb].
  - reflexivity.
  - destruct (k' =? k)%string eqn:E; cbn [map fst orb app].
    + rewrite app_nil_r. reflexivity.
    + rewrite IH. reflexivity.
Qed.

Lemma existsb_eqb_in (k : string) (l : list string) :
  existsb (fun k' => (k' =? k)%string) l = true <-> In k l.
Proof.
  rewrite existsb_exists. split.
  - intros (x & Hx & E). apply String.eqb_eq in E. subst x. exact Hx.
  - intros H. exists k. split; [exact H | apply String.eqb_refl].
Qed.

Lemma bank_to_results_fold (l : list Doc) :
  forall d,
    let d' := fold_left (fun d r => setdefault_append d (bank r) r) l d in
    (forall b, group_lookup d' b = group_lookup d b ++ filter (has_bank b) l)
    /\ (NoDup (map fst d) -> NoDup (map fst d'))
    /\ (forall b, In b (map fst d') <->
                  In b (map fst d) \/ exists r, In r l /\ bank r = b).
Proof.
  induction l as [| r l IH]; intros d; cbn [fold_left].
  - split; [| split].
    + intros b. cbn [filter]. rewrite app_nil_r. reflexivity.
    + auto.
    + intros b. split; [auto | intros [H | (r & [] & _)]; exact H].
  - destruct (IH (setdefault_append d (bank r) r)) as (H1 & H2 & H3).
    cbv zeta in *. split; [| split].
    + intros b. rewrite H1, setdefault_lookup. cbn [filter]. unfold has_bank at 2.
      destruct (bank r =? b)%string; [rewrite <- app_assoc |]; reflexivity.
    + intros Hnd. apply H2. rewrite setdefault_keys.
      destruct (existsb _ (map fst d)) eqn:E; [rewrite app_nil_r; exact Hnd |].
      apply NoDup_app; [exact Hnd | repeat constructor; intros [] |].
      intros x Hx [<- | []].
      apply existsb_eqb_in in Hx. congruence.
    + intros b. rewrite H3, setdefault_keys, in_app_iff. split.
      * intros [[H | H] | (r' & Hr' & Hb)].
        -- left. exact H.
        -- right. exists r. split; [left; reflexivity |].
           destruct (existsb _ (map fst d)); [destruct H |].
           destruct H as [<- | []]. reflexivity.
        -- right. exists r'. split; [right; exact Hr' | exact Hb].
      * intros [H | (r' & [<- | Hr'] & Hb)].
        -- left. left. exact H.
        -- left. subst b.
           destruct (existsb _ (map fst d)) eqn:E.
           ++ left. apply existsb_eqb_in. exact E.
           ++ right. left. reflexivity.
        -- right. exists r'. auto.
Qed.

Lemma bank_to_results_spec (l : list Doc) :
  (forall b, group_lookup (bank_to_results l) b = filter (has_bank b) l)
  /\ NoDup (map fst (bank_to_results l))
  /\ (forall b, In b (map fst (bank_to_results l)) <->
                exists r, In r l /\ bank r = b).
Proof.
  destruct (bank_to_results_fold l []) as (H1 & H2 & H3). cbv zeta in *.
  split; [| split].
  - intros b. apply H1.
  - apply H2. constructor.
  - intros b. rewrite H3. split; [intros [[] | H]; exact H | auto].
Qed.

Lemma group_lookup_entry (d : list (string * list Doc)) (b : string)
    (rs : list Doc) :
  NoDup (map fst d) -> In (b, rs) d -> group_lookup d b = rs.
Proof.
  unfold group_lookup. induction d as [| [k' rs'] d IH]; intros Hnd Hin.
  - destruct Hin.
  - cbn [find fst snd map] in *. inversion Hnd as [| ? ? Hnot Hnd']; subst.
    destruct Hin as [Heq | Hin].
    + injection Heq as -> ->. rewrite String.eqb_refl. reflexivity.
    + destruct (k' =? b)%string eqn:E.
      * apply String.eqb_eq in E. subst k'. exfalso. apply Hnot.
        apply (in_map fst) in Hin. exact Hin.
      * apply IH; assumption.
Qed.

Lemma dict_getitem_key (d : list (string * list Doc)) (b : string) :
  In b (map fst d) -> dict_getitem d b = Ok (group_lookup d b).
Proof.
  intros Hin. unfold dict_getitem, group_lookup.
  destruct (find _ d) as [p |] eqn:E; [reflexivity |].
  apply in_map_iff in Hin as (p & <- & Hp).
  pose proof (find_none _ _ E p Hp) as Hno. cbn beta in Hno.
  rewrite String.eqb_refl in Hno. discriminate.
Qed.

(** *** Best scores and bank selection *)

Lemma ltb_irrefl : ltb_asym -> forall a, score_ltb a a = false.
Proof.
  intros Hasym a. destruct (score_ltb a a) eqn:E; [| reflexivity].
  rewrite (Hasym a a E) in E. discriminate.
Qed.

Lemma max_fold_spec (rs : list Doc) :
  ltb_asym -> ltb_negtrans ->
  forall best0,
    let best := fold_left
                  (fun best r' =>
                     if score_ltb best (score r') then score r' else best)
                  rs best0 in
    (best = best0 \/ exists r, In r rs /\ score r = best)
    /\ score_ltb best best0 = false
    /\ (forall r, In r rs -> score_ltb best (score r) = false).
Proof.
  intros Hasym Hneg. induction rs as [| r rs IH]; intros best0; cbn [fold_left].
  - split; [left; reflexivity |]. split; [apply ltb_irrefl; exact Hasym |].
    intros r [].
  - cbv zeta in *. destruct (score_ltb best0 (score r)) eqn:E.
    + destruct (IH (score r)) as (H1 & H2 & H3). split; [| split].
      * right. destruct H1 as [H1 | (r' & Hr' & Hs)].
        -- exists r. split; [left; reflexivity | symmetry; exact H1].
        -- exists r'. split; [right; exact Hr' | exact Hs].
      * apply (Hneg _ (score r)); [exact H2 | apply Hasym; exact E].
      * intros r' [<- | Hr']; [exact H2 | apply H3; exact Hr'].
    + destruct (IH best0) as (H1 & H2 & H3). split; [| split].
      * destruct H1 as [H1 | (r' & Hr' & Hs)]; [left; exact H1 | right].
        exists r'. split; [right; exact Hr' | exact Hs].
      * exact H2.
      * intros r' [<- | Hr']; [| apply H3; exact Hr'].
        apply (Hneg _ best0); assumption.
Qed.

(** [max_score] returns the score of one of the records, and no record
    scores above it. *)
Lemma max_score_spec (rs : list Doc) (best : Score) :
  ltb_asym -> ltb_negtrans ->
  max_score rs = Ok best ->
  (exists r, In r rs /\ score r = best)
  /\ (forall r, In r rs -> score_ltb best (score r) = false).
Proof.
  intros Hasym Hneg H. destruct rs as [| r0 rs]; [discriminate |].
  cbn [max_score] in H. injection H as <-.
  destruct (max_fold_spec rs Hasym Hneg (score r0)) as (H1 & H2 & H3).
  cbv zeta in *. split.
  - destruct H1 as [H1 | (r & Hr & Hs)].
    + exists r0. split; [left; reflexivity | symmetry; exact H1].
    + exists r. split; [right; exact Hr | exact Hs].
  - intros r [<- | Hr]; [exact H2 | apply H3; exact Hr].
Qed.

Lemma bank_scores_of_spec (d : list (string * list Doc)) :
  (forall p, In p d -> snd p <> []) ->
  exists scores, bank_scores_of d = ([], Ok scores) /\ scores_of d scores.
Proof.
  induction d as [| [b rs] d IH]; intros Hne.
  - exists []. split; [reflexivity | constructor].
  - destruct IH as (scores & Hrun & Hsc);
      [intros p Hp; apply Hne; right; exact Hp |].
    destruct rs as [| r0 rs];
      [exfalso; apply (Hne (b, [])); [left |]; reflexivity |].
    eexists. cbn [bank_scores_of]. rewrite Hrun. cbn [max_score lift bind ret app].
    split; [reflexivity |].
    constructor; [split; reflexivity | exact Hsc].
Qed.

Lemma scores_of_keys (d : list (string * list Doc))
    (scores : list (string * Score)) :
  scores_of d scores -> map fst scores = map fst d.
Proof.
  induction 1 as [| p q d scores [Hk _] _ IH]; cbn [map]; [reflexivity |].
  rewrite Hk, IH. reflexivity.
Qed.

Lemma scores_of_entry (d : list (string * list Doc))
    (scores : list (string * Score)) (q : string * Score) :
  scores_of d scores -> In q scores ->
  exists rs, In (fst q, rs) d /\ max_score rs = Ok (snd q).
Proof.
  induction 1 as [| p q' d scores [Hk Hm] _ IH]; intros Hin; [destruct Hin |].
  destruct Hin as [<- | Hin].
  - exists (snd p). split; [left; rewrite Hk; destruct p; reflexivity | exact Hm].
  - destruct (IH Hin) as (rs & Hrs & Hmax). exists rs. split; [right |]; assumption.
Qed.

Lemma extend_selected_spec (d : list (string * list Doc))
    (selected : list string) (k : Z) :
  (forall b, In b selected -> In b (map fst d)) ->
  forall acc,
    extend_selected d selected k acc
    = ([], Ok (acc ++ flat_map (fun b => slice_to (group_lookup d b) k)
                        selected)).
Proof.
  induction selected as [| b sel IH]; intros Hkeys acc.
  - cbn [extend_selected flat_map]. rewrite app_nil_r. reflexivity.
  - cbn [extend_selected flat_map].
    rewrite (dict_getitem_key d b) by (apply Hkeys; left; reflexivity).
    cbn [lift bind].
    rewrite IH by (intros b' Hb'; apply Hkeys; right; exact Hb').
    cbn [app]. rewrite <- app_assoc. reflexivity.
Qed.

Lemma sorted_app_desc {A} (R : A -> A -> Prop) (l1 l2 : list A) :
  StronglySorted R (l1 ++ l2) ->
  forall a b, In a l1 -> In b l2 -> R a b.
Proof.
  induction l1 as [| x l1 IH]; intros Hs a b Ha Hb; [destruct Ha |].
  cbn [app] in Hs. inversion Hs as [| ? ? Hs' Hall]; subst.
  destruct Ha as [<- | Ha].
  - rewrite Forall_forall in Hall. apply Hall, in_or_app. right. exact Hb.
  - apply IH; assumption.
Qed.

Lemma NoDup_firstn {A} (n : nat) (l : list A) :
  NoDup l -> NoDup (firstn n l).
Proof.
  intros H. rewrite <- (firstn_skipn n l) in H.
  apply NoDup_app_remove_r in H. exact H.
Qed.

(** *** Unhinted fusion *)

Lemma bank_to_results_nonempty (l : list Doc) (p : string * list Doc) :
  In p (bank_to_results l) -> snd p <> [].
Proof.
  destruct (bank_to_results_spec l) as (Hlook & Hnd & Hkeys).
  destruct p as [b rs]. intros Hin. cbn [snd].
  rewrite <- (group_lookup_entry _ b rs Hnd Hin), Hlook.
  assert (Hb : In b (map fst (bank_to_results l)))
    by (apply (in_map fst) in Hin; exact Hin).
  apply Hkeys in Hb as (r & Hr & Hbank).
  assert (Hf : In r (filter (has_bank b) l)).
  { apply filter_In. split; [exact Hr |]. unfold has_bank.
    rewrite Hbank. apply String.eqb_refl. }
  intros E. rewrite E in Hf. destruct Hf.
Qed.

(** The value of an unhinted [retrieve] once the per-corpus searches
    have returned the working set [all]. *)
Lemma retrieve_unhinted_run (corpora : list CorpusIndex) (question : string)
    (bank : option string) (k : option Z) (all : list Doc) :
  truthy bank = false ->
  result (search_all (corpora_to_search corpora bank)
            (_encode_query question) (top_k_or_default k)) = Ok all ->
  let sorted := sort_desc score all in
  let d := bank_to_results (filter (fun r => negb (is_common r)) sorted) in
  exists scores,
    scores_of d scores /\
    result (retrieve corpora question bank k)
    = Ok (sort_desc score
            (slice_to (filter is_common sorted) (top_k_or_default k)
             ++ flat_map
                  (fun b => slice_to (group_lookup d b) (top_k_or_default k))
                  (map fst (slice_to (sort_desc snd scores)
                              MAX_BANKS_WHEN_NO_BANK_SPECIFIED)))).
Proof.
  intros Hb Hall sorted d.
  destruct (bank_scores_of_spec d) as (scores & Hrun & Hsc);
    [apply bank_to_results_nonempty |].
  exists scores. split; [exact Hsc |].
  unfold retrieve. cbv zeta. rewrite result_bind, Hall, Hb.
  fold sorted. fold d. rewrite Hrun. cbn [bind].
  rewrite extend_selected_spec.
  - reflexivity.
  - intros b Hin. apply in_map_iff in Hin as (q & <- & Hq).
    apply slice_to_incl, sort_desc_in in Hq.
    rewrite <- (scores_of_keys d scores Hsc). apply in_map. exact Hq.
Qed.

Lemma flat_map_ext_in {A B} (f g : A -> list B) (l : list A) :
  (forall a, In a l -> f a = g a) -> flat_map f l = flat_map g l.
Proof.
  induction l as [| a l IH]; intros H; cbn [flat_map]; [reflexivity |].
  rewrite (H a (or_introl eq_refl)), IH; [reflexivity |].
  intros a' Ha'. apply H. right. exact Ha'.
Qed.

Lemma filter_scoped_bank (l : list Doc) (b : string) :
  is_common_name b = false ->
  filter (has_bank b) (filter (fun r => negb (is_common r)) l)
  = filter (has_bank b) l.
Proof.
  intros Hb. induction l as [| r l IH]; cbn [filter]; [reflexivity |].
  destruct (has_bank b r) eqn:E.
  - assert (Hr : is_common r = false).
    { unfold has_bank in E. apply String.eqb_eq in E.
      unfold is_common. rewrite E. exact Hb. }
    rewrite Hr. cbn [negb filter]. rewrite E, IH. reflexivity.
  - destruct (negb (is_common r)); cbn [filter]; [rewrite E |]; exact IH.
Qed.

(** The scoped records of the working set, and how the engine groups
    and ranks them. *)
Lemma selection_facts (all : list Doc) (scores : list (string * Score)) :
  ltb_asym -> ltb_negtrans ->
  let sorted := sort_desc score all in
  let d := bank_to_results (filter (fun r => negb (is_common r)) sorted) in
  let ranked := sort_desc snd scores in
  let selected :=
    map fst (slice_to ranked MAX_BANKS_WHEN_NO_BANK_SPECIFIED) in
  scores_of d scores ->
  NoDup selected
  /\ Z.of_nat (List.length selected) <= MAX_BANKS_WHEN_NO_BANK_SPECIFIED
  /\ (forall b, In b selected ->
        is_common_name b = false /\
        group_lookup d b = filter (has_bank b) sorted /\
        exists r, In r all /\ bank r = b)
  /\ (forall r', In r' all -> is_common r' = false ->
        ~ In (bank r') selected ->
        Z.of_nat (List.length selected) = MAX_BANKS_WHEN_NO_BANK_SPECIFIED /\
        forall b, In b selected ->
          exists r, In r all /\ bank r = b /\
                    score_ltb (score r) (score r') = false).
Proof.
  intros Hasym Hneg sorted d ranked selected Hsc.
  set (other := filter (fun r => negb (is_common r)) sorted) in *.
  destruct (bank_to_results_spec other) as (Hlook & Hnd & Hkeys).
  fold d in Hlook, Hnd, Hkeys.
  pose proof (scores_of_keys d scores Hsc) as Hsk.
  pose proof (sort_desc_perm snd scores) as Hperm. fold ranked in Hperm.
  pose proof (sort_desc_sorted snd scores Hasym Hneg) as Hsorted.
  fold ranked in Hsorted.
  assert (Hsel : selected = firstn 5 (map fst ranked)).
  { unfold selected. rewrite slice_to_nonneg by (cbv; discriminate).
    rewrite firstn_map. reflexivity. }
  assert (Hndr : NoDup (map fst ranked)).
  { eapply Permutation_NoDup; [apply Permutation_map; exact Hperm |].
    rewrite Hsk. exact Hnd. }
  assert (Hother : forall r, In r other <-> In r all /\ is_common r = false).
  { intros r. unfold other. rewrite filter_In. unfold sorted.
    rewrite sort_desc_in, negb_true_iff. reflexivity. }
  assert (Hkey_sel : forall b, In b selected -> In b (map fst d)).
  { intros b Hb. rewrite Hsel in Hb.
    assert (In b (map fst ranked)).
    { rewrite <- (firstn_skipn 5 (map fst ranked)). apply in_or_app. auto. }
    rewrite <- Hsk.
    eapply Permutation_in;
      [apply Permutation_sym, Permutation_map; exact Hperm | assumption]. }
  assert (Hscoped : forall b, In b (map fst d) -> is_common_name b = false).
  { intros b Hb. apply Hkeys in Hb as (r & Hr & <-).
    apply Hother in Hr as [_ Hr]. exact Hr. }
  split; [rewrite Hsel; apply NoDup_firstn; exact Hndr |].
  split.
  { rewrite Hsel, length_firstn. unfold MAX_BANKS_WHEN_NO_BANK_SPECIFIED. lia. }
  split.
  { intros b Hb. pose proof (Hkey_sel b Hb) as Hk.
    split; [apply Hscoped; exact Hk |]. split.
    - rewrite Hlook. apply filter_scoped_bank, Hscoped. exact Hk.
    - apply Hkeys in Hk as (r & Hr & Hbank). exists r.
      apply Hother in Hr as [Hr _]. auto. }
  intros r' Hr' Hsc' Hnot.
  assert (Hr'o : In r' other) by (apply Hother; auto).
  assert (Hk' : In (bank r') (map fst ranked)).
  { eapply Permutation_in; [apply Permutation_map; exact Hperm |].
    rewrite Hsk. apply Hkeys. exists r'. auto. }
  apply in_map_iff in Hk' as (q' & Hq'b & Hq').
  rewrite <- (firstn_skipn 5 ranked) in Hq'.
  apply in_app_or in Hq' as [Hq' | Hq'].
  { exfalso. apply Hnot. rewrite Hsel, firstn_map, <- Hq'b.
    apply in_map. exact Hq'. }
  split.
  { rewrite Hsel, length_firstn, length_map.
    assert ((5 < List.length ranked)%nat).
    { destruct (Nat.lt_ge_cases 5 (List.length ranked)) as [H | H];
        [exact H |].
      rewrite (skipn_all2 ranked H) in Hq'. destruct Hq'. }
    unfold MAX_BANKS_WHEN_NO_BANK_SPECIFIED. lia. }
  intros b Hb. rewrite Hsel, firstn_map in Hb.
  apply in_map_iff in Hb as (q & Hqb & Hq).
  assert (Hdesc : desc snd q q').
  { apply (sorted_app_desc (desc snd) (firstn 5 ranked) (skipn 5 ranked));
      [rewrite firstn_skipn; exact Hsorted | exact Hq | exact Hq']. }
  assert (Hin_scores : forall x, In x ranked -> In x scores).
  { intros x Hx. eapply Permutation_in;
      [apply Permutation_sym; exact Hperm | exact Hx]. }
  assert (Hq_s : In q scores).
  { apply Hin_scores. rewrite <- (firstn_skipn 5 ranked). apply in_or_app. auto. }
  assert (Hq'_s : In q' scores).
  { apply Hin_scores. rewrite <- (firstn_skipn 5 ranked). apply in_or_app. auto. }
  destruct (scores_of_entry d scores q Hsc Hq_s) as (rs & Hrs & Hmax).
  destruct (scores_of_entry d scores q' Hsc Hq'_s) as (rs' & Hrs' & Hmax').
  destruct (max_score_spec rs _ Hasym Hneg Hmax) as [(r & Hr & Hscore) _].
  destruct (max_score_spec rs' _ Hasym Hneg Hmax') as [_ Hupper].
  pose proof (group_lookup_entry d _ rs Hnd Hrs) as Hg. rewrite Hlook in Hg.
  pose proof (group_lookup_entry d _ rs' Hnd Hrs') as Hg'. rewrite Hlook in Hg'.
  rewrite <- Hg in Hr. apply filter_In in Hr as [Hr Hrb].
  unfold has_bank in Hrb. apply String.eqb_eq in Hrb.
  exists r. split; [apply Hother in Hr; apply Hr |].
  split; [congruence |].
  rewrite Hscore. apply (Hneg _ (snd q')); [exact Hdesc |].
  apply Hupper. rewrite <- Hg'. apply filter_In. split; [exact Hr'o |].
  unfold has_bank. rewrite Hq'b. apply String.eqb_refl.
Qed.

(** C1. An unhinted [retrieve] (hint [None] or empty) whose per-corpus
    searches returned the working set [all] ranks it by decreasing score
    ([sorted]) and keeps a list [selected_banks] of distinct scoped
    banks, at most [MAX_BANKS_WHEN_NO_BANK_SPECIFIED] of them; a scoped
    bank is left out only when that many are kept, and then every kept
    bank has a record scoring no lower than every record of the bank left
    out.  The returned list is, up to order, the first [k] shared records
    of [sorted] followed by the first [k] records of each kept bank; it
    is sorted by decreasing score, and its scoped records carry at most
    [MAX_BANKS_WHEN_NO_BANK_SPECIFIED] distinct bank names. *)
Theorem retrieve_unhinted_fusion (corpora : list CorpusIndex)
    (question : string) (hint : option string) (k : option Z)
    (all : list Doc) :
  truthy hint = false ->
  ltb_asym -> ltb_negtrans ->
  result (search_all (corpora_to_search corpora hint)
            (_encode_query question) (top_k_or_default k)) = Ok all ->
  exists (sorted : list Doc) (selected_banks : list string)
         (docs : list Doc),
    result (retrieve corpora question hint k) = Ok docs
    /\ Permutation all sorted
    /\ StronglySorted (desc score) sorted
    /\ NoDup selected_banks
    /\ Z.of_nat (List.length selected_banks)
       <= MAX_BANKS_WHEN_NO_BANK_SPECIFIED
    /\ (forall b, In b selected_banks ->
          is_common_name b = false /\ exists r, In r all /\ bank r = b)
    /\ (forall r', In r' all -> is_common r' = false ->
          ~ In (bank r') selected_banks ->
          Z.of_nat (List.length selected_banks)
          = MAX_BANKS_WHEN_NO_BANK_SPECIFIED /\
          forall b, In b selected_banks ->
            exists r, In r all /\ bank r = b /\
                      score_ltb (score r) (score r') = false)
    /\ Permutation docs
         (slice_to (filter is_common sorted) (top_k_or_default k)
          ++ flat_map
               (fun b => slice_to (filter (has_bank b) sorted)
                           (top_k_or_default k))
               selected_banks)
    /\ StronglySorted (desc score) docs
    /\ (Z.of_nat (List.length (scoped_names docs))
        <= MAX_BANKS_WHEN_NO_BANK_SPECIFIED).
Proof.
  intros Hb Hasym Hneg Hall.
  destruct (retrieve_unhinted_run corpora question hint k all Hb Hall)
    as (scores & Hsc & Hres).
  cbv zeta in Hsc, Hres.
  destruct (selection_facts all scores Hasym Hneg Hsc)
    as (Hnd & Hlen & Hsel & Hout).
  set (sorted := sort_desc score all) in *.
  set (d := bank_to_results (filter (fun r => negb (is_common r)) sorted)) in *.
  set (selected :=
         map fst (slice_to (sort_desc snd scores)
                    MAX_BANKS_WHEN_NO_BANK_SPECIFIED)) in *.
  assert (Hflat :
            flat_map (fun b => slice_to (group_lookup d b) (top_k_or_default k))
                     selected
            = flat_map (fun b => slice_to (filter (has_bank b) sorted)
                                   (top_k_or_default k))
                       selected).
  { apply flat_map_ext_in. intros b Hin.
    destruct (Hsel b Hin) as (_ & -> & _). reflexivity. }
  rewrite Hflat in Hres.
  eexists sorted, selected, _. split; [exact Hres |].
  split; [apply sort_desc_perm |].
  split; [apply sort_desc_sorted; assumption |].
  split; [exact Hnd |]. split; [exact Hlen |].
  split; [intros b Hin; destruct (Hsel b Hin) as (H1 & _ & H3); auto |].
  split; [exact Hout |].
  split; [apply Permutation_sym, sort_desc_perm |].
  split; [apply sort_desc_sorted; assumption |].
  assert (Hincl : incl (scoped_names
                          (sort_desc score
                             (slice_to (filter is_common sorted)
                                (top_k_or_default k)
                              ++ flat_map
                                   (fun b => slice_to
                                               (filter (has_bank b) sorted)
                                               (top_k_or_default k))
                                   selected)))
                       selected).
  { intros b Hin. unfold scoped_names in Hin.
    apply nodup_In, in_map_iff in Hin as (r & <- & Hr).
    apply filter_In in Hr as [Hr Hscoped]. apply negb_true_iff in Hscoped.
    apply sort_desc_in, in_app_or in Hr as [Hr | Hr].
    - apply slice_to_incl, filter_In in Hr as [_ Hc]. congruence.
    - apply in_flat_map in Hr as (b & Hbsel & Hr).
      apply slice_to_incl, filter_In in Hr as [_ Hbank].
      unfold has_bank in Hbank. apply String.eqb_eq in Hbank.
      rewrite Hbank. exact Hbsel. }
  pose proof (NoDup_incl_length (NoDup_nodup string_dec _) Hincl) as Hle.
  unfold scoped_names. lia.
Qed.

(** *** The sources projector *)

Lemma key_eqb_eq (a b : string * string) : key_eqb a b = true <-> a = b.
Proof.
  destruct a as [a1 a2], b as [b1 b2]. unfold key_eqb. cbn [fst snd].
  rewrite andb_true_iff, !String.eqb_eq. split.
  - intros [-> ->]. reflexivity.
  - intros H. injection H as -> ->. auto.
Qed.

Lemma key_eqb_refl (a : string * string) : key_eqb a a = true.
Proof. apply key_eqb_eq. reflexivity. Qed.

Lemma dict_contains_keys (m : list ((string * string) * Source))
    (key : string * string) :
  dict_contains m key = existsb (fun k => key_eqb k key) (map fst m).
Proof.
  unfold dict_contains. induction m as [| e m IH]; cbn [existsb map];
    [reflexivity |].
  rewrite IH. reflexivity.
Qed.

Lemma filter_filter {A} (P Q : A -> bool) (l : list A) :
  filter P (filter Q l) = filter (fun x => (Q x && P x)%bool) l.
Proof.
  induction l as [| x l IH]; cbn [filter]; [reflexivity |].
  destruct (Q x); cbn [filter andb]; [destruct (P x) |]; rewrite IH; reflexivity.
Qed.

Lemma build_sources_step_eq (m : list ((string * string) * Source))
    (d : Doc) :
  build_sources_step m d
  = if fresh (map fst m) d then m ++ [(doc_key d, source_of d)] else m.
Proof.
  unfold build_sources_step, fresh. fold (doc_key d).
  rewrite dict_contains_keys.
  destruct (existsb _ (map fst m)); reflexivity.
Qed.

Lemma build_sources_fold (docs : list Doc) :
  forall m,
    map snd (fold_left build_sources_step docs m)
    = map snd m
      ++ map source_of (filter (fresh (map fst m)) (keep_first docs)).
Proof.
  induction docs as [| d ds IH]; intros m; cbn [fold_left keep_first filter].
  - rewrite app_nil_r. reflexivity.
  - rewrite IH, build_sources_step_eq.
    destruct (fresh (map fst m) d) eqn:E.
    + rewrite !map_app. cbn [map fst snd]. rewrite <- app_assoc. cbn [app].
      apply f_equal. apply f_equal. apply f_equal. rewrite filter_filter.
      apply filter_ext. intros d'. unfold fresh.
      rewrite existsb_app. cbn [existsb]. rewrite orb_false_r, negb_orb.
      rewrite andb_comm. reflexivity.
    + apply f_equal. apply f_equal. rewrite filter_filter. apply filter_ext.
      intros d'. unfold fresh in *.
      destruct (key_eqb (doc_key d) (doc_key d')) eqn:Ek; cbn [negb andb];
        [| reflexivity].
      apply key_eqb_eq in Ek. rewrite <- Ek. exact E.
Qed.

Lemma build_sources_keep_first (docs : list Doc) :
  build_sources_for_llm docs = map source_of (keep_first docs).
Proof.
  unfold build_sources_for_llm. rewrite build_sources_fold. cbn [map app].
  f_equal. rewrite <- (filter_ext_in (fun _ => true)).
  - induction (keep_first docs) as [| x l IH]; cbn [filter];
      [| rewrite IH]; reflexivity.
  - intros d _. reflexivity.
Qed.

Lemma keep_first_nodup (docs : list Doc) :
  NoDup (map doc_key (keep_first docs)).
Proof.
  induction docs as [| d ds IH]; cbn [keep_first map]; [constructor |].
  constructor.
  - intros Hin. apply in_map_iff in Hin as (d' & Hk & Hd').
    apply filter_In in Hd' as [_ Hne]. rewrite <- Hk, key_eqb_refl in Hne.
    discriminate.
  - induction (keep_first ds) as [| x l IHl]; cbn [filter map]; [constructor |].
    cbn [map] in IH. inversion IH as [| ? ? Hx Hl]; subst.
    destruct (negb (key_eqb (doc_key d) (doc_key x))); cbn [map];
      [| apply IHl; exact Hl].
    constructor; [| apply IHl; exact Hl].
    intros Hin. apply Hx. apply in_map_iff in Hin as (y & Hk & Hy).
    apply filter_In in Hy as [Hy _]. rewrite <- Hk. apply in_map. exact Hy.
Qed.

Lemma keep_first_covers (docs : list Doc) (d : Doc) :
  In d docs -> exists d', In d' (keep_first docs) /\ doc_key d' = doc_key d.
Proof.
  induction docs as [| x ds IH]; intros Hin; [destruct Hin |].
  cbn [keep_first]. destruct Hin as [<- | Hin].
  - exists x. split; [left |]; reflexivity.
  - destruct (IH Hin) as (d' & Hd' & Hk).
    destruct (key_eqb (doc_key x) (doc_key d')) eqn:E.
    + apply key_eqb_eq in E. exists x. split; [left; reflexivity | congruence].
    + exists d'. split; [right; apply filter_In; split; [exact Hd' |] | exact Hk].
      rewrite E. reflexivity.
Qed.

(** *** Snippets *)

Lemma is_linebreak_space (c : ascii) : is_linebreak c = true -> is_space c = true.
Proof.
  unfold is_linebreak, is_space. cbv zeta.
  rewrite !orb_true_iff, !andb_true_iff, !Nat.leb_le, Nat.eqb_eq. lia.
Qed.

Lemma is_lf_linebreak (c : ascii) : is_lf c = true -> is_linebreak c = true.
Proof.
  unfold is_lf, is_linebreak. cbv zeta.
  rewrite !orb_true_iff, !andb_true_iff, !Nat.leb_le, Nat.eqb_eq. lia.
Qed.

Lemma splitlines_nil (s : string) : splitlines s = [] -> s = "".
Proof.
  destruct s as [| c s]; [reflexivity |]. cbn [splitlines].
  destruct (is_linebreak c).
  - destruct s as [| c' s']; [discriminate |].
    destruct (is_cr c && is_lf c')%bool; discriminate.
  - destruct (splitlines s); discriminate.
Qed.

Lemma join_cons_char (sep : string) (c : ascii) (line : string)
    (lines : list string) :
  join sep (String c line :: lines) = String c (join sep (line :: lines)).
Proof. unfold join. destruct lines; reflexivity. Qed.

Lemma join_empty_first (sep : string) (l : list string) :
  l <> [] -> join sep ("" :: l) = (sep ++ join sep l)%string.
Proof. destruct l; [contradiction | reflexivity]. Qed.

Lemma join_splitlines_aux (n : nat) :
  forall s,
    (String.length s <= n)%nat ->
    ends_with_break s = false ->
    join " " (splitlines s) = replace_breaks s.
Proof.
  induction n as [| n IH]; intros s Hlen Hend.
  - destruct s; [reflexivity | simpl in Hlen; lia].
  - destruct s as [| c s]; [reflexivity |].
    cbn [String.length] in Hlen. cbn [splitlines replace_breaks].
    destruct (is_linebreak c) eqn:Ec.
    + destruct s as [| c' s'].
      * cbn [ends_with_break] in Hend. congruence.
      * cbn [String.length] in Hlen.
        destruct (is_cr c && is_lf c')%bool eqn:Ecrlf.
        -- destruct s' as [| c'' s''].
           { cbn [ends_with_break] in Hend.
             apply andb_true_iff in Ecrlf as [_ Elf].
             apply is_lf_linebreak in Elf. congruence. }
           rewrite join_empty_first
             by (intros E; apply splitlines_nil in E; discriminate).
           rewrite IH; [reflexivity | cbn [String.length] in *; lia |].
           exact Hend.
        -- rewrite join_empty_first
             by (intros E; apply splitlines_nil in E; discriminate).
           rewrite IH; [reflexivity | cbn [String.length] in *; lia |].
           exact Hend.
    + destruct (splitlines s) as [| line lines] eqn:Es.
      * apply splitlines_nil in Es. subst s. reflexivity.
      * rewrite join_cons_char, <- Es.
        rewrite IH; [reflexivity | lia |].
        destruct s; [discriminate | exact Hend].
Qed.

Lemma rstrip_no_final_break (s : string) : ends_with_break (rstrip s) = false.
Proof.
  induction s as [| c s IH]; [reflexivity |].
  cbn [rstrip]. destruct (rstrip s) as [| c' t] eqn:E.
  - destruct (is_space c) eqn:Ec; [reflexivity |].
    cbn [ends_with_break]. destruct (is_linebreak c) eqn:Eb; [| reflexivity].
    apply is_linebreak_space in Eb. congruence.
  - exact IH.
Qed.

Lemma snippet_of_replace_breaks (text : string) :
  snippet_of text = str_take 400 (replace_breaks (strip text)).
Proof.
  unfold snippet_of.
  rewrite (join_splitlines_aux (String.length (strip text)) (strip text));
    [reflexivity | apply Nat.le_refl | apply rstrip_no_final_break].
Qed.

Lemma str_take_length (n : nat) (s : string) :
  (String.length (str_take n s) <= n)%nat.
Proof.
  revert s. induction n as [| n IH]; intros s; [apply Nat.le_refl |].
  destruct s as [| c s]; cbn [str_take String.length]; [lia |].
  specialize (IH s). lia.
Qed.

Lemma str_take_all_chars (P : ascii -> bool) (n : nat) (s : string) :
  all_chars P s = true -> all_chars P (str_take n s) = true.
Proof.
  revert s. induction n as [| n IH]; intros s H; [reflexivity |].
  destruct s as [| c s]; [reflexivity |].
  cbn [str_take all_chars] in *. apply andb_true_iff in H as [H1 H2].
  rewrite H1, (IH s H2). reflexivity.
Qed.

Lemma space_not_break : is_linebreak space = false.
Proof. reflexivity. Qed.

Lemma replace_breaks_clean_aux (n : nat) :
  forall s,
    (String.length s <= n)%nat ->
    all_chars (fun c => negb (is_linebreak c)) (replace_breaks s) = true.
Proof.
  induction n as [| n IH]; intros s Hlen.
  - destruct s; [reflexivity | simpl in Hlen; lia].
  - destruct s as [| c s]; [reflexivity |].
    cbn [String.length] in Hlen. cbn [replace_breaks].
    destruct (is_linebreak c) eqn:Ec.
    + destruct s as [| c' s']; [reflexivity |].
      cbn [String.length] in Hlen.
      destruct (is_cr c && is_lf c')%bool; cbn [all_chars];
        rewrite space_not_break; cbn [negb andb]; apply IH;
        cbn [String.length]; lia.
    + cbn [all_chars]. rewrite Ec. cbn [negb andb]. apply IH. lia.
Qed.

Lemma snippet_of_single_line (text : string) :
  all_chars (fun c => negb (is_linebreak c)) (snippet_of text) = true.
Proof.
  rewrite snippet_of_replace_breaks. apply str_take_all_chars.
  apply (replace_breaks_clean_aux (String.length (strip text))).
  apply Nat.le_refl.
Qed.

(** On a text whose only line boundaries are line feeds, replacing the
    boundaries is replacing the line feeds. *)
Lemma replace_breaks_flatten (s : string) :
  all_chars (fun c => (negb (is_linebreak c) || is_lf c)%bool) s = true ->
  replace_breaks s = flatten_newlines s.
Proof.
  induction s as [| c s IH]; intros H; [reflexivity |].
  cbn [all_chars] in H. apply andb_true_iff in H as [Hc Hs].
  cbn [replace_breaks flatten_newlines]. rewrite <- (IH Hs).
  destruct (is_linebreak c) eqn:Eb; cbn [negb orb] in Hc.
  - rewrite Hc.
    assert (Hcr : is_cr c = false).
    { unfold is_cr, is_lf in *. apply Nat.eqb_eq in Hc. rewrite Hc. reflexivity. }
    rewrite Hcr. cbn [andb]. destruct s; reflexivity.
  - assert (Hlf : is_lf c = false).
    { destruct (is_lf c) eqn:E; [| reflexivity].
      apply is_lf_linebreak in E. congruence. }
    rewrite Hlf. reflexivity.
Qed.

Lemma keep_first_is_first (docs : list Doc) (d : Doc) :
  In d (keep_first docs) ->
  exists pre post,
    docs = pre ++ d :: post /\
    forall x, In x pre -> doc_key x <> doc_key d.
Proof.
  revert d. induction docs as [| x ds IH]; intros d Hin; [destruct Hin |].
  cbn [keep_first] in Hin. destruct Hin as [<- | Hin].
  - exists [], ds. split; [reflexivity | intros y []].
  - apply filter_In in Hin as [Hin Hne].
    destruct (IH d Hin) as (pre & post & -> & Hpre).
    exists (x :: pre), post. split; [reflexivity |].
    intros y [<- | Hy]; [| apply Hpre; exact Hy].
    intros E. rewrite E, key_eqb_refl in Hne. discriminate.
Qed.

(** C9 (amended). [build_sources_for_llm] emits one entry per distinct
    (bank, document_name) pair, in the order of first occurrence, built
    from the first record carrying the pair.  Its snippet is the
    record's merged_text with surrounding whitespace stripped, every
    line boundary replaced by one space, cut to 400 characters: it has
    at most 400 characters and no line boundary.  When the merged_text
    has no surrounding whitespace and its only line boundaries are line
    feeds, the snippet is the merged_text with every line feed replaced
    by a space, cut to 400 characters. *)
Theorem build_sources_first_occurrence (docs : list Doc) :
  build_sources_for_llm docs = map source_of (keep_first docs)
  /\ NoDup (map doc_key (keep_first docs))
  /\ (forall d, In d docs ->
        exists d', In d' (keep_first docs) /\ doc_key d' = doc_key d)
  /\ (forall d, In d (keep_first docs) ->
        exists pre post,
          docs = pre ++ d :: post /\
          forall x, In x pre -> doc_key x <> doc_key d)
  /\ (forall d,
        snippet (source_of d)
        = str_take 400 (replace_breaks (strip (merged_text d)))
        /\ (String.length (snippet (source_of d)) <= 400)%nat
        /\ all_chars (fun c => negb (is_linebreak c)) (snippet (source_of d))
           = true
        /\ (strip (merged_text d) = merged_text d ->
            all_chars (fun c => (negb (is_linebreak c) || is_lf c)%bool)
                      (merged_text d) = true ->
            snippet (source_of d)
            = str_take 400 (flatten_newlines (merged_text d)))).
Proof.
  split; [apply build_sources_keep_first |].
  split; [apply keep_first_nodup |].
  split; [apply keep_first_covers |].
  split; [apply keep_first_is_first |].
  intros d. cbn [source_of snippet].
  split; [apply snippet_of_replace_breaks |].
  split; [apply str_take_length |].
  split; [apply snippet_of_single_line |].
  intros Hstrip Hlf.
  rewrite snippet_of_replace_breaks, Hstrip, (replace_breaks_flatten _ Hlf).
  reflexivity.
Qed.
(** ** Further properties of the engine *)

(** *** Errors and provenance *)

Lemma retrieve_search_raises (corpora : list CorpusIndex) (question : string)
    (hint : option string) (k : option Z) (e : PyError) :
  result (search_all (corpora_to_search corpora hint)
            (_encode_query question) (top_k_or_default k)) = Raise e ->
  result (retrieve corpora question hint k) = Raise e.
Proof.
  intros H. unfold retrieve. cbv zeta. rewrite result_bind, H. reflexivity.
Qed.

(** The records of an unhinted result, before the last sort. *)
Lemma retrieve_unhinted_members (corpora : list CorpusIndex)
    (question : string) (hint : option string) (k : option Z)
    (all : list Doc) :
  truthy hint = false ->
  result (search_all (corpora_to_search corpora hint)
            (_encode_query question) (top_k_or_default k)) = Ok all ->
  exists (selected : list string) (docs : list Doc),
    result (retrieve corpora question hint k) = Ok docs
    /\ (forall r, In r docs <->
          In r (slice_to (filter is_common (sort_desc score all))
                  (top_k_or_default k))
          \/ exists b, In b selected /\
               In r (slice_to (filter (has_bank b) (sort_desc score all))
                       (top_k_or_default k)))
    /\ Permutation docs
         (slice_to (filter is_common (sort_desc score all))
            (top_k_or_default k)
          ++ flat_map
               (fun b => slice_to (filter (has_bank b) (sort_desc score all))
                           (top_k_or_default k))
               selected)
    /\ NoDup selected
    /\ List.length selected
       = Nat.min 5 (List.length
                      (bank_to_results
                         (filter (fun r => negb (is_common r))
                            (sort_desc score all))))
    /\ (forall b, In b selected ->
          is_common_name b = false /\
          exists r, In r all /\ bank r = b)
    /\ (forall r, In r all -> is_common r = false ->
          In (bank r) selected \/ List.length selected = 5%nat)
    /\ (ltb_asym -> ltb_negtrans ->
        forall r', In r' all -> is_common r' = false ->
          ~ In (bank r') selected ->
          forall b, In b selected ->
            exists r, In r all /\ bank r = b /\
                      score_ltb (score r) (score r') = false).
Proof.
  intros Hb Hall.
  destruct (retrieve_unhinted_run corpora question hint k all Hb Hall)
    as (scores & Hsc & Hres).
  cbv zeta in Hsc, Hres.
  set (sorted := sort_desc score all) in *.
  set (other := filter (fun r => negb (is_common r)) sorted) in *.
  set (d := bank_to_results other) in *.
  set (ranked := sort_desc snd scores) in *.
  set (selected := map fst (slice_to ranked MAX_BANKS_WHEN_NO_BANK_SPECIFIED))
    in *.
  destruct (bank_to_results_spec other) as (Hlook & Hnd & Hkeys).
  fold d in Hlook, Hnd, Hkeys.
  pose proof (scores_of_keys d scores Hsc) as Hsk.
  pose proof (sort_desc_perm snd scores) as Hperm. fold ranked in Hperm.
  assert (Hother : forall r, In r other <-> In r all /\ is_common r = false).
  { intros r. unfold other. rewrite filter_In. unfold sorted.
    rewrite sort_desc_in, negb_true_iff. reflexivity. }
  assert (Hsel : selected = firstn 5 (map fst ranked)).
  { unfold selected. rewrite slice_to_nonneg by (cbv; discriminate).
    rewrite firstn_map. reflexivity. }
  assert (Hpk : Permutation (map fst d) (map fst ranked)).
  { rewrite <- Hsk. apply Permutation_map. exact Hperm. }
  assert (Hndr : NoDup (map fst ranked))
    by (eapply Permutation_NoDup; [exact Hpk | exact Hnd]).
  assert (Hkey_sel : forall b, In b selected -> In b (map fst d)).
  { intros b Hin. rewrite Hsel in Hin.
    eapply Permutation_in; [apply Permutation_sym; exact Hpk |].
    rewrite <- (firstn_skipn 5 (map fst ranked)). apply in_or_app. auto. }
  assert (Hscoped : forall b, In b (map fst d) -> is_common_name b = false).
  { intros b Hin. apply Hkeys in Hin as (r & Hr & <-).
    apply Hother in Hr as [_ Hr]. exact Hr. }
  assert (Hflat :
            flat_map (fun b => slice_to (group_lookup d b) (top_k_or_default k))
                     selected
            = flat_map (fun b => slice_to (filter (has_bank b) sorted)
                                   (top_k_or_default k))
                       selected).
  { apply flat_map_ext_in. intros b Hin. rewrite Hlook.
    unfold other. rewrite filter_scoped_bank; [reflexivity |].
    apply Hscoped, Hkey_sel. exact Hin. }
  rewrite Hflat in Hres.
  eexists selected, _. split; [exact Hres |].
  split.
  { intros r. rewrite sort_desc_in, in_app_iff, in_flat_map. reflexivity. }
  split; [apply Permutation_sym, sort_desc_perm |].
  split; [rewrite Hsel; apply NoDup_firstn; exact Hndr |].
  split.
  { rewrite Hsel, length_firstn, <- (Permutation_length Hpk), length_map.
    reflexivity. }
  split.
  { intros b Hin. pose proof (Hkey_sel b Hin) as Hk.
    split; [apply Hscoped; exact Hk |].
    apply Hkeys in Hk as (r & Hr & Hbank). exists r.
    apply Hother in Hr as [Hr _]. auto. }
  split.
  { intros r Hr Hsc'.
    assert (Hk : In (bank r) (map fst ranked)).
    { eapply Permutation_in; [exact Hpk |]. apply Hkeys. exists r.
      split; [apply Hother; auto | reflexivity]. }
    rewrite <- (firstn_skipn 5 (map fst ranked)) in Hk.
    apply in_app_or in Hk as [Hk | Hk];
      [left; rewrite Hsel; exact Hk | right].
    rewrite Hsel, length_firstn.
    destruct (Nat.lt_ge_cases 5 (List.length (map fst ranked))) as [H | H];
      [lia |].
    rewrite (skipn_all2 _ H) in Hk. destruct Hk. }
  intros Ha Hn r' Hr' Hsc' Hnot b Hin.
  destruct (selection_facts all scores Ha Hn Hsc) as (_ & _ & _ & H4).
  destruct (H4 r' Hr' Hsc' Hnot) as [_ H]. exact (H b Hin).
Qed.

Lemma retrieve_ok_cases (corpora : list CorpusIndex) (question : string)
    (hint : option string) (k : option Z) (docs : list Doc) :
  result (retrieve corpora question hint k) = Ok docs ->
  exists all,
    result (search_all (corpora_to_search corpora hint)
              (_encode_query question) (top_k_or_default k)) = Ok all.
Proof.
  intros H.
  destruct (result (search_all (corpora_to_search corpora hint)
                      (_encode_query question) (top_k_or_default k)))
    as [all | e] eqn:Hall; [eauto |].
  rewrite (retrieve_search_raises _ _ _ _ _ Hall) in H. discriminate.
Qed.

(** *** Sub-lists up to order *)

Lemma slice_to_rest {A} (l : list A) (k : Z) :
  exists rest, Permutation l (slice_to l k ++ rest).
Proof.
  destruct (slice_to_firstn l k) as [n ->]. exists (skipn n l).
  rewrite firstn_skipn. apply Permutation_refl.
Qed.

Lemma filter_split_perm {A} (f : A -> bool) (l : list A) :
  Permutation l (filter f l ++ filter (fun x => negb (f x)) l).
Proof.
  induction l as [| x l IH]; cbn; [constructor |].
  destruct (f x); cbn.
  - constructor. exact IH.
  - apply Permutation_cons_app. exact IH.
Qed.

Lemma flat_map_rest {A B} (f g : A -> list B) (l : list A) :
  (forall a, In a l -> exists rest, Permutation (f a) (g a ++ rest)) ->
  exists rest, Permutation (flat_map f l) (flat_map g l ++ rest).
Proof.
  induction l as [| a l IH]; intros H; cbn.
  - exists []. constructor.
  - destruct (H a (or_introl eq_refl)) as [r1 H1].
    destruct IH as [r2 H2]; [intros; apply H; right; assumption |].
    exists (r1 ++ r2).
    eapply Permutation_trans; [apply Permutation_app; eassumption |].
    rewrite <- !app_assoc. apply Permutation_app_head.
    rewrite !app_assoc. apply Permutation_app_tail.
    apply Permutation_app_comm.
Qed.

Lemma has_bank_other (b b' : string) (l : list Doc) :
  b <> b' ->
  filter (has_bank b') (filter (fun r => negb (has_bank b r)) l)
  = filter (has_bank b') l.
Proof.
  intros Hne. induction l as [| r l IH]; [reflexivity |].
  cbn [filter]. destruct (has_bank b r) eqn:E; cbn [negb filter].
  - destruct (has_bank b' r) eqn:E'; [| exact IH].
    unfold has_bank in E, E'. apply String.eqb_eq in E, E'. congruence.
  - destruct (has_bank b' r); [f_equal |]; exact IH.
Qed.

Lemma groups_rest (sel : list string) :
  NoDup sel ->
  forall l : list Doc,
  exists rest,
    Permutation l (flat_map (fun b => filter (has_bank b) l) sel ++ rest).
Proof.
  induction 1 as [| b sel Hnotin Hnd IH]; intros l; cbn.
  - exists l. apply Permutation_refl.
  - destruct (IH (filter (fun r => negb (has_bank b r)) l)) as [rest Hrest].
    exists rest. rewrite <- app_assoc.
    eapply Permutation_trans; [apply (filter_split_perm (has_bank b)) |].
    apply Permutation_app_head.
    eapply Permutation_trans; [exact Hrest |].
    apply Permutation_app_tail.
    erewrite flat_map_ext_in; [apply Permutation_refl |].
    intros b' Hin. cbn. apply has_bank_other. intros ->. contradiction.
Qed.

(** The selected records of an unhinted search are taken from the
    working set without repetition. *)
Lemma selection_rest (all : list Doc) (selected : list string) (k : Z) :
  NoDup selected ->
  (forall b, In b selected -> is_common_name b = false) ->
  exists rest,
    Permutation all
      ((slice_to (filter is_common all) k
        ++ flat_map (fun b => slice_to (filter (has_bank b) all) k) selected)
       ++ rest).
Proof.
  intros Hnd Hscoped.
  destruct (slice_to_rest (filter is_common all) k) as [r1 H1].
  destruct (groups_rest selected Hnd
              (filter (fun r => negb (is_common r)) all)) as [r2 H2].
  destruct (flat_map_rest
              (fun b => filter (has_bank b) all)
              (fun b => slice_to (filter (has_bank b) all) k) selected)
    as [r3 H3]; [intros; apply slice_to_rest |].
  exists (r1 ++ r3 ++ r2).
  rewrite (flat_map_ext_in
             (fun b => filter (has_bank b)
                         (filter (fun r => negb (is_common r)) all))
             (fun b => filter (has_bank b) all)) in H2
    by (intros b Hin; apply filter_scoped_bank, Hscoped, Hin).
  eapply Permutation_trans; [apply (filter_split_perm is_common) |].
  eapply Permutation_trans;
    [apply Permutation_app; [exact H1 | exact H2] |].
  eapply Permutation_trans;
    [apply Permutation_app_head, Permutation_app_tail; exact H3 |].
  rewrite <- !app_assoc. apply Permutation_app_head.
  apply Permutation_app_swap_app.
Qed.

(** X1. [retrieve] neither invents nor repeats a record.  Whatever it
    returns is, up to order, a part of the working set collected from the
    searched corpora: some records may be dropped, none is added and none
    is returned more often than it was found; and each returned record
    carries the name of a searched corpus. *)
Theorem retrieve_returns_part_of_working_set (corpora : list CorpusIndex)
    (question : string) (hint : option string) (k : option Z)
    (docs : list Doc) :
  result (retrieve corpora question hint k) = Ok docs ->
  exists all dropped,
    result (search_all (corpora_to_search corpora hint)
              (_encode_query question) (top_k_or_default k)) = Ok all
    /\ Permutation all (docs ++ dropped)
    /\ (forall r, In r docs -> In r all)
    /\ (forall r, In r docs ->
          exists c, In c (corpora_to_search corpora hint)
                    /\ bank r = name c).
Proof.
  intros Hres.
  destruct (retrieve_ok_cases _ _ _ _ _ Hres) as [all Hall].
  assert (Hsub : exists dropped, Permutation all (docs ++ dropped)).
  { destruct (truthy hint) eqn:Hb.
    - rewrite (retrieve_hinted _ _ _ _ Hb), Hall in Hres.
      injection Hres as <-.
      destruct (slice_to_rest (sort_desc score all)
                  (top_k_or_default k
                   * Z.of_nat (List.length (corpora_to_search corpora hint))))
        as [rest Hrest].
      exists rest.
      eapply Permutation_trans; [apply sort_desc_perm | exact Hrest].
    - destruct (retrieve_unhinted_members _ _ _ _ _ Hb Hall)
        as (selected & docs' & Hres' & _ & Hperm & Hnd & _ & Hsel & _).
      rewrite Hres' in Hres. injection Hres as ->.
      destruct (selection_rest (sort_desc score all) selected
                  (top_k_or_default k) Hnd) as [rest Hrest];
        [intros b Hin; apply (Hsel b Hin) |].
      exists rest.
      eapply Permutation_trans; [apply (sort_desc_perm score) |].
      eapply Permutation_trans; [exact Hrest |].
      apply Permutation_app_tail, Permutation_sym, Hperm. }
  destruct Hsub as [dropped Hperm].
  assert (Hin : forall r, In r docs -> In r all).
  { intros r Hr. eapply Permutation_in; [apply Permutation_sym, Hperm |].
    apply in_or_app. left. exact Hr. }
  exists all, dropped. split; [exact Hall |]. split; [exact Hperm |].
  split; [exact Hin |].
  intros r Hr.
  pose proof (search_all_bank _ _ _ _ Hall) as Hbank.
  rewrite Forall_forall in Hbank. apply Hbank, Hin, Hr.
Qed.

(** X2. The only errors of [retrieve] are those of the per-corpus
    searches.  It raises [e] exactly when searching the selected corpora
    raises [e]; ranking the banks ([max] over a group) and reading a
    selected bank's group ([bank_to_results[b]]) never raise. *)
Theorem retrieve_raises_iff_search_raises (corpora : list CorpusIndex)
    (question : string) (hint : option string) (k : option Z)
    (e : PyError) :
  result (retrieve corpora question hint k) = Raise e
  <-> result (search_all (corpora_to_search corpora hint)
                (_encode_query question) (top_k_or_default k)) = Raise e.
Proof.
  split; [| apply retrieve_search_raises].
  intros Hres.
  destruct (result (search_all (corpora_to_search corpora hint)
                      (_encode_query question) (top_k_or_default k)))
    as [all | e'] eqn:Hall.
  - destruct (truthy hint) eqn:Hb.
    + rewrite (retrieve_hinted _ _ _ _ Hb), Hall in Hres. discriminate.
    + destruct (retrieve_unhinted_members _ _ _ _ _ Hb Hall)
        as (selected & docs & Hres' & _).
      rewrite Hres' in Hres. discriminate.
  - rewrite (retrieve_search_raises _ _ _ _ _ Hall) in Hres. exact Hres.
Qed.
(** *** The working set of a search *)

Lemma search_all_concat (cs : list CorpusIndex) (q : Embedding) (k : Z)
    (all : list Doc) :
  result (search_all cs q k) = Ok all <->
  exists parts,
    Forall2 (fun c docs => result (_search_single_corpus c q k) = Ok docs)
            cs parts
    /\ all = List.concat parts.
Proof.
  revert all. induction cs as [| c cs IH]; intros all.
  - split.
    + intros H. injection H as <-. exists []. split; [constructor | reflexivity].
    + intros (parts & Hf & ->). inversion Hf. reflexivity.
  - cbn [search_all]. rewrite !result_bind.
    destruct (result (_search_single_corpus c q k)) as [d1 | e] eqn:E1.
    + rewrite !result_bind.
      destruct (result (search_all cs q k)) as [d2 | e] eqn:E2.
      * split.
        -- intros H. injection H as <-.
           destruct (proj1 (IH d2) eq_refl) as (parts & Hf & ->).
           exists (d1 :: parts). split; [constructor; assumption | reflexivity].
        -- intros (parts & Hf & ->). inversion Hf as [| ? d ? ps Hd Hps];
             subst. rewrite E1 in Hd. injection Hd as <-.
           assert (H2 : Ok d2 = Ok (List.concat ps))
             by (apply IH; exists ps; split; [exact Hps | reflexivity]).
           injection H2 as ->. reflexivity.
      * split; [discriminate |].
        intros (parts & Hf & ->). inversion Hf as [| ? d ? ps Hd Hps]; subst.
        assert (H2 : Raise e = Ok (List.concat ps))
          by (apply IH; exists ps; split; [exact Hps | reflexivity]).
        discriminate.
    + split; [discriminate |].
      intros (parts & Hf & ->). inversion Hf as [| ? d ? ps Hd Hps]; subst.
      rewrite E1 in Hd. discriminate.
Qed.

Lemma corpora_to_search_incl (corpora : list CorpusIndex)
    (hint : option string) (c : CorpusIndex) :
  In c (corpora_to_search corpora hint) -> In c corpora.
Proof.
  unfold corpora_to_search. cbv zeta.
  assert (Hopt : forall f, In c (option_list (find f corpora)) ->
                           In c corpora).
  { intros f H. destruct (find f corpora) as [c' |] eqn:E; [| destruct H].
    destruct H as [<- | []]. apply (find_some _ _ E). }
  destruct (truthy hint); intros H; apply in_app_or in H as [H | H].
  - exact (Hopt _ H).
  - exact (Hopt _ H).
  - exact (Hopt _ H).
  - apply filter_In in H. apply H.
Qed.

Lemma option_list_length {A} (o : option A) :
  (List.length (option_list o) <= 1)%nat.
Proof. destruct o; cbn; lia. Qed.

Lemma corpora_to_search_hinted_length (corpora : list CorpusIndex)
    (hint : option string) :
  truthy hint = true ->
  (List.length (corpora_to_search corpora hint) <= 2)%nat.
Proof.
  intros Hb. unfold corpora_to_search. cbv zeta. rewrite Hb, length_app.
  pose proof (option_list_length
                (find_bank corpora
                   (lower match hint with Some b => b | None => "" end))).
  pose proof (option_list_length (corpora_get corpora "common")).
  lia.
Qed.

Lemma retrieve_ok_of_search_ok (corpora : list CorpusIndex)
    (question : string) (hint : option string) (k : option Z)
    (all : list Doc) :
  result (search_all (corpora_to_search corpora hint)
            (_encode_query question) (top_k_or_default k)) = Ok all ->
  exists docs,
    result (retrieve corpora question hint k) = Ok docs
    /\ forall r, In r docs -> In r all.
Proof.
  intros Hall. destruct (truthy hint) eqn:Hb.
  - rewrite (retrieve_hinted _ _ _ _ Hb), Hall. eexists. split; [reflexivity |].
    intros r Hr. apply slice_to_incl in Hr.
    apply (proj1 (sort_desc_in score all r)) in Hr. exact Hr.
  - destruct (retrieve_unhinted_members _ _ _ _ _ Hb Hall)
      as (selected & docs & Hres & Hiff & _).
    exists docs. split; [exact Hres |].
    intros r Hr. apply Hiff in Hr as [Hr | (b & _ & Hr)];
      apply slice_to_incl, filter_In in Hr; destruct Hr as [Hr _];
      apply (proj1 (sort_desc_in score all r)) in Hr; exact Hr.
Qed.

Lemma Forall2_in_r {A B} (R : A -> B -> Prop) (l1 : list A) (l2 : list B)
    (y : B) :
  Forall2 R l1 l2 -> In y l2 -> exists x, In x l1 /\ R x y.
Proof.
  induction 1 as [| a b l1 l2 Hab _ IH]; intros Hin; [destruct Hin |].
  destruct Hin as [<- | Hin].
  - exists a. split; [left; reflexivity | exact Hab].
  - destruct (IH Hin) as (x & Hx & Hr). exists x. split; [right |]; assumption.
Qed.

Lemma Forall2_in_l {A B} (R : A -> B -> Prop) (l1 : list A) (l2 : list B)
    (x : A) :
  Forall2 R l1 l2 -> In x l1 -> exists y, In y l2 /\ R x y.
Proof.
  induction 1 as [| a b l1 l2 Hab _ IH]; intros Hin; [destruct Hin |].
  destruct Hin as [<- | Hin].
  - exists b. split; [left; reflexivity | exact Hab].
  - destruct (IH Hin) as (y & Hy & Hr). exists y. split; [right |]; assumption.
Qed.

Lemma Forall2_total {A B} (R : A -> B -> Prop) (l1 : list A) :
  (forall x, In x l1 -> exists y, R x y) ->
  exists l2, Forall2 R l1 l2.
Proof.
  induction l1 as [| a l1 IH]; intros H; [exists []; constructor |].
  destruct (H a (or_introl eq_refl)) as [b Hb].
  destruct IH as [l2 Hl2]; [intros; apply H; right; assumption |].
  exists (b :: l2). constructor; assumption.
Qed.

(** X3. On a well-formed store [retrieve] cannot fail.  When the arrays of
    every stored corpus are aligned, every metadata dict carries a
    chunk_id and every index answers the query with ids inside its corpus
    (or the sentinel), [retrieve] returns normally, and each returned
    record is the record built for a kept hit of a stored corpus: its
    raw_chunk is the stored chunk at the hit's id and its merged_text is
    the repaired text around it. *)
Theorem retrieve_succeeds_on_wellformed_store (corpora : list CorpusIndex)
    (question : string) (hint : option string) (k : option Z) :
  (forall c, In c corpora ->
     corpus_wf c /\
     exists hits,
       index c (_encode_query question) (top_k_or_default k) = Ok hits
       /\ Forall (hit_in_range c) hits) ->
  exists docs,
    result (retrieve corpora question hint k) = Ok docs
    /\ forall r, In r docs ->
         exists c hits h,
           In c (corpora_to_search corpora hint)
           /\ index c (_encode_query question) (top_k_or_default k) = Ok hits
           /\ In h (valid_hits hits)
           /\ hit_doc c h r.
Proof.
  intros Hstore.
  set (q := _encode_query question) in *.
  set (n := top_k_or_default k) in *.
  set (cs := corpora_to_search corpora hint).
  assert (Hpart : forall c, In c cs ->
            exists docs,
              result (_search_single_corpus c q n) = Ok docs
              /\ exists hits, index c q n = Ok hits
                   /\ Forall2 (hit_doc c) (valid_hits hits) docs).
  { intros c Hc. apply corpora_to_search_incl in Hc.
    destruct (Hstore c Hc) as (Hwf & hits & Hix & Hrange).
    destruct (search_hits_spec c hits Hwf Hrange) as (docs & Hres & Hf2 & _).
    exists docs. rewrite (search_single_corpus_run c q n hits Hix).
    split; [exact Hres |]. exists hits. split; [exact Hix | exact Hf2]. }
  destruct (Forall2_total
              (fun c docs =>
                 result (_search_single_corpus c q n) = Ok docs
                 /\ exists hits, index c q n = Ok hits
                      /\ Forall2 (hit_doc c) (valid_hits hits) docs)
              cs Hpart) as [parts Hparts].
  assert (Hall : result (search_all cs q n) = Ok (List.concat parts)).
  { apply search_all_concat. exists parts. split; [| reflexivity].
    eapply Forall2_impl; [| exact Hparts]. intros c d [H _]. exact H. }
  destruct (retrieve_ok_of_search_ok corpora question hint k _ Hall)
    as (docs & Hres & Hin).
  exists docs. split; [exact Hres |].
  intros r Hr. apply Hin, in_concat in Hr as (part & Hpartin & Hrpart).
  destruct (Forall2_in_r _ _ _ _ Hparts Hpartin)
    as (c & Hc & _ & hits & Hix & Hf2).
  destruct (Forall2_in_r _ _ _ _ Hf2 Hrpart) as (h & Hh & Hdoc).
  exists c, hits, h. auto.
Qed.

(** *** Sizes *)

Lemma slice_to_length {A} (l : list A) (k : Z) :
  0 <= k -> Z.of_nat (List.length (slice_to l k)) <= k.
Proof.
  intros Hk. rewrite slice_to_nonneg by exact Hk. rewrite length_firstn. lia.
Qed.

Lemma flat_map_length_le {A B} (f : A -> list B) (l : list A) (n : Z) :
  0 <= n ->
  (forall a, Z.of_nat (List.length (f a)) <= n) ->
  Z.of_nat (List.length (flat_map f l)) <= n * Z.of_nat (List.length l).
Proof.
  intros Hn Hf. induction l as [| a l IH]; cbn [flat_map List.length];
    [lia |].
  rewrite length_app. specialize (Hf a). nia.
Qed.

(** X4. The size of a result is bounded by the per-index budget.  For a
    non-negative top_k_per_index a hinted search returns at most
    top_k_per_index records per searched corpus, so at most twice
    top_k_per_index, and an unhinted one at most
    top_k_per_index * (1 + MAX_BANKS_WHEN_NO_BANK_SPECIFIED). *)
Theorem retrieve_result_size (corpora : list CorpusIndex)
    (question : string) (hint : option string) (k : option Z)
    (docs : list Doc) :
  0 <= top_k_or_default k ->
  result (retrieve corpora question hint k) = Ok docs ->
  (truthy hint = true ->
   Z.of_nat (List.length docs)
   <= top_k_or_default k
      * Z.of_nat (List.length (corpora_to_search corpora hint))
   /\ Z.of_nat (List.length docs) <= top_k_or_default k * 2)
  /\ (truthy hint = false ->
      Z.of_nat (List.length docs)
      <= top_k_or_default k * (1 + MAX_BANKS_WHEN_NO_BANK_SPECIFIED)).
Proof.
  intros Hk Hres.
  destruct (retrieve_ok_cases _ _ _ _ _ Hres) as [all Hall].
  split; intros Hb.
  - rewrite (retrieve_hinted _ _ _ _ Hb), Hall in Hres. injection Hres as <-.
    pose proof (corpora_to_search_hinted_length corpora hint Hb) as Hlen.
    pose proof (slice_to_length (sort_desc score all)
                  (top_k_or_default k
                   * Z.of_nat (List.length (corpora_to_search corpora hint))))
      as Hs.
    split; [apply Hs; nia |].
    etransitivity; [apply Hs; nia | nia].
  - destruct (retrieve_unhinted_members _ _ _ _ _ Hb Hall)
      as (selected & docs' & Hres' & _ & Hperm & _ & Hlen & _).
    rewrite Hres' in Hres. injection Hres as ->.
    rewrite (Permutation_length Hperm), length_app.
    pose proof (slice_to_length (filter is_common (sort_desc score all))
                  (top_k_or_default k) Hk) as H1.
    pose proof (flat_map_length_le
                  (fun b => slice_to (filter (has_bank b) (sort_desc score all))
                              (top_k_or_default k))
                  selected (top_k_or_default k) Hk
                  (fun b => slice_to_length _ _ Hk)) as H2.
    unfold MAX_BANKS_WHEN_NO_BANK_SPECIFIED. nia.
Qed.

Lemma concat_length_le {A B} (R : A -> list B -> Prop) (n : Z)
    (l1 : list A) (parts : list (list B)) :
  Forall2 R l1 parts ->
  (forall a p, In a l1 -> R a p -> Z.of_nat (List.length p) <= n) ->
  Z.of_nat (List.length (List.concat parts)) <= n * Z.of_nat (List.length l1).
Proof.
  induction 1 as [| a p l1 parts Hap _ IH]; intros Hn; cbn [List.concat List.length];
    [lia |].
  rewrite length_app.
  pose proof (Hn a p (or_introl eq_refl) Hap).
  assert (Z.of_nat (List.length (List.concat parts))
          <= n * Z.of_nat (List.length l1))
    by (apply IH; intros a' p' Hin; apply Hn; right; exact Hin).
  lia.
Qed.

Lemma slice_to_all {A} (l : list A) (k : Z) :
  Z.of_nat (List.length l) <= k -> slice_to l k = l.
Proof.
  intros H. rewrite slice_to_nonneg by lia. apply firstn_all2. lia.
Qed.

(** X5. The final cut of a hinted search never drops a record.  When each
    searched index answers with at most top_k_per_index hits (as FAISS
    does), the cap top_k_per_index * len(corpora_to_search) is not
    smaller than the working set, so the result is the whole working set
    in ranked order. *)
Theorem retrieve_hinted_keeps_every_hit (corpora : list CorpusIndex)
    (question : string) (hint : option string) (k : option Z)
    (all : list Doc) :
  truthy hint = true ->
  (forall c hits,
     In c (corpora_to_search corpora hint) ->
     index c (_encode_query question) (top_k_or_default k) = Ok hits ->
     Z.of_nat (List.length hits) <= top_k_or_default k) ->
  result (search_all (corpora_to_search corpora hint)
            (_encode_query question) (top_k_or_default k)) = Ok all ->
  result (retrieve corpora question hint k) = Ok (sort_desc score all)
  /\ Permutation all (sort_desc score all)
  /\ (ltb_asym -> ltb_negtrans ->
      StronglySorted (desc score) (sort_desc score all)).
Proof.
  intros Hb Hhits Hall.
  split; [| split; [apply sort_desc_perm | apply sort_desc_sorted]].
  rewrite (retrieve_hinted _ _ _ _ Hb), Hall. f_equal.
  apply slice_to_all.
  rewrite <- (Permutation_length (sort_desc_perm score all)).
  apply search_all_concat in Hall as (parts & Hparts & ->).
  apply (concat_length_le _ _ _ _ Hparts).
  intros c docs Hc Hdocs.
  unfold _search_single_corpus in Hdocs.
  rewrite result_bind, result_lift in Hdocs.
  destruct (index c (_encode_query question) (top_k_or_default k))
    as [hits | e] eqn:Hix; [| discriminate].
  pose proof (search_hits_length c hits docs Hdocs).
  specialize (Hhits c hits Hc Hix). lia.
Qed.
(** *** Corpus selection *)

Lemma find_ext_in {A} (f g : A -> bool) (l : list A) :
  (forall x, In x l -> f x = g x) -> find f l = find g l.
Proof.
  induction l as [| x l IH]; intros H; [reflexivity |].
  cbn [find]. rewrite (H x (or_introl eq_refl)).
  destruct (g x); [reflexivity |]. apply IH. intros; apply H; right; assumption.
Qed.

Lemma find_exists {A} (f : A -> bool) (l : list A) (x : A) :
  In x l -> f x = true -> exists y, find f l = Some y.
Proof.
  intros Hin Hf. destruct (find f l) as [y |] eqn:E; [eauto |].
  rewrite (find_none _ _ E x Hin) in Hf. discriminate.
Qed.

(** X6. A hint that names the shared corpus searches it twice.  When the
    lowered hint is "common" and the shared corpus is the only corpus
    whose lowered name is "common", the hinted branch resolves the hint
    to the shared corpus and then adds the shared corpus again; every
    record found there enters the working set twice, and is returned
    twice when the index answers with at most top_k_per_index hits. *)
Theorem retrieve_hint_names_shared_corpus (corpora : list CorpusIndex)
    (question hint : string) (k : option Z) (c : CorpusIndex) :
  hint <> "" ->
  lower hint = "common" ->
  corpora_get corpora "common" = Some c ->
  (forall c', In c' corpora -> is_common_name (name c') = true ->
              name c' = "common") ->
  corpora_to_search corpora (Some hint) = [c; c]
  /\ result (retrieve corpora question (Some hint) k)
     = match result (_search_single_corpus c (_encode_query question)
                       (top_k_or_default k)) with
       | Ok docs =>
           Ok (slice_to (sort_desc score (docs ++ docs))
                 (top_k_or_default k * 2))
       | Raise e => Raise e
       end
  /\ (forall docs,
        result (_search_single_corpus c (_encode_query question)
                  (top_k_or_default k)) = Ok docs ->
        Z.of_nat (List.length docs) <= top_k_or_default k ->
        result (retrieve corpora question (Some hint) k)
        = Ok (sort_desc score (docs ++ docs))).
Proof.
  intros Hh Hlow Hget Honly.
  assert (Hcs : corpora_to_search corpora (Some hint) = [c; c]).
  { rewrite (corpora_to_search_hinted corpora hint Hh), Hlow, Hget.
    unfold find_bank.
    rewrite (find_ext_in _ (fun c0 => (name c0 =? "common")%string)).
    - fold (corpora_get corpora "common"). rewrite Hget. reflexivity.
    - intros c' Hc'. fold (is_common_name (name c')).
      destruct (is_common_name (name c')) eqn:E.
      + rewrite (Honly c' Hc' E). reflexivity.
      + symmetry. apply String.eqb_neq. intros Hn.
        rewrite Hn in E. discriminate. }
  assert (Hres : result (retrieve corpora question (Some hint) k)
     = match result (_search_single_corpus c (_encode_query question)
                       (top_k_or_default k)) with
       | Ok docs =>
           Ok (slice_to (sort_desc score (docs ++ docs))
                 (top_k_or_default k * 2))
       | Raise e => Raise e
       end).
  { rewrite (retrieve_hinted _ _ _ _ (truthy_some hint Hh)), Hcs.
    cbn [search_all]. rewrite !result_bind.
    destruct (result (_search_single_corpus c (_encode_query question)
                        (top_k_or_default k))) as [docs | e] eqn:E;
      [| reflexivity].
    rewrite !result_bind, E. cbn. rewrite app_nil_r. reflexivity. }
  split; [exact Hcs |]. split; [exact Hres |].
  intros docs Hdocs Hlen. rewrite Hres, Hdocs. f_equal.
  apply slice_to_all.
  rewrite <- (Permutation_length (sort_desc_perm score (docs ++ docs))).
  rewrite length_app. lia.
Qed.

(** X7. Every name offered by [available_banks] is a usable hint.  The
    hinted branch of [retrieve] resolves it to a stored bank corpus with
    the same lowered name, never to the shared corpus and never to
    nothing; when lowered names are distinct in the store it is the
    corpus of that very name. *)
Theorem available_banks_resolve (corpora : list CorpusIndex) (b : string) :
  In b (available_banks corpora) ->
  exists c,
    find_bank corpora (lower b) = Some c
    /\ In c corpora
    /\ lower (name c) = lower b
    /\ is_common_name (name c) = false
    /\ (b <> "" ->
        corpora_to_search corpora (Some b)
        = c :: option_list (corpora_get corpora "common"))
    /\ ((forall c1 c2, In c1 corpora -> In c2 corpora ->
           lower (name c1) = lower (name c2) -> c1 = c2) ->
        name c = b).
Proof.
  unfold available_banks. intros Hb.
  apply filter_In in Hb as [Hin Hscoped].
  apply in_map_iff in Hin as (c0 & Hname & Hc0).
  apply negb_true_iff in Hscoped.
  destruct (find_exists (fun c => (lower (name c) =? lower b)%string)
              corpora c0 Hc0) as [c Hfind];
    [rewrite Hname; apply String.eqb_refl |].
  pose proof (find_some _ _ Hfind) as [Hc Hlow].
  apply String.eqb_eq in Hlow.
  exists c. split; [exact Hfind |]. split; [exact Hc |].
  split; [exact Hlow |].
  split; [unfold is_common_name in *; rewrite Hlow; exact Hscoped |].
  split.
  - intros Hne. rewrite (corpora_to_search_hinted corpora b Hne).
    unfold find_bank. rewrite Hfind. reflexivity.
  - intros Hinj. rewrite <- Hname. f_equal. apply Hinj; [assumption .. |].
    rewrite Hname. exact Hlow.
Qed.

(** *** The loader *)

Lemma dict_setitem_names (d : list CorpusIndex) (c : CorpusIndex) :
  map name (dict_setitem d c)
  = if existsb (fun n => (n =? name c)%string) (map name d)
    then map name d
    else map name d ++ [name c].
Proof.
  induction d as [| c' d IH]; [reflexivity |].
  cbn [dict_setitem map existsb].
  destruct (name c' =? name c)%string eqn:E; cbn [orb map].
  - apply String.eqb_eq in E. rewrite E. reflexivity.
  - rewrite IH.
    destruct (existsb (fun n => (n =? name c)%string) (map name d));
      reflexivity.
Qed.

Lemma existsb_name_in (n : string) (l : list string) :
  existsb (fun x => (x =? n)%string) l = true <-> In n l.
Proof.
  rewrite existsb_exists. split.
  - intros (x & Hx & E). apply String.eqb_eq in E. subst. exact Hx.
  - intros H. exists n. split; [exact H | apply String.eqb_refl].
Qed.

Lemma dict_setitem_nodup (d : list CorpusIndex) (c : CorpusIndex) :
  NoDup (map name d) -> NoDup (map name (dict_setitem d c)).
Proof.
  intros Hnd. rewrite dict_setitem_names.
  destruct (existsb (fun n => (n =? name c)%string) (map name d)) eqn:E;
    [exact Hnd |].
  apply NoDup_app; [exact Hnd | repeat constructor; intros [] |].
  intros n Hn [<- | []].
  apply existsb_name_in in Hn. congruence.
Qed.

Lemma dict_setitem_in (d : list CorpusIndex) (c c' : CorpusIndex) :
  In c' (dict_setitem d c) -> c' = c \/ In c' d.
Proof.
  induction d as [| c0 d IH]; cbn [dict_setitem].
  - intros [<- | []]. left. reflexivity.
  - destruct (name c0 =? name c)%string.
    + intros [<- | H]; [left; reflexivity | right; right; exact H].
    + intros [<- | H]; [right; left; reflexivity |].
      destruct (IH H) as [-> | H']; [left; reflexivity | right; right; exact H'].
Qed.

Lemma dict_setitem_fresh (d : list CorpusIndex) (c : CorpusIndex) :
  ~ In (name c) (map name d) -> dict_setitem d c = d ++ [c].
Proof.
  induction d as [| c0 d IH]; intros Hn; [reflexivity |].
  cbn [dict_setitem].
  destruct (name c0 =? name c)%string eqn:E.
  - apply String.eqb_eq in E. exfalso. apply Hn. left. exact E.
  - cbn [app]. f_equal. apply IH. intros H. apply Hn. right. exact H.
Qed.

Lemma load_entries_loaded (entries : list DirEntry) :
  forall acc,
    Forall loads entries ->
    load_entries entries acc = Ok (fold_left load_step entries acc).
Proof.
  induction entries as [| e entries IH]; intros acc Hall; [reflexivity |].
  inversion Hall as [| ? ? [o Ho] Hrest]; subst.
  cbn [load_entries fold_left]. unfold load_step, corpus_of_entry.
  rewrite Ho. destruct o as [c |]; apply IH; exact Hrest.
Qed.

Lemma load_entries_ok (entries : list DirEntry) :
  forall acc corpora,
    load_entries entries acc = Ok corpora -> Forall loads entries.
Proof.
  induction entries as [| e entries IH]; intros acc corpora H;
    [constructor |].
  cbn [load_entries] in H.
  destruct (load_corpus e) as [o | err] eqn:E; [| discriminate].
  constructor; [exists o; exact E |].
  destruct o as [c |]; exact (IH _ _ H).
Qed.

Lemma load_entries_raise (pre : list DirEntry) (e : DirEntry)
    (post : list DirEntry) (err : PyError) :
  forall acc,
    Forall loads pre ->
    load_corpus e = Raise err ->
    load_entries (pre ++ e :: post) acc = Raise err.
Proof.
  induction pre as [| x pre IH]; intros acc Hpre He.
  - cbn [app load_entries]. rewrite He. reflexivity.
  - inversion Hpre as [| ? ? [o Ho] Hrest]; subst.
    cbn [app load_entries]. rewrite Ho.
    destruct o as [c |]; apply IH; assumption.
Qed.

Lemma load_corpus_raise (e : DirEntry) (err : PyError) :
  load_corpus e = Raise err <->
  entry_is_dir e = true
  /\ exists read_index pickle_load,
       index_faiss e = Some read_index
       /\ metadata_pkl e = Some pickle_load
       /\ (read_index = Raise err
           \/ exists ix,
                read_index = Ok ix
                /\ (pickle_load = Raise err
                    \/ (pickle_load = Ok PickledOther /\ err = TypeError)
                    \/ exists cs ms,
                         pickle_load = Ok (PickledDict cs ms)
                         /\ (cs = None \/ ms = None)
                         /\ err = KeyError)).
Proof.
  unfold load_corpus, pickled_getitem.
  destruct (entry_is_dir e); cbn [negb].
  2:{ split; [discriminate | intros [H _]; discriminate]. }
  destruct (index_faiss e) as [ri |].
  2:{ split; [discriminate | intros (_ & ri & pl & H & _); discriminate]. }
  destruct (metadata_pkl e) as [pl |].
  2:{ split; [discriminate | intros (_ & ri' & pl & _ & H & _); discriminate]. }
  split.
  - intros H. split; [reflexivity |]. exists ri, pl.
    split; [reflexivity |]. split; [reflexivity |].
    destruct ri as [ix | e1]; [| left; injection H as <-; reflexivity].
    right. exists ix. split; [reflexivity |].
    destruct pl as [meta | e2]; [| left; injection H as <-; reflexivity].
    right. destruct meta as [cs ms |].
    + right. exists cs, ms. split; [reflexivity |].
      destruct cs as [cs |]; [| injection H as <-; auto].
      destruct ms as [ms |]; [discriminate | injection H as <-; auto].
    + left. injection H as <-. auto.
  - intros (_ & ri' & pl' & Hri & Hpl & H).
    injection Hri as <-. injection Hpl as <-.
    destruct H as [-> | (ix & -> & H)]; [reflexivity |].
    destruct H as [-> | [[-> ->] | (cs & ms & -> & Hmiss & ->)]];
      [reflexivity | reflexivity |].
    destruct cs as [cs |]; [| reflexivity].
    destruct Hmiss as [H | ->]; [discriminate | reflexivity].
Qed.

Lemma corpus_of_entry_name (e : DirEntry) (c : CorpusIndex) :
  corpus_of_entry e = Some c ->
  name c = entry_name e
  /\ entry_is_dir e = true
  /\ index_faiss e = Some (Ok (index c))
  /\ metadata_pkl e
     = Some (Ok (PickledDict (Some (chunks c)) (Some (metadatas c)))).
Proof.
  unfold corpus_of_entry, load_corpus, pickled_getitem.
  destruct (entry_is_dir e); cbn [negb]; [| discriminate].
  destruct (index_faiss e) as [[ix | e1] |]; try discriminate.
  - destruct (metadata_pkl e) as [[[[cs |] [ms |] |] | e2] |];
      try discriminate.
    intros H. injection H as <-. auto.
  - destruct (metadata_pkl e); discriminate.
Qed.

Lemma load_fold_spec (entries : list DirEntry) :
  forall acc,
    NoDup (map name acc) ->
    NoDup (map name (fold_left load_step entries acc))
    /\ (forall c, In c (fold_left load_step entries acc) ->
          In c acc \/ exists e, In e entries /\ corpus_of_entry e = Some c)
    /\ (forall n, In n (map name (fold_left load_step entries acc)) <->
          In n (map name acc)
          \/ exists e c, In e entries /\ corpus_of_entry e = Some c
                         /\ entry_name e = n)
    /\ (NoDup (map entry_name entries) ->
        (forall e, In e entries -> ~ In (entry_name e) (map name acc)) ->
        fold_left load_step entries acc
        = acc ++ flat_map (fun e => option_list (corpus_of_entry e)) entries).
Proof.
  induction entries as [| e entries IH]; intros acc Hnd.
  - cbn. split; [exact Hnd |]. split; [auto |]. split.
    + intros n. split; [auto |]. intros [H | (e & c & [] & _)]. exact H.
    + intros _ _. rewrite app_nil_r. reflexivity.
  - cbn [fold_left].
    assert (Hnd' : NoDup (map name (load_step acc e))).
    { unfold load_step. destruct (corpus_of_entry e);
        [apply dict_setitem_nodup |]; exact Hnd. }
    destruct (IH (load_step acc e) Hnd') as (H1 & H2 & H3 & H4).
    assert (Hnames : forall n, In n (map name (load_step acc e)) <->
              In n (map name acc)
              \/ exists c, corpus_of_entry e = Some c /\ entry_name e = n).
    { intros n. unfold load_step.
      destruct (corpus_of_entry e) as [c |] eqn:Ec.
      - destruct (corpus_of_entry_name e c Ec) as (Hn & _).
        rewrite dict_setitem_names.
        destruct (existsb (fun x => (x =? name c)%string) (map name acc))
          eqn:Ex.
        + apply existsb_name_in in Ex. split; [auto |].
          intros [H | (c' & _ & <-)]; [exact H |]. rewrite <- Hn. exact Ex.
        + rewrite in_app_iff. cbn [In]. split.
          * intros [H | [<- | []]]; [left; exact H |].
            right. exists c. auto.
          * intros [H | (c' & _ & <-)]; [left; exact H |].
            right. left. exact Hn.
      - split; [auto |]. intros [H | (c' & Hc' & _)];
          [exact H | discriminate]. }
    split; [exact H1 |]. split; [| split].
    + intros c Hc. destruct (H2 c Hc) as [Hacc | (e' & He' & Hce)].
      * unfold load_step in Hacc.
        destruct (corpus_of_entry e) as [c0 |] eqn:Ec; [| left; exact Hacc].
        apply dict_setitem_in in Hacc as [-> | Hacc];
          [right; exists e; split; [left; reflexivity | exact Ec]
          | left; exact Hacc].
      * right. exists e'. split; [right; exact He' | exact Hce].
    + intros n. rewrite H3, Hnames. split.
      * intros [[H | (c & Hc & Hn)] | (e' & c & He' & Hc & Hn)].
        -- left. exact H.
        -- right. exists e, c. split; [left; reflexivity | auto].
        -- right. exists e', c. split; [right; exact He' | auto].
      * intros [H | (e' & c & [<- | He'] & Hc & Hn)].
        -- left. left. exact H.
        -- left. right. exists c. auto.
        -- right. exists e', c. auto.
    + intros Hnde Hfresh. cbn [map] in Hnde. inversion Hnde as [| ? ? Hnotin Hnde'].
      subst. rewrite H4; [| exact Hnde' |].
      * cbn [flat_map]. rewrite app_assoc. f_equal.
        unfold load_step.
        destruct (corpus_of_entry e) as [c |] eqn:Ec;
          [| cbn; rewrite app_nil_r; reflexivity].
        cbn [option_list]. apply dict_setitem_fresh.
        destruct (corpus_of_entry_name e c Ec) as (-> & _).
        apply Hfresh. left. reflexivity.
      * intros e' He' Hin. apply Hnames in Hin as [Hin | (c & _ & Hn)].
        -- apply (Hfresh e' (or_intror He')). exact Hin.
        -- apply Hnotin. rewrite Hn. apply in_map. exact He'.
Qed.

(** X8. What the loader registers, and when it fails.  A missing
    storage directory raises FileNotFoundError.  An entry makes the
    loader fail exactly when it is a directory with both files and
    [faiss.read_index] raises, or [pickle.load] raises, or the unpickled
    object is not a dict (TypeError) or lacks "chunks" or "metadatas"
    (KeyError); the loader then raises the exception of the first such
    entry of the listing, and it succeeds exactly when there is none.
    When it succeeds the registry holds one corpus per name: names are
    pairwise distinct, a name is registered exactly when some listed
    entry of that name is a directory whose two files decode, every
    registered corpus carries the index and the two arrays of such an
    entry, and for a listing without repeated names the registry
    follows the listing order. *)
Theorem load_all_corpora_registry :
  _load_all_corpora None = Raise FileNotFoundError
  /\ (forall (e : DirEntry) (err : PyError),
        load_corpus e = Raise err <->
        entry_is_dir e = true
        /\ exists read_index pickle_load,
             index_faiss e = Some read_index
             /\ metadata_pkl e = Some pickle_load
             /\ (read_index = Raise err
                 \/ exists ix,
                      read_index = Ok ix
                      /\ (pickle_load = Raise err
                          \/ (pickle_load = Ok PickledOther
                              /\ err = TypeError)
                          \/ exists cs ms,
                               pickle_load = Ok (PickledDict cs ms)
                               /\ (cs = None \/ ms = None)
                               /\ err = KeyError)))
  /\ forall entries : list DirEntry,
       (forall pre e post err,
          entries = pre ++ e :: post ->
          Forall loads pre ->
          load_corpus e = Raise err ->
          _load_all_corpora (Some entries) = Raise err)
       /\ ((exists corpora, _load_all_corpora (Some entries) = Ok corpora)
           <-> Forall loads entries)
       /\ forall corpora,
            _load_all_corpora (Some entries) = Ok corpora ->
            NoDup (map name corpora)
            /\ (forall n, In n (map name corpora) <->
                  exists e c, In e entries /\ load_corpus e = Ok (Some c)
                              /\ entry_name e = n)
            /\ (forall c, In c corpora ->
                  exists e, In e entries
                    /\ entry_name e = name c
                    /\ entry_is_dir e = true
                    /\ index_faiss e = Some (Ok (index c))
                    /\ metadata_pkl e
                       = Some (Ok (PickledDict (Some (chunks c))
                                     (Some (metadatas c)))))
            /\ (NoDup (map entry_name entries) ->
                corpora
                = flat_map (fun e => option_list (corpus_of_entry e))
                    entries).
Proof.
  split; [reflexivity |]. split; [exact load_corpus_raise |].
  intros entries. split; [| split].
  - intros pre e post err -> Hpre He. cbn [_load_all_corpora].
    apply load_entries_raise; assumption.
  - split.
    + intros [corpora H]. exact (load_entries_ok _ _ _ H).
    + intros Hall. eexists. cbn [_load_all_corpora].
      apply load_entries_loaded. exact Hall.
  - intros corpora Hload. cbn [_load_all_corpora] in Hload.
    pose proof (load_entries_ok _ _ _ Hload) as Hall.
    rewrite (load_entries_loaded _ [] Hall) in Hload.
    injection Hload as <-.
    destruct (load_fold_spec entries [] (NoDup_nil _))
      as (H1 & H2 & H3 & H4).
    split; [exact H1 |]. split; [| split].
    + intros n. rewrite H3. cbn [map In]. unfold corpus_of_entry. split.
      * intros [[] | (e & c & He & Hc & Hn)]. exists e, c.
        split; [exact He |]. split; [| exact Hn].
        destruct (load_corpus e) as [[c' |] | err]; congruence.
      * intros (e & c & He & Hc & Hn). right. exists e, c.
        rewrite Hc. auto.
    + intros c Hc. destruct (H2 c Hc) as [[] | (e & He & Hce)].
      destruct (corpus_of_entry_name e c Hce) as (Hn & Hd & Hi & Hm).
      exists e. auto.
    + intros Hnd. apply (H4 Hnd). intros e _ [].
Qed.
(** *** Which banks an unhinted result represents *)

Lemma scoped_names_in (l : list Doc) (b : string) :
  In b (scoped_names l) <->
  exists r, In r l /\ is_common r = false /\ bank r = b.
Proof.
  unfold scoped_names. rewrite nodup_In, in_map_iff. split.
  - intros (r & Hb & Hr). apply filter_In in Hr as [Hr Hs].
    apply negb_true_iff in Hs. eauto.
  - intros (r & Hr & Hs & Hb). exists r. split; [exact Hb |].
    apply filter_In. split; [exact Hr |]. apply negb_true_iff. exact Hs.
Qed.

Lemma scoped_groups_length (all : list Doc) :
  List.length (bank_to_results
                 (filter (fun r => negb (is_common r)) (sort_desc score all)))
  = List.length (scoped_names all).
Proof.
  destruct (bank_to_results_spec
              (filter (fun r => negb (is_common r)) (sort_desc score all)))
    as (_ & Hnd & Hkeys).
  rewrite <- (length_map fst). apply Permutation_length.
  apply NoDup_Permutation;
    [exact Hnd | apply NoDup_nodup |].
  intros b. rewrite Hkeys, scoped_names_in. split.
  - intros (r & Hr & Hb). apply filter_In in Hr as [Hr Hs].
    apply negb_true_iff in Hs. apply sort_desc_in in Hr. eauto.
  - intros (r & Hr & Hs & Hb). exists r. split; [| exact Hb].
    apply filter_In. split; [apply sort_desc_in; exact Hr |].
    apply negb_true_iff. exact Hs.
Qed.

Lemma slice_to_head {A} (x : A) (l : list A) (k : Z) :
  1 <= k -> In x (slice_to (x :: l) k).
Proof.
  intros Hk. rewrite slice_to_nonneg by lia.
  destruct (Z.to_nat k) as [| n] eqn:E; [lia |]. left. reflexivity.
Qed.

Lemma filter_head {A} (f : A -> bool) (l : list A) (x : A) :
  In x l -> f x = true -> exists y tl, filter f l = y :: tl.
Proof.
  intros Hin Hf.
  destruct (filter f l) as [| y tl] eqn:E; [| eauto].
  assert (H : In x (filter f l)) by (apply filter_In; auto).
  rewrite E in H. destruct H.
Qed.

(** The first record of a group that was found is returned. *)
Lemma group_head_kept (f : Doc -> bool) (sorted : list Doc) (k : Z)
    (r : Doc) :
  1 <= k -> In r sorted -> f r = true ->
  exists g, In g (slice_to (filter f sorted) k) /\ f g = true
            /\ In g sorted.
Proof.
  intros Hk Hr Hf.
  destruct (filter_head f sorted r Hr Hf) as (g & tl & E).
  assert (Hg : In g (filter f sorted)) by (rewrite E; left; reflexivity).
  apply filter_In in Hg as [Hg1 Hg2].
  exists g. rewrite E. split; [apply slice_to_head; exact Hk | auto].
Qed.

(** X9. Which banks an unhinted result represents.  For a
    top_k_per_index of at least one, the scoped banks present in the
    result are exactly min(5, number of banks with a hit) banks that had
    a hit; when at most five banks had a hit each of them keeps a record;
    and the shared corpus keeps a record whenever it had a hit. *)
Theorem retrieve_unhinted_bank_coverage (corpora : list CorpusIndex)
    (question : string) (hint : option string) (k : option Z)
    (all : list Doc) :
  truthy hint = false ->
  1 <= top_k_or_default k ->
  result (search_all (corpora_to_search corpora hint)
            (_encode_query question) (top_k_or_default k)) = Ok all ->
  exists docs,
    result (retrieve corpora question hint k) = Ok docs
    /\ List.length (scoped_names docs)
       = Nat.min 5 (List.length (scoped_names all))
    /\ (forall b, In b (scoped_names docs) -> In b (scoped_names all))
    /\ ((List.length (scoped_names all) <= 5)%nat ->
        forall b, In b (scoped_names all) -> In b (scoped_names docs))
    /\ ((exists r, In r all /\ is_common r = true) ->
        exists r, In r docs /\ is_common r = true).
Proof.
  intros Hb Hk Hall.
  destruct (retrieve_unhinted_members _ _ _ _ _ Hb Hall)
    as (selected & docs & Hres & Hiff & _ & Hnd & Hlen & Hsel & Hcov & _).
  rewrite scoped_groups_length in Hlen.
  set (sorted := sort_desc score all) in *.
  assert (Hsub : forall b, In b selected -> In b (scoped_names all)).
  { intros b Hin. destruct (Hsel b Hin) as (Hs & r & Hr & Hbank).
    apply scoped_names_in. exists r. unfold is_common. rewrite Hbank. auto. }
  assert (Hnames : forall b, In b (scoped_names docs) <-> In b selected).
  { intros b. rewrite scoped_names_in. split.
    - intros (r & Hr & Hs & Hbank).
      apply Hiff in Hr as [Hr | (b' & Hb' & Hr)];
        apply slice_to_incl, filter_In in Hr; destruct Hr as [_ Hr].
      + congruence.
      + unfold has_bank in Hr. apply String.eqb_eq in Hr. congruence.
    - intros Hin. destruct (Hsel b Hin) as (Hs & r & Hr & Hbank).
      destruct (group_head_kept (has_bank b) sorted (top_k_or_default k) r Hk)
        as (g & Hg & Hgb & _).
      + apply sort_desc_in. exact Hr.
      + unfold has_bank. rewrite Hbank. apply String.eqb_refl.
      + unfold has_bank in Hgb. apply String.eqb_eq in Hgb.
        exists g. split; [apply Hiff; right; exists b; auto |].
        unfold is_common. rewrite Hgb. auto. }
  exists docs. split; [exact Hres |].
  split.
  { rewrite <- Hlen. apply Permutation_length.
    apply NoDup_Permutation; [apply NoDup_nodup | exact Hnd | exact Hnames]. }
  split; [intros b Hin; apply Hsub, Hnames, Hin |].
  split.
  { intros Hfew. apply (NoDup_length_incl (NoDup_nodup _ _)).
    - rewrite (Permutation_length
                 (NoDup_Permutation (NoDup_nodup _ _) Hnd Hnames)).
      rewrite Hlen. lia.
    - intros b Hin. apply Hsub, Hnames, Hin. }
  intros (r & Hr & Hc).
  destruct (group_head_kept is_common sorted (top_k_or_default k) r Hk)
    as (g & Hg & Hgc & _); [apply sort_desc_in; exact Hr | exact Hc |].
  exists g. split; [apply Hiff; left; exact Hg | exact Hgc].
Qed.

(** *** The best record *)

Lemma sorted_filter_head {A} (R : A -> A -> Prop) (f : A -> bool)
    (l : list A) (g : A) (tl : list A) :
  StronglySorted R l -> filter f l = g :: tl ->
  forall x, In x l -> f x = true -> x = g \/ R g x.
Proof.
  induction 1 as [| a l Hs IH Hall]; cbn [filter]; [discriminate |].
  destruct (f a) eqn:Ea.
  - intros E x [<- | Hx] Hfx.
    + left. congruence.
    + right. injection E as <- _. rewrite Forall_forall in Hall. auto.
  - intros E x [<- | Hx] Hfx; [congruence |]. apply IH; assumption.
Qed.

Lemma sorted_firstn {A} (R : A -> A -> Prop) (n : nat) (l : list A) :
  StronglySorted R l -> StronglySorted R (firstn n l).
Proof.
  revert n. induction l as [| x l IH]; intros n H;
    [rewrite firstn_nil; constructor |].
  destruct n as [| n]; [constructor |]. cbn [firstn].
  inversion H as [| ? ? Hs Hf]; subst.
  constructor; [apply IH; exact Hs |].
  rewrite Forall_forall in *. intros y Hy. apply Hf.
  rewrite <- (firstn_skipn n l). apply in_or_app. left. exact Hy.
Qed.

(** X10. The first returned record carries the best score of the whole
    working set.  Whenever some corpus had a hit and top_k_per_index is
    at least one, the result is not empty and no record found anywhere
    scores higher than its first record, with or without a hint. *)
Theorem retrieve_first_record_is_best (corpora : list CorpusIndex)
    (question : string) (hint : option string) (k : option Z)
    (all : list Doc) :
  1 <= top_k_or_default k ->
  ltb_asym -> ltb_negtrans ->
  result (search_all (corpora_to_search corpora hint)
            (_encode_query question) (top_k_or_default k)) = Ok all ->
  all <> [] ->
  exists top rest,
    result (retrieve corpora question hint k) = Ok (top :: rest)
    /\ In top all
    /\ forall r, In r all -> score_ltb (score top) (score r) = false.
Proof.
  intros Hk Ha Hn Hall Hne.
  set (sorted := sort_desc score all).
  pose proof (sort_desc_sorted score all Ha Hn) as Hsorted.
  fold sorted in Hsorted.
  assert (Hin : forall r, In r sorted <-> In r all)
    by (intros r; apply sort_desc_in).
  destruct sorted as [| r0 tl] eqn:Es.
  { destruct all as [| a all']; [congruence |].
    destruct (proj2 (Hin a) (or_introl eq_refl)). }
  assert (Hbest : forall r, In r all -> score_ltb (score r0) (score r) = false).
  { intros r Hr. apply Hin in Hr as [<- | Hr]; [apply (ltb_irrefl Ha) |].
    inversion Hsorted as [| ? ? _ Hfa]; subst.
    rewrite Forall_forall in Hfa. apply Hfa, Hr. }
  assert (Hkept : exists docs t,
            result (retrieve corpora question hint k) = Ok docs
            /\ StronglySorted (desc score) docs
            /\ (forall r, In r docs -> In r all)
            /\ In t docs
            /\ score_ltb (score t) (score r0) = false).
  { destruct (truthy hint) eqn:Hb.
    - eexists _, r0. rewrite (retrieve_hinted _ _ _ _ Hb), Hall.
      fold sorted. rewrite Es.
      split; [reflexivity |].
      assert (Hcs : (1 <= List.length (corpora_to_search corpora hint))%nat).
      { destruct (corpora_to_search corpora hint); [| cbn; lia].
        cbn in Hall. injection Hall as <-. congruence. }
      destruct (slice_to_firstn (r0 :: tl)
                  (top_k_or_default k
                   * Z.of_nat (List.length (corpora_to_search corpora hint))))
        as [n Hslice].
      split.
      { rewrite Hslice. apply sorted_firstn. exact Hsorted. }
      split.
      { intros r Hr. apply slice_to_incl in Hr. apply Hin. exact Hr. }
      split; [apply slice_to_head; nia | apply (ltb_irrefl Ha)].
    - destruct (retrieve_unhinted_run corpora question hint k all Hb Hall)
        as (scores & _ & Hrun).
      destruct (retrieve_unhinted_members _ _ _ _ _ Hb Hall)
        as (selected & docs & Hres & Hiff & _ & _ & _ & Hsel & Hcov & Hsc).
      fold sorted in Hiff. rewrite Es in Hiff.
      assert (Hdocs : StronglySorted (desc score) docs).
      { cbv zeta in Hrun. rewrite Hrun in Hres. injection Hres as <-.
        apply sort_desc_sorted; assumption. }
      assert (Hsub : forall r, In r docs -> In r all).
      { intros r Hr. apply Hiff in Hr as [Hr | (b & _ & Hr)];
          apply slice_to_incl, filter_In in Hr; destruct Hr as [Hr _];
          apply Hin; exact Hr. }
      assert (Hr0 : In r0 all) by (apply Hin; left; reflexivity).
      assert (Hg : forall f : Doc -> bool, f r0 = true ->
                 In r0 (slice_to (filter f (r0 :: tl)) (top_k_or_default k))).
      { intros f Hf. cbn [filter]. rewrite Hf. apply slice_to_head, Hk. }
      destruct (is_common r0) eqn:Hc.
      { exists docs, r0. split; [exact Hres |]. split; [exact Hdocs |].
        split; [exact Hsub |].
        split; [apply Hiff; left; apply Hg, Hc | apply (ltb_irrefl Ha)]. }
      destruct (in_dec string_dec (bank r0) selected) as [Hyes | Hno].
      { exists docs, r0. split; [exact Hres |]. split; [exact Hdocs |].
        split; [exact Hsub |]. split; [| apply (ltb_irrefl Ha)].
        apply Hiff. right. exists (bank r0). split; [exact Hyes |].
        apply Hg. unfold has_bank. apply String.eqb_refl. }
      destruct (Hcov r0 Hr0 Hc) as [Hyes | Hfive]; [contradiction |].
      destruct selected as [| b sel]; [discriminate |].
      destruct (Hsc Ha Hn r0 Hr0 Hc Hno b (or_introl eq_refl))
        as (r & Hr & Hbank & Hge).
      destruct (filter_head (has_bank b) (r0 :: tl) r) as (g & gtl & Eg);
        [apply Hin; exact Hr
        | unfold has_bank; rewrite Hbank; apply String.eqb_refl |].
      exists docs, g. split; [exact Hres |]. split; [exact Hdocs |].
      split; [exact Hsub |]. split.
      + apply Hiff. right. exists b. split; [left; reflexivity |].
        rewrite Eg. apply slice_to_head, Hk.
      + destruct (sorted_filter_head (desc score) (has_bank b) (r0 :: tl)
                    g gtl Hsorted Eg r) as [-> | Hgr];
          [apply Hin; exact Hr
          | unfold has_bank; rewrite Hbank; apply String.eqb_refl
          | exact Hge |].
        exact (Hn _ _ _ Hgr Hge). }
  destruct Hkept as (docs & t & Hres & Hdocs & Hsub & Ht & Hge).
  destruct docs as [| top rest]; [destruct Ht |].
  exists top, rest. split; [exact Hres |].
  split; [apply Hsub; left; reflexivity |].
  assert (Htop : score_ltb (score top) (score t) = false).
  { destruct Ht as [<- | Ht]; [apply (ltb_irrefl Ha) |].
    inversion Hdocs as [| ? ? _ Hfa]; subst.
    rewrite Forall_forall in Hfa. apply Hfa, Ht. }
  intros r Hr. apply (Hn _ (score r0)); [| apply Hbest, Hr].
  exact (Hn _ _ _ Htop Hge).
Qed.
(** *** When nothing is dropped *)

Lemma groups_exact (sel : list string) :
  NoDup sel ->
  forall l : list Doc,
    (forall r, In r l -> In (bank r) sel) ->
    Permutation l (flat_map (fun b => filter (has_bank b) l) sel).
Proof.
  induction 1 as [| b sel Hnotin Hnd IH]; intros l Hl.
  - destruct l as [| r l]; [constructor | destruct (Hl r (or_introl eq_refl))].
  - cbn [flat_map].
    eapply Permutation_trans; [apply (filter_split_perm (has_bank b)) |].
    apply Permutation_app_head.
    eapply Permutation_trans; [apply IH |].
    + intros r Hr. apply filter_In in Hr as [Hr Hnb].
      destruct (Hl r Hr) as [E | Hin]; [| exact Hin].
      unfold has_bank in Hnb. rewrite <- E, String.eqb_refl in Hnb.
      discriminate.
    + erewrite flat_map_ext_in; [apply Permutation_refl |].
      intros b' Hin. cbn. apply has_bank_other. intros ->. contradiction.
Qed.

Lemma filter_length_perm {A} (f : A -> bool) (l l' : list A) :
  Permutation l l' ->
  List.length (filter f l) = List.length (filter f l').
Proof.
  induction 1 as [| x l l' _ IH | x y l | l l' l'' _ IH1 _ IH2];
    cbn [filter].
  - reflexivity.
  - destruct (f x); cbn [List.length]; congruence.
  - destruct (f x), (f y); reflexivity.
  - congruence.
Qed.

(** X11. An unhinted search that stays within its budgets returns the
    whole working set.  When at most five banks had a hit, and the shared
    corpus and every bank contributed at most top_k_per_index records,
    no record is dropped: the result is the working set reordered. *)
Theorem retrieve_unhinted_keeps_everything (corpora : list CorpusIndex)
    (question : string) (hint : option string) (k : option Z)
    (all : list Doc) :
  truthy hint = false ->
  result (search_all (corpora_to_search corpora hint)
            (_encode_query question) (top_k_or_default k)) = Ok all ->
  (List.length (scoped_names all) <= 5)%nat ->
  Z.of_nat (List.length (filter is_common all)) <= top_k_or_default k ->
  (forall b, Z.of_nat (List.length (filter (has_bank b) all))
             <= top_k_or_default k) ->
  exists docs,
    result (retrieve corpora question hint k) = Ok docs
    /\ Permutation docs all.
Proof.
  intros Hb Hall Hfew Hcommon Hbanks.
  destruct (retrieve_unhinted_members _ _ _ _ _ Hb Hall)
    as (selected & docs & Hres & _ & Hperm & Hnd & Hlen & Hsel & _).
  rewrite scoped_groups_length in Hlen.
  set (sorted := sort_desc score all) in *.
  pose proof (sort_desc_perm score all) as Hsorted. fold sorted in Hsorted.
  exists docs. split; [exact Hres |].
  eapply Permutation_trans; [exact Hperm |].
  eapply Permutation_trans; [| apply Permutation_sym, Hsorted].
  rewrite slice_to_all
    by (rewrite <- (filter_length_perm is_common _ _ Hsorted); exact Hcommon).
  rewrite (flat_map_ext_in
             (fun b => slice_to (filter (has_bank b) sorted)
                         (top_k_or_default k))
             (fun b => filter (has_bank b)
                         (filter (fun r => negb (is_common r)) sorted))).
  2:{ intros b Hin. rewrite slice_to_all.
      - symmetry. apply filter_scoped_bank, (Hsel b Hin).
      - rewrite <- (filter_length_perm (has_bank b) _ _ Hsorted).
        apply Hbanks. }
  apply Permutation_sym.
  eapply Permutation_trans; [apply (filter_split_perm is_common) |].
  apply Permutation_app_head.
  apply (groups_exact selected Hnd).
  intros r Hr. apply filter_In in Hr as [Hr Hs].
  apply negb_true_iff in Hs. apply sort_desc_in in Hr.
  assert (Hincl : incl (scoped_names all) selected).
  { apply (NoDup_length_incl Hnd); [rewrite Hlen; lia |].
    intros b Hin. destruct (Hsel b Hin) as (Hsb & r' & Hr' & Hbank).
    apply scoped_names_in. exists r'. unfold is_common. rewrite Hbank. auto. }
  apply Hincl, scoped_names_in. exists r. auto.
Qed.

(** ** Properties of the chunker *)

Lemma chunk_loop_more_fuel (fuel : nat) (text : string)
    (chunk_size overlap : Z) :
  forall start acc chunks fuel',
    chunk_loop fuel text chunk_size overlap start acc = Some chunks ->
    (fuel <= fuel')%nat ->
    chunk_loop fuel' text chunk_size overlap start acc = Some chunks.
Proof.
  induction fuel as [| fuel IH]; intros start acc chunks fuel' H Hle;
    [discriminate |].
  destruct fuel' as [| fuel']; [lia |].
  cbn [chunk_loop] in *.
  destruct (start <? Z.of_nat (String.length text)); [| exact H].
  apply (IH _ _ _ _ H). lia.
Qed.

Lemma chunk_loop_windows (text : string) (chunk_size overlap : Z) :
  forall (n : nat) (start : Z) (acc : list string) (fuel : nat),
    (forall j, (j < n)%nat ->
       start + Z.of_nat j * (chunk_size - overlap)
       < Z.of_nat (String.length text)) ->
    Z.of_nat (String.length text)
    <= start + Z.of_nat n * (chunk_size - overlap) ->
    (n < fuel)%nat ->
    chunk_loop fuel text chunk_size overlap start acc
    = Some (acc ++ filter (fun c => negb (c =? "")%string)
                     (map (fun i => window text chunk_size
                                      (start + Z.of_nat i
                                               * (chunk_size - overlap)))
                          (seq 0 n))).
Proof.
  induction n as [| n IH]; intros start acc fuel Hin Hlen Hfuel.
  - destruct fuel as [| fuel]; [lia |]. cbn [chunk_loop].
    assert (E : (start <? Z.of_nat (String.length text)) = false)
      by (apply Z.ltb_ge; lia).
    rewrite E. cbn. rewrite app_nil_r. reflexivity.
  - destruct fuel as [| fuel]; [lia |]. cbn [chunk_loop].
    assert (E : (start <? Z.of_nat (String.length text)) = true).
    { apply Z.ltb_lt. pose proof (Hin 0%nat (Nat.lt_0_succ n)). lia. }
    rewrite E. rewrite IH; [| | lia | lia].
    + f_equal. cbn [seq map filter]. rewrite <- seq_shift, map_map.
      replace (start + Z.of_nat 0 * (chunk_size - overlap)) with start
        by lia.
      rewrite (map_ext
                 (fun i => window text chunk_size
                             (start + (chunk_size - overlap)
                              + Z.of_nat i * (chunk_size - overlap)))
                 (fun i => window text chunk_size
                             (start + Z.of_nat (S i)
                                      * (chunk_size - overlap))))
        by (intros i; f_equal; lia).
      fold (window text chunk_size start).
      destruct (String.eqb (window text chunk_size start) "");
        cbn [negb]; [reflexivity |].
      rewrite <- app_assoc. reflexivity.
    + intros j Hj. pose proof (Hin (S j) (proj1 (Nat.succ_lt_mono j n) Hj)). lia.
Qed.

Lemma window_count_spec (text : string) (step : Z) :
  0 < step ->
  (forall j, (j < window_count text step)%nat ->
     Z.of_nat j * step < Z.of_nat (String.length text))
  /\ Z.of_nat (String.length text)
     <= Z.of_nat (window_count text step) * step.
Proof.
  intros Hstep. unfold window_count.
  set (len := Z.of_nat (String.length text)).
  assert (Hlen : 0 <= len) by (unfold len; lia).
  assert (Hnz : step <> 0) by lia.
  pose proof (Z.div_mod (len + step - 1) step Hnz) as Hdm.
  pose proof (Z.mod_pos_bound (len + step - 1) step Hstep) as Hmod.
  assert (Hq : 0 <= (len + step - 1) / step)
    by (apply Z.div_pos; lia).
  rewrite Z2Nat.id by exact Hq.
  split; [| nia].
  intros j Hj.
  assert (Z.of_nat j < (len + step - 1) / step) by lia.
  nia.
Qed.

(** *** Slices and stripping *)

Lemma str_take_drop (n : nat) (s : string) :
  (str_take n s ++ str_drop n s)%string = s.
Proof.
  revert s. induction n as [| n IH]; intros s; [reflexivity |].
  destruct s as [| c s]; [reflexivity |]. cbn. rewrite IH. reflexivity.
Qed.

Lemma str_take_length_le (n : nat) (s : string) :
  (String.length (str_take n s) <= n)%nat.
Proof.
  revert s. induction n as [| n IH]; intros s; [cbn; lia |].
  destruct s as [| c s]; cbn; [lia |]. specialize (IH s). lia.
Qed.

Lemma str_slice_substring (s : string) (a b : Z) :
  substring_of (str_slice s a b) s.
Proof.
  unfold str_slice. cbv zeta.
  set (lo := Z.to_nat (slice_bound (Z.of_nat (String.length s)) a)).
  set (n := Z.to_nat (slice_bound (Z.of_nat (String.length s)) b
                      - slice_bound (Z.of_nat (String.length s)) a)).
  exists (str_take lo s), (str_drop n (str_drop lo s)).
  rewrite str_take_drop, str_take_drop. reflexivity.
Qed.

Lemma str_slice_length (s : string) (a n : Z) :
  0 <= a -> 0 <= n ->
  Z.of_nat (String.length (str_slice s a (a + n))) <= n.
Proof.
  intros Ha Hn. unfold str_slice. cbv zeta.
  pose proof (str_take_length_le
                (Z.to_nat (slice_bound (Z.of_nat (String.length s)) (a + n)
                           - slice_bound (Z.of_nat (String.length s)) a))
                (str_drop (Z.to_nat (slice_bound (Z.of_nat (String.length s))
                                       a)) s)) as H.
  unfold slice_bound in *.
  destruct (a + n <? 0) eqn:E1; [apply Z.ltb_lt in E1; lia |].
  destruct (a <? 0) eqn:E2; [apply Z.ltb_lt in E2; lia |].
  lia.
Qed.

Lemma lstrip_suffix (s : string) : exists pre, s = (pre ++ lstrip s)%string.
Proof.
  induction s as [| c s [pre IH]]; [exists ""; reflexivity |].
  cbn [lstrip]. destruct (is_space c).
  - exists (String c pre). cbn. rewrite <- IH. reflexivity.
  - exists "". reflexivity.
Qed.

Lemma rstrip_prefix (s : string) : exists post, s = (rstrip s ++ post)%string.
Proof.
  induction s as [| c s [post IH]]; [exists ""; reflexivity |].
  cbn [rstrip]. destruct (rstrip s) as [| c' t] eqn:E.
  - destruct (is_space c).
    + exists (String c s). reflexivity.
    + exists post. cbn. rewrite IH at 1. reflexivity.
  - exists post. cbn. rewrite IH at 1. reflexivity.
Qed.

Lemma strip_substring (s : string) : substring_of (strip s) s.
Proof.
  unfold strip. destruct (lstrip_suffix s) as [pre Hpre].
  destruct (rstrip_prefix (lstrip s)) as [post Hpost].
  exists pre, post. rewrite <- Hpost. exact Hpre.
Qed.

Lemma string_length_app (a b : string) :
  String.length (a ++ b) = (String.length a + String.length b)%nat.
Proof.
  induction a as [| c a IH]; [reflexivity |]. cbn. rewrite IH. reflexivity.
Qed.

Lemma substring_of_length (a b : string) :
  substring_of a b -> (String.length a <= String.length b)%nat.
Proof.
  intros (pre & post & ->). rewrite !string_length_app. lia.
Qed.

Lemma substring_of_trans (a b c : string) :
  substring_of a b -> substring_of b c -> substring_of a c.
Proof.
  intros (p1 & q1 & ->) (p2 & q2 & ->).
  exists (p2 ++ p1)%string, (q1 ++ q2)%string.
  rewrite !string_app_assoc. reflexivity.
Qed.

Lemma lstrip_head (s : string) : head_space (lstrip s) = false.
Proof.
  induction s as [| c s IH]; [reflexivity |].
  cbn [lstrip]. destruct (is_space c) eqn:E; [exact IH | cbn; exact E].
Qed.

Lemma rstrip_head (s : string) :
  head_space s = false -> head_space (rstrip s) = false.
Proof.
  destruct s as [| c s]; [reflexivity |]. cbn [head_space rstrip].
  intros E. destruct (rstrip s); [rewrite E |]; cbn; exact E.
Qed.

Lemma rstrip_last (s : string) : last_space (rstrip s) = false.
Proof.
  induction s as [| c s IH]; [reflexivity |].
  cbn [rstrip]. destruct (rstrip s) as [| c' t] eqn:E.
  - destruct (is_space c) eqn:Ec; [reflexivity | cbn; exact Ec].
  - cbn [last_space]. exact IH.
Qed.

Lemma lstrip_fixed (s : string) : head_space s = false -> lstrip s = s.
Proof.
  destruct s as [| c s]; [reflexivity |]. cbn. intros ->. reflexivity.
Qed.

Lemma rstrip_fixed (s : string) : last_space s = false -> rstrip s = s.
Proof.
  induction s as [| c s IH]; [reflexivity |].
  cbn [last_space rstrip]. destruct s as [| c' s'].
  - intros ->. reflexivity.
  - intros H. rewrite (IH H). reflexivity.
Qed.

Lemma strip_ends (s : string) :
  head_space (strip s) = false /\ last_space (strip s) = false.
Proof.
  unfold strip. split; [apply rstrip_head, lstrip_head | apply rstrip_last].
Qed.

Lemma strip_idempotent (s : string) : strip (strip s) = strip s.
Proof.
  destruct (strip_ends s) as [Hh Hl]. unfold strip at 1.
  rewrite (lstrip_fixed _ Hh). apply rstrip_fixed, Hl.
Qed.

Lemma all_space_lstrip (s : string) :
  all_chars is_space s = true -> lstrip s = "".
Proof.
  induction s as [| c s IH]; [reflexivity |]. cbn.
  intros H. apply andb_true_iff in H as [-> H]. exact (IH H).
Qed.

Lemma all_chars_take (P : ascii -> bool) (n : nat) (s : string) :
  all_chars P s = true -> all_chars P (str_take n s) = true.
Proof.
  revert s. induction n as [| n IH]; intros s H; [reflexivity |].
  destruct s as [| c s]; [reflexivity |]. cbn in *.
  apply andb_true_iff in H as [-> H]. exact (IH s H).
Qed.

Lemma all_chars_drop (P : ascii -> bool) (n : nat) (s : string) :
  all_chars P s = true -> all_chars P (str_drop n s) = true.
Proof.
  revert s. induction n as [| n IH]; intros s H; [exact H |].
  destruct s as [| c s]; [reflexivity |]. cbn in *.
  apply andb_true_iff in H as [_ H]. exact (IH s H).
Qed.

Lemma all_chars_slice (P : ascii -> bool) (s : string) (a b : Z) :
  all_chars P s = true -> all_chars P (str_slice s a b) = true.
Proof.
  intros H. unfold str_slice. apply all_chars_take, all_chars_drop, H.
Qed.

(** *** The loop *)

Lemma chunk_loop_runs (text : string) (chunk_size overlap : Z) :
  forall (fuel : nat) (start : Z) (acc : list string),
    (forall j, (j < fuel)%nat ->
       start + Z.of_nat j * (chunk_size - overlap)
       < Z.of_nat (String.length text)) ->
    chunk_loop fuel text chunk_size overlap start acc = None.
Proof.
  induction fuel as [| fuel IH]; intros start acc Hin; [reflexivity |].
  cbn [chunk_loop].
  assert (E : (start <? Z.of_nat (String.length text)) = true).
  { apply Z.ltb_lt. pose proof (Hin 0%nat (Nat.lt_0_succ fuel)). lia. }
  rewrite E. apply IH. intros j Hj.
  pose proof (Hin (S j) (proj1 (Nat.succ_lt_mono j fuel) Hj)). lia.
Qed.

Lemma chunk_text_enough_fuel (text : string) (chunk_size overlap : Z)
    (fuel : nat) :
  overlap < chunk_size ->
  (window_count text (chunk_size - overlap) < fuel)%nat ->
  chunk_text fuel text chunk_size overlap
  = Some (windows text chunk_size overlap).
Proof.
  intros Hstep Hfuel.
  assert (Hpos : 0 < chunk_size - overlap) by lia.
  destruct (window_count_spec text (chunk_size - overlap) Hpos) as [Hin Hlen].
  unfold chunk_text.
  rewrite (chunk_loop_windows text chunk_size overlap
             (window_count text (chunk_size - overlap)) 0 [] fuel);
    [reflexivity | | lia | exact Hfuel].
  intros j Hj. specialize (Hin j Hj). lia.
Qed.

(** X12. When the overlap is smaller than the chunk size, [chunk_text]
    stops after exactly ceil(len(text) / (chunk_size - overlap)) windows
    and returns, in order, the stripped windows that start at 0, step,
    2 * step, ... and are not blank. *)
Theorem chunk_text_returns_windows (text : string) (chunk_size overlap : Z)
    (fuel : nat) :
  overlap < chunk_size ->
  ((window_count text (chunk_size - overlap) < fuel)%nat ->
   chunk_text fuel text chunk_size overlap
   = Some (windows text chunk_size overlap))
  /\ ((fuel <= window_count text (chunk_size - overlap))%nat ->
      chunk_text fuel text chunk_size overlap = None).
Proof.
  intros Hstep.
  assert (Hpos : 0 < chunk_size - overlap) by lia.
  destruct (window_count_spec text (chunk_size - overlap) Hpos) as [Hin Hlen].
  split; intros Hfuel.
  - apply chunk_text_enough_fuel; assumption.
  - unfold chunk_text. apply chunk_loop_runs. intros j Hj.
    assert (Hj' : (j < window_count text (chunk_size - overlap))%nat) by lia.
    specialize (Hin j Hj'). lia.
Qed.

Lemma chunk_text_diverges_aux (text : string) (chunk_size overlap : Z)
    (fuel : nat) :
  chunk_size <= overlap ->
  text <> "" ->
  chunk_text fuel text chunk_size overlap = None.
Proof.
  intros Hstep Hne. unfold chunk_text. apply chunk_loop_runs.
  intros j _. destruct text as [| c text]; [congruence |].
  cbn [String.length]. nia.
Qed.

(** X13. When the overlap is not smaller than the chunk size, [chunk_text]
    never returns on a non-empty text: the start position does not
    advance, so the loop is still running after any number of steps. *)
Theorem chunk_text_diverges (text : string) (chunk_size overlap : Z) :
  chunk_size <= overlap ->
  text <> "" ->
  forall fuel, chunk_text fuel text chunk_size overlap = None.
Proof.
  intros Hstep Hne fuel. unfold chunk_text. apply chunk_loop_runs.
  intros j _. destruct text as [| c text]; [congruence |].
  cbn [String.length].
  assert (Hj : Z.of_nat j * (chunk_size - overlap) <= 0) by nia.
  lia.
Qed.

Lemma chunk_text_cases (text : string) (chunk_size overlap : Z)
    (fuel : nat) (chunks : list string) :
  chunk_text fuel text chunk_size overlap = Some chunks ->
  (text = "" /\ chunks = [])
  \/ (overlap < chunk_size /\ chunks = windows text chunk_size overlap).
Proof.
  intros H. destruct (Z_lt_le_dec overlap chunk_size) as [Hlt | Hge].
  - right. split; [exact Hlt |].
    assert (Hpos : 0 < chunk_size - overlap) by lia.
    destruct (window_count_spec text (chunk_size - overlap) Hpos)
      as [Hin Hlen].
    set (n := window_count text (chunk_size - overlap)) in *.
    assert (H1 : chunk_text (Nat.max fuel (S n)) text chunk_size overlap
                 = Some chunks)
      by (apply (chunk_loop_more_fuel fuel); [exact H | lia]).
    unfold chunk_text in H1.
    rewrite (chunk_loop_windows text chunk_size overlap n 0 []) in H1;
      [injection H1 as <-; reflexivity | | lia | lia].
    intros j Hj. specialize (Hin j Hj). lia.
  - left. destruct text as [| c text].
    + split; [reflexivity |]. destruct fuel as [| fuel]; [discriminate |].
      cbn in H. injection H as <-. reflexivity.
    + rewrite chunk_text_diverges_aux in H; [discriminate | exact Hge |].
      discriminate.
Qed.

Lemma windows_in (text : string) (chunk_size overlap : Z) (c : string) :
  overlap < chunk_size ->
  In c (windows text chunk_size overlap) ->
  c <> ""
  /\ exists start,
       0 <= start < Z.of_nat (String.length text)
       /\ c = window text chunk_size start.
Proof.
  intros Hstep Hin. unfold windows in Hin.
  apply filter_In in Hin as [Hin Hne].
  apply in_map_iff in Hin as (i & <- & Hi). apply in_seq in Hi.
  split.
  - intros E. rewrite E in Hne. discriminate.
  - exists (Z.of_nat i * (chunk_size - overlap)). split; [| reflexivity].
    assert (Hpos : 0 < chunk_size - overlap) by lia.
    destruct (window_count_spec text (chunk_size - overlap) Hpos) as [Hw _].
    assert (Hi' : (i < window_count text (chunk_size - overlap))%nat) by lia.
    specialize (Hw i Hi'). nia.
Qed.

Lemma chunk_text_stripped (text : string) (chunk_size overlap : Z)
    (fuel : nat) (chunks : list string) :
  chunk_text fuel text chunk_size overlap = Some chunks ->
  Forall (fun c => c <> "" /\ strip c = c) chunks.
Proof.
  intros H.
  destruct (chunk_text_cases _ _ _ _ _ H) as [[-> ->] | [Hstep ->]];
    [constructor |].
  apply Forall_forall. intros c Hc.
  destruct (windows_in _ _ _ _ Hstep Hc) as (Hne & start & _ & ->).
  split; [exact Hne | apply strip_idempotent].
Qed.

(** X14. What a chunk is.  Whenever [chunk_text] returns, every chunk is
    a non-empty piece of the text with no whitespace at either end, so
    stripping it again changes nothing; for a non-negative chunk size it
    is at most chunk_size characters long; there are at most len(text)
    chunks; and a text of whitespace only (or an empty one) gives no
    chunk at all. *)
Theorem chunk_text_chunks (text : string) (chunk_size overlap : Z)
    (fuel : nat) (chunks : list string) :
  chunk_text fuel text chunk_size overlap = Some chunks ->
  Forall (fun c =>
            c <> ""
            /\ strip c = c
            /\ head_space c = false
            /\ last_space c = false
            /\ substring_of c text
            /\ (0 <= chunk_size ->
                Z.of_nat (String.length c) <= chunk_size))
         chunks
  /\ (List.length chunks <= String.length text)%nat
  /\ (all_chars is_space text = true -> chunks = []).
Proof.
  intros H.
  destruct (chunk_text_cases _ _ _ _ _ H) as [[-> ->] | [Hstep ->]].
  { split; [constructor |]. split; [cbn; lia | reflexivity]. }
  split; [| split].
  - apply Forall_forall. intros c Hc.
    destruct (windows_in _ _ _ _ Hstep Hc) as (Hne & start & Hs & ->).
    unfold window in *.
    destruct (strip_ends (str_slice text start (start + chunk_size)))
      as [Hh Hl].
    split; [exact Hne |]. split; [apply strip_idempotent |].
    split; [exact Hh |]. split; [exact Hl |]. split.
    + eapply substring_of_trans;
        [apply strip_substring | apply str_slice_substring].
    + intros Hcs.
      pose proof (substring_of_length _ _
                    (strip_substring
                       (str_slice text start (start + chunk_size)))).
      pose proof (str_slice_length text start chunk_size (proj1 Hs) Hcs).
      lia.
  - unfold windows.
    etransitivity; [apply filter_length_le |].
    rewrite length_map, length_seq.
    assert (Hpos : 0 < chunk_size - overlap) by lia.
    destruct (window_count_spec text (chunk_size - overlap) Hpos) as [Hw _].
    destruct (window_count text (chunk_size - overlap)) as [| n]; [lia |].
    specialize (Hw n (Nat.lt_succ_diag_r n)). nia.
  - intros Hall. unfold windows.
    destruct (filter _ _) as [| c l] eqn:E; [reflexivity |].
    assert (Hc : In c (c :: l)) by (left; reflexivity).
    rewrite <- E in Hc. apply filter_In in Hc as [Hc Hne].
    apply in_map_iff in Hc as (i & <- & _).
    unfold window, strip in Hne.
    rewrite all_space_lstrip in Hne by (apply all_chars_slice, Hall).
    discriminate.
Qed.

(** *** Chunking without overlap *)

Lemma str_drop_nil (n : nat) : str_drop n "" = "".
Proof. destruct n; reflexivity. Qed.

Lemma str_take_nil (n : nat) : str_take n "" = "".
Proof. destruct n; reflexivity. Qed.

Lemma str_drop_length (n : nat) (s : string) :
  String.length (str_drop n s) = (String.length s - n)%nat.
Proof.
  revert s. induction n as [| n IH]; intros s; [cbn; lia |].
  destruct s as [| c s]; [reflexivity |]. cbn. apply IH.
Qed.

Lemma str_take_all (n : nat) (s : string) :
  (String.length s <= n)%nat -> str_take n s = s.
Proof.
  revert s. induction n as [| n IH]; intros s H.
  - destruct s; [reflexivity | cbn in H; lia].
  - destruct s as [| c s]; [reflexivity |]. cbn in *.
    rewrite IH by lia. reflexivity.
Qed.

Lemma str_drop_all (n : nat) (s : string) :
  (String.length s <= n)%nat -> str_drop n s = "".
Proof.
  revert s. induction n as [| n IH]; intros s H.
  - destruct s; [reflexivity | cbn in H; lia].
  - destruct s as [| c s]; [reflexivity |]. cbn in *. apply IH. lia.
Qed.

Lemma str_take_add (n m : nat) (s : string) :
  (str_take n s ++ str_take m (str_drop n s))%string = str_take (n + m) s.
Proof.
  revert s. induction n as [| n IH]; intros s; [reflexivity |].
  destruct s as [| c s]; cbn.
  - rewrite str_take_nil. destruct (n + m)%nat; reflexivity.
  - rewrite IH. reflexivity.
Qed.

Lemma str_slice_nonneg (s : string) (a n : Z) :
  0 <= a -> 0 <= n ->
  str_slice s a (a + n)
  = str_take (Z.to_nat n) (str_drop (Z.to_nat a) s).
Proof.
  intros Ha Hn. unfold str_slice, slice_bound. cbv zeta.
  assert (E1 : (a <? 0) = false) by (apply Z.ltb_ge; lia).
  assert (E2 : (a + n <? 0) = false) by (apply Z.ltb_ge; lia).
  rewrite E1, E2.
  set (len := Z.of_nat (String.length s)).
  destruct (Z_lt_le_dec a len) as [Hlt | Hge].
  - rewrite (Z.min_l a len) by lia.
    destruct (Z_le_gt_dec (a + n) len) as [Hle | Hgt].
    + rewrite (Z.min_l (a + n) len) by lia. f_equal. lia.
    + rewrite (Z.min_r (a + n) len) by lia.
      rewrite !str_take_all; [reflexivity | |];
        rewrite str_drop_length; unfold len in *; lia.
  - rewrite (Z.min_r a len), (Z.min_r (a + n) len) by lia.
    rewrite Z.sub_diag. cbn [Z.to_nat str_take].
    rewrite (str_drop_all (Z.to_nat a)) by (unfold len in *; lia).
    rewrite str_take_nil. reflexivity.
Qed.

Lemma join_empty_cons (x : string) (xs : list string) :
  join "" (x :: xs) = (x ++ join "" xs)%string.
Proof.
  unfold join. destruct xs as [| y ys]; cbn;
    [rewrite string_app_nil_r |]; reflexivity.
Qed.

Lemma join_empty_app (l1 l2 : list string) :
  join "" (l1 ++ l2) = (join "" l1 ++ join "" l2)%string.
Proof.
  induction l1 as [| x l1 IH]; [reflexivity |].
  cbn [app]. rewrite !join_empty_cons, IH, string_app_assoc. reflexivity.
Qed.

Lemma join_empty_filter (l : list string) :
  join "" (filter (fun c => negb (c =? "")%string) l) = join "" l.
Proof.
  induction l as [| x l IH]; [reflexivity |].
  cbn [filter]. destruct (x =? "")%string eqn:E; cbn [negb].
  - apply String.eqb_eq in E. subst. rewrite join_empty_cons. exact IH.
  - rewrite !join_empty_cons, IH. reflexivity.
Qed.

Lemma raw_windows_join (s : string) (c : nat) (n : nat) :
  join "" (map (fun i => str_take c (str_drop (i * c) s)) (seq 0 n))
  = str_take (n * c) s.
Proof.
  induction n as [| n IH]; [reflexivity |].
  rewrite seq_S, map_app, join_empty_app, IH. cbn [map Nat.add].
  rewrite join_empty_cons. cbn [join String.concat].
  rewrite string_app_nil_r, str_take_add. f_equal. lia.
Qed.

Lemma no_space_ends (s : string) :
  all_chars (fun c => negb (is_space c)) s = true ->
  head_space s = false /\ last_space s = false.
Proof.
  induction s as [| c s IH]; [split; reflexivity |].
  cbn [all_chars head_space last_space]. intros H.
  apply andb_true_iff in H as [Hc H]. apply negb_true_iff in Hc.
  split; [exact Hc |]. destruct s; [exact Hc | apply (IH H)].
Qed.

Lemma no_space_strip (s : string) :
  all_chars (fun c => negb (is_space c)) s = true -> strip s = s.
Proof.
  intros H. destruct (no_space_ends s H) as [Hh Hl].
  unfold strip. rewrite (lstrip_fixed s Hh). apply rstrip_fixed, Hl.
Qed.

(** X15. Chunking without overlap splits the text.  For a positive chunk
    size and overlap 0 the windows read by [chunk_text] are consecutive
    pieces whose concatenation is the text; the chunks are these pieces
    stripped, without the blank ones; and when the text has no
    whitespace at all, concatenating the chunks gives the text back. *)
Theorem chunk_text_no_overlap_partition (text : string) (chunk_size : Z)
    (fuel : nat) (chunks : list string) :
  0 < chunk_size ->
  chunk_text fuel text chunk_size 0 = Some chunks ->
  exists pieces,
    join "" pieces = text
    /\ Forall (fun p => Z.of_nat (String.length p) <= chunk_size) pieces
    /\ chunks = filter (fun c => negb (c =? "")%string) (map strip pieces)
    /\ (all_chars (fun c => negb (is_space c)) text = true ->
        join "" chunks = text).
Proof.
  intros Hcs H.
  destruct (chunk_text_cases _ _ _ _ _ H) as [[-> ->] | [_ ->]].
  { exists []. repeat split; constructor. }
  set (c := Z.to_nat chunk_size).
  set (n := window_count text (chunk_size - 0)).
  set (pieces := map (fun i => str_take c (str_drop (i * c) text)) (seq 0 n)).
  assert (Hw : forall i, window text chunk_size (Z.of_nat i * (chunk_size - 0))
                         = strip (str_take c (str_drop (i * c) text))).
  { intros i. unfold window. rewrite str_slice_nonneg by lia.
    unfold c. do 3 f_equal. lia. }
  assert (Hjoin : join "" pieces = text).
  { unfold pieces. rewrite raw_windows_join. apply str_take_all.
    assert (Hpos : 0 < chunk_size - 0) by lia.
    destruct (window_count_spec text (chunk_size - 0) Hpos) as [_ Hlen].
    fold n in Hlen. unfold c. nia. }
  assert (Hchunks : windows text chunk_size 0
                    = filter (fun c => negb (c =? "")%string)
                        (map strip pieces)).
  { unfold windows, pieces. fold n. rewrite map_map. f_equal.
    apply map_ext. exact Hw. }
  exists pieces. split; [exact Hjoin |]. split; [| split].
  - apply Forall_forall. intros p Hp. unfold pieces in Hp.
    apply in_map_iff in Hp as (i & <- & _).
    pose proof (str_take_length_le c (str_drop (i * c) text)).
    unfold c in *. lia.
  - exact Hchunks.
  - intros Hns. rewrite Hchunks, join_empty_filter.
    transitivity (join "" pieces); [| exact Hjoin]. f_equal.
    transitivity (map (fun p : string => p) pieces); [| apply map_id].
    apply map_ext_in.
    intros p Hp. apply no_space_strip.
    unfold pieces in Hp. apply in_map_iff in Hp as (i & <- & _).
    apply all_chars_take, all_chars_drop, Hns.
Qed.

(** ** Properties of the index builder *)

Lemma enumerate_from_spec {A} (l : list A) :
  forall i, enumerate_from i l
            = combine (map (fun j => i + Z.of_nat j) (seq 0 (List.length l))) l.
Proof.
  induction l as [| x l IH]; intros i; [reflexivity |].
  cbn [enumerate_from List.length seq map combine].
  rewrite IH, <- seq_shift, map_map. f_equal; [f_equal; lia |].
  f_equal. apply map_ext. intros j. lia.
Qed.

Lemma append_chunks_from (folder_name filename : string)
    (file_chunks : list string) :
  forall (i : Z) (all : list string * list BuiltMeta),
    fold_left
      (fun acc ic =>
         (fst acc ++ [snd ic],
          snd acc ++ [{| built_source_file := filename;
                         built_chunk_id := fst ic;
                         built_folder := folder_name |}]))
      (enumerate_from i file_chunks) all
    = (fst all ++ file_chunks,
       snd all ++ map (fun j => {| built_source_file := filename;
                                   built_chunk_id := i + Z.of_nat j;
                                   built_folder := folder_name |})
                      (seq 0 (List.length file_chunks))).
Proof.
  induction file_chunks as [| x l IH]; intros i all.
  - cbn. rewrite !app_nil_r. destruct all; reflexivity.
  - cbn [enumerate_from fold_left List.length seq map fst snd].
    rewrite IH. cbn [fst snd]. rewrite <- !app_assoc. cbn [app].
    f_equal. f_equal. f_equal; [f_equal; lia |].
    rewrite <- seq_shift, map_map. apply map_ext. intros j. f_equal. lia.
Qed.

Lemma append_chunks_spec (folder_name filename : string)
    (all : list string * list BuiltMeta) (file_chunks : list string) :
  append_chunks folder_name filename all file_chunks
  = (fst all ++ file_chunks,
     snd all ++ file_metas folder_name filename (List.length file_chunks)).
Proof.
  unfold append_chunks, enumerate. rewrite append_chunks_from.
  reflexivity.
Qed.

(** The result of the builder's loop, file by file. *)
Lemma build_files_spec (fuel : nat) (read_pdf_text : string -> string)
    (chunk_size overlap : Z) (folder_name : string) :
  forall (filenames : list string) (all built : list string * list BuiltMeta),
    build_files fuel read_pdf_text chunk_size overlap folder_name filenames
      all = Some built ->
    exists per_file : list (list string),
      Forall2 (fun f cs =>
                 chunk_text fuel (read_pdf_text f) chunk_size overlap = Some cs)
              (pdf_files filenames) per_file
      /\ fst built = fst all ++ List.concat per_file
      /\ snd built
         = snd all
           ++ List.concat
                (map (fun fc => file_metas folder_name (fst fc)
                                  (List.length (snd fc)))
                     (combine (pdf_files filenames) per_file)).
Proof.
  induction filenames as [| f rest IH]; intros all built H.
  - cbn in H. injection H as <-. exists []. cbn. rewrite !app_nil_r.
    split; [constructor | split; reflexivity].
  - cbn [build_files] in H. unfold pdf_files. cbn [filter].
    fold (pdf_files rest).
    destruct (endswith (lower f) ".pdf") eqn:E; cbn [negb] in H.
    + destruct (chunk_text fuel (read_pdf_text f) chunk_size overlap)
        as [cs |] eqn:Ec; [| discriminate].
      destruct (IH _ _ H) as (per_file & Hf & H1 & H2).
      rewrite append_chunks_spec in H1, H2. cbn [fst snd] in H1, H2.
      exists (cs :: per_file). split; [constructor; assumption |].
      cbn [List.concat combine map fst snd].
      rewrite H1, H2, <- !app_assoc. split; reflexivity.
    + exact (IH _ _ H).
Qed.

Lemma build_files_enough_fuel (fuel : nat) (read_pdf_text : string -> string)
    (chunk_size overlap : Z) (folder_name : string) :
  overlap < chunk_size ->
  forall (filenames : list string) (all : list string * list BuiltMeta),
    (forall f, In f (pdf_files filenames) ->
       (window_count (read_pdf_text f) (chunk_size - overlap) < fuel)%nat) ->
    build_files fuel read_pdf_text chunk_size overlap folder_name filenames all
    = Some (fst all
            ++ flat_map (fun f => windows (read_pdf_text f) chunk_size overlap)
                 (pdf_files filenames),
            snd all
            ++ flat_map
                 (fun f => file_metas folder_name f
                             (List.length
                                (windows (read_pdf_text f) chunk_size overlap)))
                 (pdf_files filenames)).
Proof.
  intros Hstep. induction filenames as [| f rest IH]; intros all Hfuel.
  - cbn. rewrite !app_nil_r. destruct all; reflexivity.
  - cbn [build_files]. unfold pdf_files in *. cbn [filter] in *.
    destruct (endswith (lower f) ".pdf") eqn:E; cbn [negb].
    + rewrite (chunk_text_enough_fuel _ _ _ _ Hstep
                 (Hfuel f (or_introl eq_refl))).
      rewrite IH by (intros f' Hf'; apply Hfuel; right; exact Hf').
      rewrite append_chunks_spec. cbn [fst snd flat_map].
      rewrite <- !app_assoc. reflexivity.
    + apply IH. exact Hfuel.
Qed.

(** X16. What the builder produces for a folder.  A missing data folder
    gives an empty corpus.  Otherwise, when the overlap is smaller than
    the chunk size, only the files whose lowered name ends in ".pdf"
    contribute, in listing order: the chunks are the chunks of each file
    one after the other, and the metadata dicts name the file and number
    its chunks 0, 1, 2, ... *)
Theorem build_corpus_for_folder_result (fuel : nat)
    (read_pdf_text : string -> string) (chunk_size overlap : Z)
    (folder_name : string) :
  build_corpus_for_folder fuel read_pdf_text chunk_size overlap folder_name
    None = Some ([], [])
  /\ forall filenames : list string,
       overlap < chunk_size ->
       (forall f, In f (pdf_files filenames) ->
          (window_count (read_pdf_text f) (chunk_size - overlap) < fuel)%nat) ->
       build_corpus_for_folder fuel read_pdf_text chunk_size overlap
         folder_name (Some filenames)
       = Some (flat_map
                 (fun f => windows (read_pdf_text f) chunk_size overlap)
                 (pdf_files filenames),
               flat_map
                 (fun f => file_metas folder_name f
                             (List.length
                                (windows (read_pdf_text f) chunk_size
                                   overlap)))
                 (pdf_files filenames)).
Proof.
  split; [reflexivity |]. intros filenames Hstep Hfuel.
  unfold build_corpus_for_folder.
  rewrite (build_files_enough_fuel fuel read_pdf_text chunk_size overlap
             folder_name Hstep filenames ([], []) Hfuel).
  reflexivity.
Qed.

(** *** The shape of the metadata array *)

Lemma chained_any (folder_name filename : string) (n : nat)
    (prev : option BuiltMeta) :
  chained prev (file_metas folder_name filename n).
Proof.
  unfold file_metas.
  assert (H : forall (start : nat) (prev : option BuiltMeta),
            (start = 0%nat
             \/ exists p, prev = Some p /\ built_source_file p = filename
                          /\ built_chunk_id p = Z.of_nat start - 1) ->
            chained prev
              (map (fun i => {| built_source_file := filename;
                                built_chunk_id := Z.of_nat i;
                                built_folder := folder_name |})
                   (seq start n))).
  { induction n as [| n IH]; intros start prev' Hs; [exact I |].
    cbn [seq map chained built_chunk_id built_source_file].
    split; [| split; [lia |]].
    - destruct Hs as [-> | (p & Hp & Hf & Hid)]; [left; reflexivity |].
      right. exists p. split; [exact Hp |]. split; [symmetry; exact Hf | lia].
    - apply IH. right. eexists. split; [reflexivity |].
      cbn [built_chunk_id built_source_file]. split; [reflexivity | lia]. }
  apply H. left. reflexivity.
Qed.

Lemma chained_app (l1 l2 : list BuiltMeta) :
  forall prev,
    chained prev l1 -> (forall q, chained q l2) -> chained prev (l1 ++ l2).
Proof.
  induction l1 as [| m l1 IH]; intros prev H1 H2; [apply H2 |].
  cbn [app chained] in *. destruct H1 as (Ha & Hb & Hc).
  split; [exact Ha |]. split; [exact Hb |]. apply IH; assumption.
Qed.

Lemma chained_concat (blocks : list (list BuiltMeta)) :
  Forall (fun b => forall q, chained q b) blocks ->
  forall q, chained q (List.concat blocks).
Proof.
  induction 1 as [| b blocks Hb _ IH]; intros q; [exact I |].
  cbn [List.concat]. apply chained_app; [apply Hb | exact IH].
Qed.

Lemma chained_nth (l : list BuiltMeta) :
  forall prev, chained prev l ->
  forall j m, nth_error l j = Some m ->
    0 <= built_chunk_id m
    /\ (built_chunk_id m = 0
        \/ exists p,
             match j with O => prev | S j' => nth_error l j' end = Some p
             /\ built_source_file m = built_source_file p
             /\ built_chunk_id m = built_chunk_id p + 1).
Proof.
  induction l as [| x l IH]; intros prev H j m Hj.
  - destruct j; discriminate.
  - cbn [chained] in H. destruct H as (Ha & Hb & Hc).
    destruct j as [| j].
    + cbn in Hj. injection Hj as <-. split; [exact Hb | exact Ha].
    + cbn [nth_error] in Hj. destruct (IH _ Hc j m Hj) as [H0 H1].
      split; [exact H0 |]. destruct H1 as [H1 | (p & Hp & Hf & Hid)];
        [left; exact H1 |].
      right. exists p. split; [| auto].
      destruct j as [| j']; [exact Hp | exact Hp].
Qed.

Lemma build_corpus_shape (fuel : nat) (read_pdf_text : string -> string)
    (chunk_size overlap : Z) (folder_name : string)
    (listing : option (list string)) (built : list string * list BuiltMeta) :
  build_corpus_for_folder fuel read_pdf_text chunk_size overlap folder_name
    listing = Some built ->
  List.length (snd built) = List.length (fst built)
  /\ chained None (snd built)
  /\ Forall (fun c => c <> "" /\ strip c = c) (fst built)
  /\ Forall (fun m => built_folder m = folder_name
                      /\ exists filenames,
                           listing = Some filenames
                           /\ In (built_source_file m) (pdf_files filenames))
            (snd built).
Proof.
  unfold build_corpus_for_folder. destruct listing as [filenames |].
  2:{ intros H. injection H as <-. cbn.
      split; [reflexivity |]. split; [exact I |]. split; constructor. }
  intros H. destruct (build_files_spec _ _ _ _ _ _ _ _ H)
    as (per_file & Hf & H1 & H2).
  cbn [fst snd app] in H1, H2. rewrite H1, H2. clear H1 H2 H.
  assert (Hlen : List.length (pdf_files filenames) = List.length per_file)
    by (eapply Forall2_length; exact Hf).
  split; [| split; [| split]].
  - clear Hf. revert per_file Hlen.
    induction (pdf_files filenames) as [| f fs IH]; intros [| cs per] Hlen;
      try discriminate; [reflexivity |].
    cbn [combine map List.concat fst snd]. rewrite !length_app.
    unfold file_metas at 1. rewrite length_map, length_seq.
    f_equal. apply IH. cbn in Hlen. lia.
  - apply chained_concat. apply Forall_forall. intros b Hb.
    apply in_map_iff in Hb as ([f cs] & <- & _). intros q.
    apply chained_any.
  - apply Forall_forall. intros c Hc.
    apply in_concat in Hc as (cs & Hcs & Hc).
    destruct (Forall2_in_r _ _ _ _ Hf Hcs) as (f & _ & Hchunk).
    pose proof (chunk_text_stripped _ _ _ _ _ Hchunk) as Hall.
    rewrite Forall_forall in Hall. exact (Hall c Hc).
  - apply Forall_forall. intros m Hm.
    apply in_concat in Hm as (b & Hb & Hm).
    apply in_map_iff in Hb as ([f cs] & <- & Hfc).
    apply in_combine_l in Hfc. unfold file_metas in Hm.
    apply in_map_iff in Hm as (i & <- & _). cbn.
    split; [reflexivity |]. exists filenames. auto.
Qed.

(** *** A built corpus in the engine *)

Lemma nth_error_map_built (metas : list BuiltMeta) (j : nat) :
  nth_error (map meta_of_built metas) j
  = option_map meta_of_built (nth_error metas j).
Proof. apply nth_error_map. Qed.

(** X17. A corpus made by the builder is well-formed for the engine.  The
    chunks and the metadata dicts are aligned, every dict carries a
    chunk_id and the folder name and names a PDF of the listing, every
    chunk is non-empty and stripped, and chunk ids restart at 0 with each
    file and count up by one inside it. *)
Theorem built_corpus_wellformed (fuel : nat)
    (read_pdf_text : string -> string) (chunk_size overlap : Z)
    (folder_name : string) (listing : option (list string))
    (built_chunks : list string) (built_metas : list BuiltMeta) :
  build_corpus_for_folder fuel read_pdf_text chunk_size overlap folder_name
    listing = Some (built_chunks, built_metas) ->
  List.length built_metas = List.length built_chunks
  /\ chained None built_metas
  /\ Forall (fun c => c <> "" /\ strip c = c) built_chunks
  /\ Forall (fun m => built_folder m = folder_name
                      /\ exists filenames,
                           listing = Some filenames
                           /\ In (built_source_file m) (pdf_files filenames))
            built_metas
  /\ forall (nm : string) (ix : Embedding -> Z -> Res (list (Dist * Z))),
       corpus_wf {| name := nm; index := ix; chunks := built_chunks;
                    metadatas := map meta_of_built built_metas |}.
Proof.
  intros H. destruct (build_corpus_shape _ _ _ _ _ _ _ H)
    as (Hlen & Hch & Hchunks & Hmetas).
  cbn [fst snd] in *.
  split; [exact Hlen |]. split; [exact Hch |]. split; [exact Hchunks |].
  split; [exact Hmetas |].
  intros nm ix. split; cbn [metadatas chunks].
  - rewrite length_map. exact Hlen.
  - apply Forall_forall. intros m Hm.
    apply in_map_iff in Hm as (bm & <- & _). discriminate.
Qed.

(** X18. On a built corpus the neighbour repair stays inside the file.
    For the chunk at position idx of a corpus made by the builder, the
    repaired text is the chunk itself, preceded by the chunk before it
    exactly when its chunk_id is positive, and followed by the chunk
    after it exactly when that one exists and does not start a new file;
    a stitched neighbour always belongs to the same source file and has
    the adjacent chunk_id. *)
Theorem built_corpus_neighbors (fuel : nat)
    (read_pdf_text : string -> string) (chunk_size overlap : Z)
    (folder_name : string) (listing : option (list string))
    (built_chunks : list string) (built_metas : list BuiltMeta)
    (c : CorpusIndex) (idx : Z) (m : BuiltMeta) :
  build_corpus_for_folder fuel read_pdf_text chunk_size overlap folder_name
    listing = Some (built_chunks, built_metas) ->
  chunks c = built_chunks ->
  metadatas c = map meta_of_built built_metas ->
  0 <= idx ->
  nth_error built_metas (Z.to_nat idx) = Some m ->
  let has_prev := 0 <? built_chunk_id m in
  let has_next :=
    match nth_error built_metas (Z.to_nat (idx + 1)) with
    | Some m' => negb (built_chunk_id m' =? 0)
    | None => false
    end in
  result (_merge_neighbors c idx)
  = Ok (join newline
          ((if has_prev then [chunk_at c (idx - 1)] else [])
           ++ [chunk_at c idx]
           ++ (if has_next then [chunk_at c (idx + 1)] else [])))
  /\ (has_prev = true ->
      exists p, nth_error built_metas (Z.to_nat (idx - 1)) = Some p
                /\ built_source_file p = built_source_file m
                /\ built_chunk_id p = built_chunk_id m - 1)
  /\ (has_next = true ->
      exists q, nth_error built_metas (Z.to_nat (idx + 1)) = Some q
                /\ built_source_file q = built_source_file m
                /\ built_chunk_id q = built_chunk_id m + 1).
Proof.
  intros Hbuild Hchunks Hmetas Hidx Hm.
  destruct (build_corpus_shape _ _ _ _ _ _ _ Hbuild)
    as (Hlen & Hch & _ & _).
  cbn [fst snd] in *.
  assert (Hlen' : List.length (metadatas c) = List.length (chunks c))
    by (rewrite Hmetas, Hchunks, length_map; exact Hlen).
  assert (Hrange : (Z.to_nat idx < List.length built_metas)%nat)
    by (apply nth_error_Some; congruence).
  assert (Hcur : nth_error (chunks c) (Z.to_nat idx)
                 = Some (chunk_at c idx)).
  { unfold chunk_at. apply nth_error_nth'. rewrite Hchunks, <- Hlen.
    exact Hrange. }
  assert (Hmeta : nth_error (metadatas c) (Z.to_nat idx)
                  = Some (meta_of_built m))
    by (rewrite Hmetas, nth_error_map_built, Hm; reflexivity).
  pose proof (merge_neighbors_run c idx (meta_of_built m) (built_chunk_id m)
                (chunk_at c idx) Hlen' Hidx Hmeta eq_refl Hcur) as Hrun.
  cbv zeta in Hrun.
  destruct (chained_nth _ _ Hch _ _ Hm) as [Hnonneg Hstart].
  (* the chunk before *)
  assert (Hprev :
            ((0 <=? idx - 1)
             && neighbor_ok c (meta_of_built m) (built_chunk_id m)
                  (idx - 1) (-1))%bool
            = (0 <? built_chunk_id m)
            /\ ((0 <? built_chunk_id m) = true ->
                exists p, nth_error built_metas (Z.to_nat (idx - 1)) = Some p
                          /\ built_source_file p = built_source_file m
                          /\ built_chunk_id p = built_chunk_id m - 1)).
  { destruct (0 <? built_chunk_id m) eqn:Epos.
    - apply Z.ltb_lt in Epos.
      destruct Hstart as [H0 | (p & Hp & Hf & Hid)]; [lia |].
      destruct (Z.to_nat idx) as [| j] eqn:Ej; [discriminate |].
      assert (Ej' : Z.to_nat (idx - 1) = j) by lia.
      split.
      + assert (E : (0 <=? idx - 1) = true) by (apply Z.leb_le; lia).
        rewrite E. cbn [andb]. unfold neighbor_ok.
        rewrite Hmetas, nth_error_map_built, Ej', Hp.
        cbn [option_map meta_of_built source_file chunk_id
             option_string_eqb].
        rewrite Hf, String.eqb_refl. cbn [andb]. apply Z.eqb_eq. lia.
      + intros _. exists p. rewrite Ej'. split; [exact Hp |].
        split; [symmetry; exact Hf | lia].
    - apply Z.ltb_ge in Epos. split; [| discriminate].
      destruct (0 <=? idx - 1) eqn:E; [| reflexivity]. cbn [andb].
      unfold neighbor_ok. rewrite Hmetas, nth_error_map_built.
      destruct (nth_error built_metas (Z.to_nat (idx - 1))) as [p |] eqn:Ep;
        [| reflexivity].
      cbn [option_map meta_of_built source_file chunk_id].
      destruct (chained_nth _ _ Hch _ _ Ep) as [Hp0 _].
      assert (E' : (built_chunk_id p =? built_chunk_id m + -1) = false)
        by (apply Z.eqb_neq; lia).
      rewrite E'. apply andb_false_r. }
  (* the chunk after *)
  assert (Hnext :
            let has_next :=
              match nth_error built_metas (Z.to_nat (idx + 1)) with
              | Some m' => negb (built_chunk_id m' =? 0)
              | None => false
              end in
            ((idx + 1 <? Z.of_nat (List.length (chunks c)))
             && neighbor_ok c (meta_of_built m) (built_chunk_id m)
                  (idx + 1) 1)%bool
            = has_next
            /\ (has_next = true ->
                exists q, nth_error built_metas (Z.to_nat (idx + 1)) = Some q
                          /\ built_source_file q = built_source_file m
                          /\ built_chunk_id q = built_chunk_id m + 1)).
  { cbv zeta.
    assert (Ej : Z.to_nat (idx + 1) = S (Z.to_nat idx)) by lia.
    destruct (nth_error built_metas (Z.to_nat (idx + 1))) as [q |] eqn:Eq.
    - destruct (chained_nth _ _ Hch _ _ Eq) as [Hq0 Hq].
      rewrite Ej in Hq.
      assert (Hin : (Z.to_nat (idx + 1) < List.length built_metas)%nat)
        by (apply nth_error_Some; congruence).
      assert (E : (idx + 1 <? Z.of_nat (List.length (chunks c))) = true)
        by (apply Z.ltb_lt; rewrite Hchunks, <- Hlen; lia).
      rewrite E. cbn [andb]. unfold neighbor_ok.
      rewrite Hmetas, nth_error_map_built, Eq.
      cbn [option_map meta_of_built source_file chunk_id option_string_eqb].
      destruct (built_chunk_id q =? 0) eqn:E0; cbn [negb].
      + apply Z.eqb_eq in E0. split; [| discriminate].
        assert (E' : (built_chunk_id q =? built_chunk_id m + 1) = false)
          by (apply Z.eqb_neq; lia).
        rewrite E'. apply andb_false_r.
      + apply Z.eqb_neq in E0.
        destruct Hq as [Hq | (p & Hp & Hf & Hid)]; [contradiction |].
        rewrite Hm in Hp. injection Hp as <-.
        split.
        * rewrite Hf, String.eqb_refl. cbn [andb]. apply Z.eqb_eq. exact Hid.
        * intros _. exists q. auto.
    - split; [| discriminate].
      assert (Hout : (List.length built_metas <= Z.to_nat (idx + 1))%nat)
        by (apply nth_error_None; exact Eq).
      assert (E : (idx + 1 <? Z.of_nat (List.length (chunks c))) = false)
        by (apply Z.ltb_ge; rewrite Hchunks, <- Hlen; lia).
      rewrite E. reflexivity. }
  cbv zeta in Hnext. destruct Hprev as [Hp1 Hp2]. destruct Hnext as [Hn1 Hn2].
  cbv zeta. split; [| split; [exact Hp2 | exact Hn2]].
  rewrite Hrun. cbn [result snd]. rewrite Hp1, Hn1. reflexivity.
Qed.

(** ** Properties of the session store *)

Lemma sessions_lookup_update (sessions : SessionStore) (sid : string)
    (s : Session) (sid' : string) :
  sessions_lookup (sessions_update sessions sid s) sid'
  = if (sid' =? sid)%string then Some s else sessions_lookup sessions sid'.
Proof.
  unfold sessions_lookup.
  induction sessions as [| [k v] rest IH]; cbn [sessions_update find fst].
  - rewrite (String.eqb_sym sid sid').
    destruct (sid' =? sid)%string; reflexivity.
  - destruct (k =? sid)%string eqn:E; cbn [find fst].
    + apply String.eqb_eq in E. subst k.
      rewrite (String.eqb_sym sid sid').
      destruct (sid' =? sid)%string; reflexivity.
    + destruct (k =? sid')%string eqn:E'; [| exact IH].
      apply String.eqb_eq in E'. subst k.
      rewrite E. reflexivity.
Qed.

Lemma sessions_update_keys (sessions : SessionStore) (sid : string)
    (s : Session) :
  NoDup (map fst sessions) -> NoDup (map fst (sessions_update sessions sid s)).
Proof.
  induction sessions as [| [k v] rest IH]; cbn [sessions_update map fst].
  - intros _. repeat constructor. intros [].
  - intros H. inversion H as [| ? ? Hnotin Hnd]; subst.
    destruct (k =? sid)%string eqn:E; cbn [map fst].
    + constructor; assumption.
    + constructor; [| apply IH; exact Hnd].
      intros Hin. apply Hnotin. clear - Hin E.
      induction rest as [| [k' v'] rest IH]; cbn [sessions_update map fst] in *.
      * destruct Hin as [<- | []]. rewrite String.eqb_refl in E. discriminate.
      * destruct (k' =? sid)%string; cbn [map fst In] in *.
        -- exact Hin.
        -- destruct Hin as [Hin | Hin]; [left; exact Hin | right; auto].
Qed.

Lemma sessions_update_new (sessions : SessionStore) (sid : string)
    (s : Session) :
  sessions_lookup sessions sid = None ->
  sessions_update sessions sid s = sessions ++ [(sid, s)].
Proof.
  unfold sessions_lookup.
  induction sessions as [| [k v] rest IH]; cbn [sessions_update find fst app];
    [reflexivity |].
  destruct (k =? sid)%string; [discriminate |].
  intros H. rewrite (IH H). reflexivity.
Qed.

Lemma get_session_spec (sessions : SessionStore) (sid : string) :
  history (fst (get_session sessions sid)) = history_of sessions sid
  /\ session_bank (fst (get_session sessions sid)) = bank_of sessions sid
  /\ sessions_lookup (snd (get_session sessions sid)) sid
     = Some (fst (get_session sessions sid))
  /\ (forall sid',
        history_of (snd (get_session sessions sid)) sid'
        = history_of sessions sid'
        /\ bank_of (snd (get_session sessions sid)) sid'
           = bank_of sessions sid')
  /\ (NoDup (map fst sessions) ->
      NoDup (map fst (snd (get_session sessions sid)))).
Proof.
  unfold get_session, history_of, bank_of.
  destruct (sessions_lookup sessions sid) as [s |] eqn:E; cbn [fst snd].
  - rewrite E. repeat split; auto.
  - split; [reflexivity |]. split; [reflexivity |].
    split; [rewrite sessions_lookup_update, String.eqb_refl; reflexivity |].
    split; [| apply sessions_update_keys].
    intros sid'. rewrite sessions_lookup_update.
    destruct (sid' =? sid)%string eqn:E'; [| auto].
    apply String.eqb_eq in E'. subst sid'. rewrite E. auto.
Qed.

Lemma update_views (sessions : SessionStore) (sid : string) (s : Session)
    (sid' : string) :
  history_of (sessions_update sessions sid s) sid'
  = (if (sid' =? sid)%string then history s else history_of sessions sid')
  /\ bank_of (sessions_update sessions sid s) sid'
     = (if (sid' =? sid)%string then session_bank s
        else bank_of sessions sid').
Proof.
  unfold history_of, bank_of. rewrite sessions_lookup_update.
  destruct (sid' =? sid)%string; auto.
Qed.

Lemma add_message_views (sessions : SessionStore) (sid r c sid' : string) :
  history_of (add_message sessions sid r c) sid'
  = (if (sid' =? sid)%string
     then history_of sessions sid ++ [{| role := r; content := c |}]
     else history_of sessions sid')
  /\ bank_of (add_message sessions sid r c) sid' = bank_of sessions sid'.
Proof.
  unfold add_message.
  destruct (get_session_spec sessions sid) as (Hh & Hb & _ & Hv & _).
  destruct (get_session sessions sid) as [s st]. cbn [fst snd] in *.
  destruct (update_views st sid
              {| history := history s ++ [{| role := r; content := c |}];
                 session_bank := session_bank s |} sid') as [H1 H2].
  rewrite H1, H2. cbn [history session_bank].
  destruct (Hv sid') as [Hv1 Hv2].
  destruct (sid' =? sid)%string eqn:E.
  - apply String.eqb_eq in E. subst sid'. rewrite Hh, Hb. auto.
  - auto.
Qed.

Lemma set_bank_views (sessions : SessionStore) (sid : string)
    (b : option string) (sid' : string) :
  history_of (set_bank sessions sid b) sid' = history_of sessions sid'
  /\ bank_of (set_bank sessions sid b) sid'
     = (if (sid' =? sid)%string then b else bank_of sessions sid').
Proof.
  unfold set_bank.
  destruct (get_session_spec sessions sid) as (Hh & Hb & _ & Hv & _).
  destruct (get_session sessions sid) as [s st]. cbn [fst snd] in *.
  destruct (update_views st sid
              {| history := history s; session_bank := b |} sid')
    as [H1 H2].
  rewrite H1, H2. cbn [history session_bank].
  destruct (Hv sid') as [Hv1 Hv2].
  destruct (sid' =? sid)%string eqn:E.
  - apply String.eqb_eq in E. subst sid'. rewrite Hh. auto.
  - auto.
Qed.

Lemma get_bank_views (sessions : SessionStore) (sid : string) :
  fst (get_bank sessions sid) = bank_of sessions sid
  /\ forall sid',
       history_of (snd (get_bank sessions sid)) sid' = history_of sessions sid'
       /\ bank_of (snd (get_bank sessions sid)) sid' = bank_of sessions sid'.
Proof.
  unfold get_bank.
  destruct (get_session_spec sessions sid) as (_ & Hb & _ & Hv & _).
  destruct (get_session sessions sid) as [s st]. cbn [fst snd] in *. auto.
Qed.

Lemma get_history_views (sessions : SessionStore) (sid : string) :
  fst (get_history sessions sid) = history_of sessions sid
  /\ forall sid',
       history_of (snd (get_history sessions sid)) sid'
       = history_of sessions sid'
       /\ bank_of (snd (get_history sessions sid)) sid'
          = bank_of sessions sid'.
Proof.
  unfold get_history.
  destruct (get_session_spec sessions sid) as (Hh & _ & _ & Hv & _).
  destruct (get_session sessions sid) as [s st]. cbn [fst snd] in *. auto.
Qed.

(** X19. The session store, as its callers see it.  A session id that
    is not in the store reads an empty history and no bank, and reading
    it adds the new session at the end of the store.  [set_bank] makes
    [get_bank] return the bank it stored and [add_message] appends
    exactly one message to the end of the history; neither changes
    anything else, the two readers change nothing that can be read, and
    no operation on one session id changes what another id reads. *)
Theorem session_store_views (sessions : SessionStore) (sid : string) :
  (sessions_lookup sessions sid = None ->
   fst (get_history sessions sid) = []
   /\ fst (get_bank sessions sid) = None
   /\ snd (get_bank sessions sid)
      = sessions ++ [(sid, {| history := []; session_bank := None |})])
  /\ fst (get_history sessions sid) = history_of sessions sid
  /\ fst (get_bank sessions sid) = bank_of sessions sid
  /\ (forall b,
        fst (get_bank (set_bank sessions sid b) sid) = b
        /\ fst (get_history (set_bank sessions sid b) sid)
           = history_of sessions sid)
  /\ (forall r c,
        fst (get_history (add_message sessions sid r c) sid)
        = history_of sessions sid ++ [{| role := r; content := c |}]
        /\ fst (get_bank (add_message sessions sid r c) sid)
           = bank_of sessions sid)
  /\ (forall sid', sid' <> sid ->
        (forall b,
           history_of (set_bank sessions sid b) sid'
           = history_of sessions sid'
           /\ bank_of (set_bank sessions sid b) sid' = bank_of sessions sid')
        /\ (forall r c,
              history_of (add_message sessions sid r c) sid'
              = history_of sessions sid'
              /\ bank_of (add_message sessions sid r c) sid'
                 = bank_of sessions sid'))
  /\ (forall sid',
        history_of (snd (get_history sessions sid)) sid'
        = history_of sessions sid'
        /\ bank_of (snd (get_history sessions sid)) sid'
           = bank_of sessions sid'
        /\ history_of (snd (get_bank sessions sid)) sid'
           = history_of sessions sid'
        /\ bank_of (snd (get_bank sessions sid)) sid'
           = bank_of sessions sid').
Proof.
  split.
  { intros Hnew. unfold get_history, get_bank, get_session.
    rewrite Hnew. cbn [fst snd history session_bank].
    split; [reflexivity |]. split; [reflexivity |].
    apply sessions_update_new. exact Hnew. }
  split; [apply get_history_views |]. split; [apply get_bank_views |].
  split; [| split; [| split]].
  - intros b.
    rewrite (proj1 (get_bank_views _ _)), (proj1 (get_history_views _ _)).
    destruct (set_bank_views sessions sid b sid) as [H1 H2].
    rewrite H1, H2, String.eqb_refl. auto.
  - intros r c.
    rewrite (proj1 (get_bank_views _ _)), (proj1 (get_history_views _ _)).
    destruct (add_message_views sessions sid r c sid) as [H1 H2].
    rewrite H1, H2, String.eqb_refl. auto.
  - intros sid' Hne.
    assert (E : (sid' =? sid)%string = false) by (apply String.eqb_neq, Hne).
    split.
    + intros b. destruct (set_bank_views sessions sid b sid') as [H1 H2].
      rewrite H1, H2, E. auto.
    + intros r c. destruct (add_message_views sessions sid r c sid')
        as [H1 H2].
      rewrite H1, H2, E. auto.
  - intros sid'.
    destruct (proj2 (get_history_views sessions sid) sid') as [H1 H2].
    destruct (proj2 (get_bank_views sessions sid) sid') as [H3 H4].
    auto.
Qed.

(** ** Properties of the request handler *)

Lemma generate_answer_views (question : string) (b : option string)
    (sid : string) (docs : list Doc) (sessions : SessionStore) :
  forall sid',
    history_of (snd (generate_answer question b sid docs sessions)) sid'
    = history_of sessions sid'
    /\ bank_of (snd (generate_answer question b sid docs sessions)) sid'
       = bank_of sessions sid'.
Proof.
  intros sid'. unfold generate_answer.
  pose proof (proj2 (get_history_views sessions sid) sid') as Hv.
  destruct (get_history sessions sid) as [h st]. cbn [snd] in Hv.
  destruct (gemini _); cbn [snd]; exact Hv.
Qed.

Lemma ask_question_run (corpora : list CorpusIndex)
    (sessions : SessionStore) (req : QuestionRequest) :
  strip (req_question req) <> "" ->
  ask_question corpora sessions req
  = match result (retrieve corpora (req_question req)
                    (bank_used corpora sessions req)
                    (Some (req_top_k_per_index req))) with
    | Raise e =>
        (HTTPException 500 (DetailError e),
         store_with_bank corpora sessions req)
    | Ok docs =>
        let ga := generate_answer (req_question req)
                    (bank_used corpora sessions req) (req_session_id req)
                    docs (store_with_bank corpora sessions req) in
        match fst ga with
        | None => (Unhandled, snd ga)
        | Some answer_data =>
            (match sources_items (sources answer_data) with
             | None => Unhandled
             | Some items =>
                 Respond {| response_summary := summary answer_data;
                            response_steps := steps answer_data;
                            response_sources := items;
                            response_cost_saving_tips :=
                              cost_saving_tips answer_data |}
             end,
             add_message
               (add_message (snd ga) (req_session_id req) "user"
                  (req_question req))
               (req_session_id req) "assistant" (summary answer_data))
        end
    end.
Proof.
  intros Hq. unfold ask_question, store_with_bank, bank_used.
  apply String.eqb_neq in Hq. rewrite Hq.
  rewrite <- (proj1 (get_bank_views sessions (req_session_id req))).
  destruct (get_bank sessions (req_session_id req)) as [sb st].
  cbn [fst snd].
  destruct (result (retrieve _ _ _ _)) as [docs | e]; [| reflexivity].
  cbv zeta.
  destruct (generate_answer _ _ _ _ _) as [[a |] st2]; cbn [fst snd];
    [| reflexivity].
  destruct (sources_items (sources a)); reflexivity.
Qed.

Lemma store_with_bank_views (corpora : list CorpusIndex)
    (sessions : SessionStore) (req : QuestionRequest) (sid' : string) :
  history_of (store_with_bank corpora sessions req) sid'
  = history_of sessions sid'
  /\ bank_of (store_with_bank corpora sessions req) sid'
     = (if ((sid' =? req_session_id req)%string
            && truthy (bank_used corpora sessions req))%bool
        then bank_used corpora sessions req
        else bank_of sessions sid').
Proof.
  unfold store_with_bank.
  destruct (proj2 (get_bank_views sessions (req_session_id req)) sid')
    as [H1 H2].
  destruct (truthy (bank_used corpora sessions req)).
  - destruct (set_bank_views (snd (get_bank sessions (req_session_id req)))
                (req_session_id req) (bank_used corpora sessions req) sid')
      as [H3 H4].
    rewrite H3, H4, H1, H2, andb_true_r. auto.
  - rewrite andb_false_r. auto.
Qed.

Lemma detect_bank_spec (banks : list string) (lower_q : string)
    (default : option string) :
  (detect_bank banks lower_q default = default
   /\ forall b, In b banks -> str_contains lower_q (lower b) = false)
  \/ exists pre b post,
       banks = pre ++ b :: post
       /\ detect_bank banks lower_q default = Some b
       /\ str_contains lower_q (lower b) = true
       /\ forall b', In b' pre -> str_contains lower_q (lower b') = false.
Proof.
  induction banks as [| b banks IH]; cbn [detect_bank].
  - left. split; [reflexivity | intros b []].
  - destruct (str_contains lower_q (lower b)) eqn:E.
    + right. exists [], b, banks. repeat split; auto. intros b' [].
    + destruct IH as [[H1 H2] | (pre & b0 & post & -> & H1 & H2 & H3)].
      * left. split; [exact H1 |]. intros b' [<- | Hb']; auto.
      * right. exists (b :: pre), b0, post. repeat split; auto.
        intros b' [<- | Hb']; auto.
Qed.

(** The views of the store after a request. *)
Lemma ask_question_views (corpora : list CorpusIndex)
    (sessions : SessionStore) (req : QuestionRequest) :
  strip (req_question req) <> "" ->
  forall sid',
    bank_of (snd (ask_question corpora sessions req)) sid'
    = bank_of (store_with_bank corpora sessions req) sid'
    /\ match fst (ask_question corpora sessions req) with
       | Respond r =>
           history_of (snd (ask_question corpora sessions req)) sid'
           = if (sid' =? req_session_id req)%string
             then history_of sessions sid'
                  ++ [ {| role := "user"; content := req_question req |};
                       {| role := "assistant";
                          content := response_summary r |} ]
             else history_of sessions sid'
       | HTTPException _ _ =>
           history_of (snd (ask_question corpora sessions req)) sid'
           = history_of sessions sid'
       | Unhandled =>
           history_of (snd (ask_question corpora sessions req)) sid'
           = history_of sessions sid'
           \/ exists text,
                history_of (snd (ask_question corpora sessions req)) sid'
                = if (sid' =? req_session_id req)%string
                  then history_of sessions sid'
                       ++ [ {| role := "user";
                               content := req_question req |};
                            {| role := "assistant"; content := text |} ]
                  else history_of sessions sid'
       end.
Proof.
  intros Hq sid'. rewrite (ask_question_run corpora sessions req Hq).
  pose proof (store_with_bank_views corpora sessions req sid') as [Hs1 Hs2].
  destruct (result (retrieve _ _ _ _)) as [docs | e];
    [| cbn [fst snd]; auto].
  cbv zeta.
  pose proof (generate_answer_views (req_question req)
                (bank_used corpora sessions req) (req_session_id req) docs
                (store_with_bank corpora sessions req) sid') as [Hg1 Hg2].
  pose proof (generate_answer_views (req_question req)
                (bank_used corpora sessions req) (req_session_id req) docs
                (store_with_bank corpora sessions req) (req_session_id req))
    as [Hg3 _].
  pose proof (store_with_bank_views corpora sessions req (req_session_id req))
    as [Hs3 _].
  destruct (generate_answer _ _ _ _ _) as [[a |] st2]; cbn [fst snd] in *.
  2:{ split; [congruence | left; congruence]. }
  set (st3 := add_message st2 (req_session_id req) "user" (req_question req)).
  destruct (add_message_views st3 (req_session_id req) "assistant"
              (summary a) sid') as [Ha1 Ha2].
  destruct (add_message_views st2 (req_session_id req) "user"
              (req_question req) sid') as [Hb1 Hb2].
  fold st3 in Hb1, Hb2.
  destruct (add_message_views st2 (req_session_id req) "user"
              (req_question req) (req_session_id req)) as [Hc1 _].
  fold st3 in Hc1. rewrite String.eqb_refl in Hc1.
  split; [congruence |].
  assert (Hhist : history_of
                    (add_message st3 (req_session_id req) "assistant"
                       (summary a)) sid'
                  = (if (sid' =? req_session_id req)%string
                     then history_of sessions sid'
                          ++ [ {| role := "user";
                                  content := req_question req |};
                               {| role := "assistant";
                                  content := summary a |} ]
                     else history_of sessions sid')).
  { rewrite Ha1. destruct (sid' =? req_session_id req)%string eqn:E.
    - apply String.eqb_eq in E. subst sid'.
      rewrite Hc1, Hg3, Hs3, <- app_assoc. reflexivity.
    - congruence. }
  destruct (sources_items (sources a)); cbn [response_summary].
  - exact Hhist.
  - right. exists (summary a). exact Hhist.
Qed.

Lemma ask_question_blank (corpora : list CorpusIndex)
    (sessions : SessionStore) (req : QuestionRequest) :
  strip (req_question req) = "" ->
  ask_question corpora sessions req
  = (HTTPException 400 (DetailText "Question cannot be empty."), sessions).
Proof.
  intros Hq. unfold ask_question. rewrite Hq. reflexivity.
Qed.

Lemma ask_question_bank_ext (corpora : list CorpusIndex)
    (sessions : SessionStore) (req1 req2 : QuestionRequest) :
  req_question req1 = req_question req2 ->
  req_session_id req1 = req_session_id req2 ->
  req_top_k_per_index req1 = req_top_k_per_index req2 ->
  bank_used corpora sessions req1 = bank_used corpora sessions req2 ->
  ask_question corpora sessions req1 = ask_question corpora sessions req2.
Proof.
  intros Hq Hs Hk Hb.
  destruct (string_dec (strip (req_question req1)) "") as [E | E].
  - rewrite !ask_question_blank; [reflexivity | rewrite <- Hq; exact E | exact E].
  - rewrite !ask_question_run; [| rewrite <- Hq; exact E | exact E].
    unfold store_with_bank. rewrite Hq, Hs, Hk, Hb. reflexivity.
Qed.

Lemma bank_used_explicit (corpora : list CorpusIndex)
    (sessions : SessionStore) (req : QuestionRequest) (b : option string) :
  truthy b = true ->
  bank_used corpora sessions (with_bank req b) = b.
Proof.
  intros Hb. unfold bank_used, with_bank. cbn [req_bank].
  rewrite Hb, Hb. reflexivity.
Qed.

Lemma available_banks_find (corpora : list CorpusIndex) (b : string) :
  In b (available_banks corpora) ->
  exists c,
    find_bank corpora (lower b) = Some c
    /\ In c corpora
    /\ lower (name c) = lower b
    /\ is_common_name (name c) = false.
Proof.
  unfold available_banks. intros Hb.
  apply filter_In in Hb as [Hin Hscoped].
  apply in_map_iff in Hin as (c0 & Hname & Hc0).
  apply negb_true_iff in Hscoped.
  destruct (find_exists (fun c => (lower (name c) =? lower b)%string)
              corpora c0 Hc0) as [c Hfind];
    [rewrite Hname; apply String.eqb_refl |].
  pose proof (find_some _ _ Hfind) as [Hc Hlow].
  apply String.eqb_eq in Hlow.
  exists c. split; [exact Hfind |]. split; [exact Hc |].
  split; [exact Hlow |].
  unfold is_common_name in *. rewrite Hlow. exact Hscoped.
Qed.

(** X20. What a request does to the sessions.  A blank question is
    refused with status 400 and changes nothing, and no other request
    ends with status 400.  A request never changes what another session
    id reads.  A request that ends with a response has appended to its
    session's history the user's question and then the assistant's
    summary; one that ends with an [HTTPException] leaves the history as
    it was.  A session that has a bank never loses it. *)
Theorem ask_question_effects (corpora : list CorpusIndex)
    (sessions : SessionStore) (req : QuestionRequest) :
  (strip (req_question req) = "" ->
   ask_question corpora sessions req
   = (HTTPException 400 (DetailText "Question cannot be empty."), sessions))
  /\ (strip (req_question req) <> "" ->
      forall d, fst (ask_question corpora sessions req) <> HTTPException 400 d)
  /\ (forall sid', sid' <> req_session_id req ->
        history_of (snd (ask_question corpora sessions req)) sid'
        = history_of sessions sid'
        /\ bank_of (snd (ask_question corpora sessions req)) sid'
           = bank_of sessions sid')
  /\ (forall r, fst (ask_question corpora sessions req) = Respond r ->
        history_of (snd (ask_question corpora sessions req))
          (req_session_id req)
        = history_of sessions (req_session_id req)
          ++ [ {| role := "user"; content := req_question req |};
               {| role := "assistant"; content := response_summary r |} ])
  /\ (forall code d,
        fst (ask_question corpora sessions req) = HTTPException code d ->
        history_of (snd (ask_question corpora sessions req))
          (req_session_id req)
        = history_of sessions (req_session_id req))
  /\ (truthy (bank_of sessions (req_session_id req)) = true ->
      truthy (bank_of (snd (ask_question corpora sessions req))
                (req_session_id req)) = true).
Proof.
  split; [apply ask_question_blank |].
  destruct (string_dec (strip (req_question req)) "") as [E | E].
  { rewrite (ask_question_blank corpora sessions req E). cbn [fst snd].
    split; [intros H; contradiction |].
    split; [auto |]. split; [discriminate |]. split; auto. }
  split.
  { intros _ d. rewrite (ask_question_run corpora sessions req E).
    destruct (result (retrieve _ _ _ _)); [| cbn; discriminate].
    cbv zeta. destruct (fst (generate_answer _ _ _ _ _)); [| cbn; discriminate].
    cbn [fst]. destruct (sources_items _); discriminate. }
  split.
  { intros sid' Hne.
    destruct (ask_question_views corpora sessions req E sid') as [Hb Hh].
    destruct (store_with_bank_views corpora sessions req sid') as [_ Hs].
    apply String.eqb_neq in Hne. rewrite Hne in *. cbn [andb] in Hs.
    split; [| congruence].
    destruct (fst (ask_question corpora sessions req)); try exact Hh.
    destruct Hh as [Hh | [text Hh]]; exact Hh. }
  destruct (ask_question_views corpora sessions req E (req_session_id req))
    as [Hb Hh].
  rewrite String.eqb_refl in Hh.
  split; [intros r Hr; rewrite Hr in Hh; exact Hh |].
  split; [intros code d Hr; rewrite Hr in Hh; exact Hh |].
  intros Hhas. rewrite Hb.
  destruct (store_with_bank_views corpora sessions req (req_session_id req))
    as [_ Hs].
  rewrite Hs, String.eqb_refl. cbn [andb].
  destruct (truthy (bank_used corpora sessions req)) eqn:Hu; assumption.
Qed.

(** X21. Which bank a request uses.  A non-empty bank in the request is
    used and stored.  Without one, a session that has a bank behaves
    exactly as if the request carried that bank.  With neither, the
    first available bank whose lowered name occurs in the lowered
    question is used, exactly as if the request carried it, and it
    resolves to a stored bank corpus; when no bank is found the
    session's bank is left unset. *)
Theorem ask_question_bank_resolution (corpora : list CorpusIndex)
    (sessions : SessionStore) (req : QuestionRequest) :
  (truthy (req_bank req) = true ->
   bank_used corpora sessions req = req_bank req
   /\ (strip (req_question req) <> "" ->
       bank_of (snd (ask_question corpora sessions req)) (req_session_id req)
       = req_bank req))
  /\ (truthy (req_bank req) = false ->
      truthy (bank_of sessions (req_session_id req)) = true ->
      ask_question corpora sessions req
      = ask_question corpora sessions
          (with_bank req (bank_of sessions (req_session_id req))))
  /\ (truthy (req_bank req) = false ->
      truthy (bank_of sessions (req_session_id req)) = false ->
      forall b,
        bank_used corpora sessions req = Some b -> b <> "" ->
        (exists pre post,
           available_banks corpora = pre ++ b :: post
           /\ str_contains (lower (req_question req)) (lower b) = true
           /\ forall b', In b' pre ->
                str_contains (lower (req_question req)) (lower b') = false)
        /\ (exists c, find_bank corpora (lower b) = Some c
                      /\ is_common_name (name c) = false)
        /\ ask_question corpora sessions req
           = ask_question corpora sessions (with_bank req (Some b)))
  /\ (strip (req_question req) <> "" ->
      truthy (bank_used corpora sessions req) = false ->
      bank_of (snd (ask_question corpora sessions req)) (req_session_id req)
      = bank_of sessions (req_session_id req)).
Proof.
  assert (Hstored : strip (req_question req) <> "" ->
            bank_of (snd (ask_question corpora sessions req))
              (req_session_id req)
            = if truthy (bank_used corpora sessions req)
              then bank_used corpora sessions req
              else bank_of sessions (req_session_id req)).
  { intros E.
    rewrite (proj1 (ask_question_views corpora sessions req E _)).
    rewrite (proj2 (store_with_bank_views corpora sessions req _)).
    rewrite String.eqb_refl. reflexivity. }
  split; [| split; [| split]].
  - intros Hb.
    assert (Hu : bank_used corpora sessions req = req_bank req)
      by (unfold bank_used; rewrite Hb, Hb; reflexivity).
    split; [exact Hu |]. intros E. rewrite (Hstored E), Hu, Hb. reflexivity.
  - intros Hb Hs. apply ask_question_bank_ext; try reflexivity.
    rewrite (bank_used_explicit _ _ _ _ Hs).
    unfold bank_used. rewrite Hb, Hs. reflexivity.
  - intros Hb Hs b Hu Hne.
    assert (Htb : truthy (Some b) = true) by (apply truthy_some, Hne).
    unfold bank_used in Hu. rewrite Hb, Hs in Hu.
    destruct (detect_bank_spec (available_banks corpora)
                (lower (req_question req))
                (bank_of sessions (req_session_id req)))
      as [[Hd _] | (pre & b0 & post & Hsplit & Hd & Hc & Hfirst)].
    { rewrite Hd in Hu. rewrite Hu in Hs. congruence. }
    rewrite Hd in Hu. injection Hu as ->.
    split; [exists pre, post; auto |]. split.
    + destruct (available_banks_find corpora b) as (c & Hf & _ & _ & Hsc).
      * rewrite Hsplit. apply in_or_app. right. left. reflexivity.
      * exists c. auto.
    + apply ask_question_bank_ext; try reflexivity.
      rewrite (bank_used_explicit _ _ _ _ Htb).
      unfold bank_used. rewrite Hb, Hs. exact Hd.
  - intros E Hu. rewrite (Hstored E), Hu. reflexivity.
Qed.

(** X22. A follow-up question stays with the bank of the conversation.
    Once a request with a non-blank question has used a bank, however
    that request ended, the session holds that bank, and a later request
    of the same session that names no bank behaves exactly as if it
    named that bank: the question is not searched for a bank again. *)
Theorem ask_question_follow_up (corpora : list CorpusIndex)
    (sessions : SessionStore) (req1 req2 : QuestionRequest) :
  strip (req_question req1) <> "" ->
  truthy (bank_used corpora sessions req1) = true ->
  req_session_id req2 = req_session_id req1 ->
  truthy (req_bank req2) = false ->
  bank_of (snd (ask_question corpora sessions req1)) (req_session_id req1)
  = bank_used corpora sessions req1
  /\ bank_used corpora (snd (ask_question corpora sessions req1)) req2
     = bank_used corpora sessions req1
  /\ ask_question corpora (snd (ask_question corpora sessions req1)) req2
     = ask_question corpora (snd (ask_question corpora sessions req1))
         (with_bank req2 (bank_used corpora sessions req1)).
Proof.
  intros E Hu Hsid Hb2.
  assert (Hstored :
            bank_of (snd (ask_question corpora sessions req1))
              (req_session_id req1)
            = bank_used corpora sessions req1).
  { rewrite (proj1 (ask_question_views corpora sessions req1 E _)).
    rewrite (proj2 (store_with_bank_views corpora sessions req1 _)).
    rewrite String.eqb_refl, Hu. reflexivity. }
  assert (Hused :
            bank_used corpora (snd (ask_question corpora sessions req1)) req2
            = bank_used corpora sessions req1).
  { unfold bank_used at 1. rewrite Hb2, Hsid, Hstored, Hu. reflexivity. }
  split; [exact Hstored |]. split; [exact Hused |].
  apply ask_question_bank_ext; try reflexivity.
  rewrite (bank_used_explicit _ _ _ _ Hu). exact Hused.
Qed.

(** ** Properties of the prompt and of the answer parser *)

Lemma substring_of_refl (s : string) : substring_of s s.
Proof. exists "", "". cbn. rewrite string_app_nil_r. reflexivity. Qed.

Lemma join_cons (sep x : string) (xs : list string) :
  xs <> [] -> join sep (x :: xs) = (x ++ sep ++ join sep xs)%string.
Proof. destruct xs; [contradiction | reflexivity]. Qed.

Lemma join_contains (sep : string) (parts : list string) (p : string) :
  In p parts -> substring_of p (join sep parts).
Proof.
  induction parts as [| x xs IH]; intros Hin; [destruct Hin |].
  destruct xs as [| y ys].
  - destruct Hin as [<- | []]. apply substring_of_refl.
  - rewrite join_cons by discriminate. destruct Hin as [<- | Hin].
    + exists "", (sep ++ join sep (y :: ys))%string. reflexivity.
    + destruct (IH Hin) as (pre & post & E). rewrite E.
      exists (x ++ sep ++ pre)%string, post.
      rewrite !string_app_assoc. reflexivity.
Qed.

(** X23. The policy context shows every retrieved record.  No record
    gives the empty block; otherwise the block is made of one part per
    record, in the order of the list and separated by a line feed, each
    part naming the bank and the document and carrying the whole
    merged text. *)
Theorem build_context_block_parts (docs : list Doc) :
  build_context_block [] = ""
  /\ build_context_block docs = join newline (map context_part docs)
  /\ (forall d rest, rest <> [] ->
        build_context_block (d :: rest)
        = (context_part d ++ newline ++ build_context_block rest)%string)
  /\ (forall d, In d docs ->
        substring_of (context_part d) (build_context_block docs)
        /\ substring_of (merged_text d) (build_context_block docs)
        /\ substring_of (bank d) (build_context_block docs)
        /\ substring_of (document_name d) (build_context_block docs)).
Proof.
  split; [reflexivity |]. split; [reflexivity |]. split.
  - intros d rest Hne. unfold build_context_block. cbn [map].
    apply join_cons. destruct rest; [contradiction | discriminate].
  - intros d Hd.
    assert (Hpart : substring_of (context_part d) (build_context_block docs)).
    { apply join_contains, in_map, Hd. }
    split; [exact Hpart |].
    split; [| split]; (eapply substring_of_trans; [| exact Hpart]);
      unfold context_part.
    + exists ("[BANK: " ++ bank d ++ "] [DOCUMENT: " ++ document_name d
              ++ "]" ++ newline)%string,
             (newline ++ "----" ++ newline)%string.
      rewrite !string_app_assoc. reflexivity.
    + exists "[BANK: "%string,
             ("] [DOCUMENT: " ++ document_name d ++ "]" ++ newline
              ++ merged_text d ++ newline ++ "----" ++ newline)%string.
      reflexivity.
    + exists ("[BANK: " ++ bank d ++ "] [DOCUMENT: ")%string,
             ("]" ++ newline ++ merged_text d ++ newline ++ "----"
              ++ newline)%string.
      rewrite !string_app_assoc. reflexivity.
Qed.

(** *** The answer of the model *)

Lemma generate_answer_run (question : string) (b : option string)
    (sid : string) (docs : list Doc) (sessions : SessionStore) :
  fst (generate_answer question b sid docs sessions)
  = match gemini (payload_of question b (history_of sessions sid) docs) with
    | None => None
    | Some response_text =>
        let parsed := safe_parse_llm_json (content_of response_text) in
        match json_get parsed "sources" (JArray []) with
        | None => None
        | Some found =>
            match stripped_member parsed "summary",
                  stripped_member parsed "steps",
                  stripped_member parsed "cost_saving_tips" with
            | Some s1, Some s2, Some s3 =>
                Some {| summary := s1; steps := s2;
                        sources := match found with
                                   | JArray items => items
                                   | _ => []
                                   end;
                        cost_saving_tips := s3 |}
            | _, _, _ => None
            end
        end
    end.
Proof.
  unfold generate_answer, payload_of.
  rewrite <- (proj1 (get_history_views sessions sid)).
  destruct (get_history sessions sid) as [h st]. cbn [fst].
  destruct (gemini _) as [[t |] |]; cbn [fst content_of]; try reflexivity.
  destruct (t =? "")%string eqn:E; [| reflexivity].
  apply String.eqb_eq in E. subst t. reflexivity.
Qed.

Lemma safe_parse_llm_json_steps (raw : string) :
  safe_parse_llm_json raw
  = match json_loads (unfenced raw) with
    | Some parsed => parsed
    | None =>
        match brace_span (unfenced raw) with
        | Some span =>
            match json_loads span with
            | Some parsed => parsed
            | None => fallback_answer raw
            end
        | None => fallback_answer raw
        end
    end.
Proof.
  unfold safe_parse_llm_json, unfenced, brace_span. cbv zeta.
  destruct (json_loads _); [reflexivity |].
  destruct (_ && _)%bool; reflexivity.
Qed.

(** X24. A reply that is not JSON becomes the summary.  When neither
    the stripped, unfenced reply of the model nor its span from the
    first opening brace to the last closing brace parses as JSON,
    [safe_parse_llm_json] falls back to the raw reply and
    [generate_answer] returns the stripped reply as the summary, with
    empty steps, no sources and empty cost-saving tips. *)
Theorem generate_answer_unparsable_reply (question : string)
    (b : option string) (sid : string) (docs : list Doc)
    (sessions : SessionStore) (response_text : option string) :
  gemini (payload_of question b (history_of sessions sid) docs)
  = Some response_text ->
  json_loads (unfenced (content_of response_text)) = None ->
  (forall span,
     brace_span (unfenced (content_of response_text)) = Some span ->
     json_loads span = None) ->
  safe_parse_llm_json (content_of response_text)
  = fallback_answer (content_of response_text)
  /\ fst (generate_answer question b sid docs sessions)
     = Some {| summary := strip (content_of response_text);
               steps := ""; sources := []; cost_saving_tips := "" |}.
Proof.
  intros Hreply Hwhole Hspan.
  assert (Hparse : safe_parse_llm_json (content_of response_text)
                   = fallback_answer (content_of response_text)).
  { rewrite safe_parse_llm_json_steps, Hwhole.
    destruct (brace_span (unfenced (content_of response_text)))
      as [span |] eqn:E; [| reflexivity].
    rewrite (Hspan span eq_refl). reflexivity. }
  split; [exact Hparse |].
  rewrite generate_answer_run, Hreply. cbv zeta. rewrite Hparse.
  reflexivity.
Qed.

(** *** Fenced replies *)

Lemma prefix_app (p s : string) : String.prefix p (p ++ s) = true.
Proof.
  induction p as [| c p IH]; cbn; [destruct s; reflexivity |].
  destruct (ascii_dec c c) as [_ | Hn]; [exact IH | contradiction].
Qed.

Lemma no_linebreak_app (a b : string) :
  no_linebreak (a ++ b) = (no_linebreak a && no_linebreak b)%bool.
Proof.
  unfold no_linebreak. induction a as [| c a IH]; [reflexivity |].
  cbn. rewrite IH, andb_assoc. reflexivity.
Qed.

Lemma splitlines_line (l : string) :
  no_linebreak l = true -> l <> "" -> splitlines l = [l].
Proof.
  unfold no_linebreak. induction l as [| c l IH]; [congruence |].
  cbn [all_chars splitlines]. intros H _.
  apply andb_true_iff in H as [Hc Hl]. apply negb_true_iff in Hc.
  rewrite Hc. destruct l as [| c' l'].
  - reflexivity.
  - rewrite IH by (assumption || discriminate). reflexivity.
Qed.

Lemma splitlines_cons_line (l rest : string) :
  no_linebreak l = true -> rest <> "" ->
  splitlines (l ++ newline ++ rest) = l :: splitlines rest.
Proof.
  unfold no_linebreak. intros Hl Hrest.
  induction l as [| c l IH].
  - destruct rest as [| c' rest']; [congruence |]. reflexivity.
  - cbn [all_chars] in Hl. apply andb_true_iff in Hl as [Hc Hl].
    apply negb_true_iff in Hc.
    cbn [append splitlines]. rewrite Hc, (IH Hl). reflexivity.
Qed.

Lemma join_nonempty (sep : string) (ls : list string) :
  last ls "" <> "" -> join sep ls <> "".
Proof.
  induction ls as [| x ls IH]; [cbn; congruence |].
  destruct ls as [| y ys].
  - cbn. auto.
  - intros Hlast. rewrite join_cons by discriminate.
    cbn [last] in Hlast. specialize (IH Hlast).
    destruct x; cbn; [| discriminate].
    destruct sep; cbn; [exact IH | discriminate].
Qed.

Lemma splitlines_join (ls : list string) :
  Forall (fun l => no_linebreak l = true) ls ->
  last ls "" <> "" ->
  splitlines (join newline ls) = ls.
Proof.
  induction ls as [| x ls IH]; intros Hall Hlast; [cbn in Hlast; congruence |].
  inversion Hall as [| ? ? Hx Hls]; subst.
  destruct ls as [| y ys].
  - cbn in Hlast. apply splitlines_line; assumption.
  - rewrite join_cons by discriminate.
    cbn [last] in Hlast.
    rewrite splitlines_cons_line;
      [| exact Hx | apply join_nonempty; exact Hlast].
    rewrite IH by assumption. reflexivity.
Qed.

Lemma join_snoc (sep x : string) (ls : list string) :
  ls <> [] -> join sep (ls ++ [x]) = (join sep ls ++ sep ++ x)%string.
Proof.
  induction ls as [| y ls IH]; [congruence |]. intros _.
  destruct ls as [| z zs]; [reflexivity |].
  cbn [app]. rewrite (join_cons sep y) by discriminate.
  cbn [app] in IH. rewrite IH by discriminate.
  rewrite (join_cons sep y) by discriminate.
  rewrite !string_app_assoc. reflexivity.
Qed.

Lemma last_space_app (a b : string) :
  b <> "" -> last_space (a ++ b) = last_space b.
Proof.
  intros Hb. induction a as [| c a IH]; [reflexivity |].
  cbn [append last_space].
  destruct (a ++ b)%string eqn:E; [| exact IH].
  destruct a; cbn in E; [congruence | discriminate].
Qed.

(** X25. A fenced reply is parsed as its body.  When the reply is a
    Markdown code fence, a first line of three backquotes and a
    language tag, the lines of the body, and a closing line of three
    backquotes, [safe_parse_llm_json] drops the two fence lines and
    returns what [json.loads] makes of the stripped body. *)
Theorem safe_parse_fenced_reply (lang : string) (body : list string)
    (parsed : Json) :
  no_linebreak lang = true ->
  Forall (fun l => no_linebreak l = true) body ->
  json_loads (strip (join newline body)) = Some parsed ->
  safe_parse_llm_json (join newline ((fence ++ lang)%string :: body ++ [fence]))
  = parsed.
Proof.
  intros Hlang Hbody Hjson.
  set (raw := join newline ((fence ++ lang)%string :: body ++ [fence])).
  assert (Hraw : raw = (fence ++ lang ++ newline
                        ++ join newline (body ++ [fence]))%string).
  { unfold raw. rewrite join_cons by (destruct body; discriminate).
    rewrite string_app_assoc. reflexivity. }
  assert (Hend : exists a, raw = (a ++ fence)%string).
  { rewrite Hraw. destruct body as [| b bs].
    - exists (fence ++ lang ++ newline)%string.
      rewrite !string_app_assoc. reflexivity.
    - rewrite join_snoc by discriminate.
      exists (fence ++ lang ++ newline ++ join newline (b :: bs)
              ++ newline)%string.
      rewrite !string_app_assoc. reflexivity. }
  assert (Hstrip : strip raw = raw).
  { unfold strip. rewrite lstrip_fixed by (rewrite Hraw; reflexivity).
    apply rstrip_fixed. destruct Hend as [a ->].
    rewrite last_space_app by discriminate. reflexivity. }
  assert (Hlines : splitlines raw = (fence ++ lang)%string :: body ++ [fence]).
  { apply splitlines_join.
    - constructor; [rewrite no_linebreak_app, Hlang; reflexivity |].
      apply Forall_app. split; [exact Hbody | repeat constructor].
    - change (last ((fence ++ lang)%string :: body ++ [fence]) "")
        with (last (((fence ++ lang)%string :: body) ++ [fence]) "").
      rewrite last_last. discriminate. }
  unfold safe_parse_llm_json. cbv zeta. rewrite Hstrip.
  assert (Hstart : startswith raw fence = true)
    by (rewrite Hraw; apply prefix_app).
  rewrite Hstart, Hlines. cbn [tl].
  destruct (body ++ [fence]) as [| l ls] eqn:E;
    [destruct body; discriminate |].
  rewrite <- E, last_last, removelast_last.
  assert (Hf : startswith (strip fence) fence = true) by reflexivity.
  rewrite Hf, Hjson. reflexivity.
Qed.

(** *** Replies with text around the object *)

Lemma find_from_app (c : ascii) (pre rest : string) (i : Z) :
  has_char c pre = false ->
  find_from c (pre ++ String c rest) i = i + Z.of_nat (String.length pre).
Proof.
  revert i. induction pre as [| a pre IH]; intros i H.
  - cbn. rewrite Ascii.eqb_refl. lia.
  - cbn [has_char] in H. apply orb_false_iff in H as [Ha H].
    cbn [append find_from String.length]. rewrite Ha, (IH _ H). lia.
Qed.

Lemma rfind_from_none (c : ascii) (s : string) (i : Z) :
  has_char c s = false -> rfind_from c s i = -1.
Proof.
  revert i. induction s as [| a s IH]; intros i H; [reflexivity |].
  cbn [has_char] in H. apply orb_false_iff in H as [Ha H].
  cbn [rfind_from]. rewrite (IH _ H), Ha. reflexivity.
Qed.

Lemma rfind_from_app (c : ascii) (a post : string) (i : Z) :
  0 <= i ->
  has_char c post = false ->
  rfind_from c (a ++ String c post) i = i + Z.of_nat (String.length a).
Proof.
  revert i. induction a as [| x a IH]; intros i Hi H.
  - cbn [append rfind_from String.length].
    rewrite (rfind_from_none _ _ _ H), Ascii.eqb_refl. cbn. lia.
  - cbn [append rfind_from String.length].
    rewrite (IH (i + 1)) by (lia || exact H).
    assert (E : (i + 1 + Z.of_nat (String.length a) =? -1) = false)
      by (apply Z.eqb_neq; lia).
    rewrite E. lia.
Qed.

Lemma str_drop_app (a b : string) : str_drop (String.length a) (a ++ b) = b.
Proof. induction a as [| c a IH]; [destruct b; reflexivity | exact IH]. Qed.

Lemma str_take_app (a b : string) : str_take (String.length a) (a ++ b) = a.
Proof.
  induction a as [| c a IH]; [destruct b; reflexivity |].
  cbn. rewrite IH. reflexivity.
Qed.

Lemma str_slice_middle (pre m post : string) :
  str_slice (pre ++ m ++ post)
    (Z.of_nat (String.length pre))
    (Z.of_nat (String.length pre) + Z.of_nat (String.length m))
  = m.
Proof.
  rewrite str_slice_nonneg by lia.
  rewrite !Nat2Z.id, str_drop_app, str_take_app. reflexivity.
Qed.

(** X26. Text around a JSON object is ignored.  When the stripped reply
    is not fenced and does not parse as a whole, [safe_parse_llm_json]
    parses the span from its first opening brace to its last closing
    brace, and returns that value when the span parses. *)
Theorem safe_parse_embedded_object (pre mid post : string) (parsed : Json) :
  strip (pre ++ "{" ++ mid ++ "}" ++ post)
  = (pre ++ "{" ++ mid ++ "}" ++ post)%string ->
  startswith (pre ++ "{" ++ mid ++ "}" ++ post) fence = false ->
  has_char "{" pre = false ->
  has_char "}" post = false ->
  json_loads (pre ++ "{" ++ mid ++ "}" ++ post) = None ->
  json_loads ("{" ++ mid ++ "}") = Some parsed ->
  safe_parse_llm_json (pre ++ "{" ++ mid ++ "}" ++ post) = parsed.
Proof.
  intros Hstrip Hfence Hpre Hpost Hwhole Hspan.
  unfold safe_parse_llm_json. cbv zeta.
  rewrite Hstrip, Hfence, Hwhole.
  assert (Hfind : str_find (pre ++ "{" ++ mid ++ "}" ++ post) "{"
                  = Z.of_nat (String.length pre)).
  { unfold str_find. cbn [append]. rewrite find_from_app by exact Hpre. lia. }
  assert (Hrfind : str_rfind (pre ++ "{" ++ mid ++ "}" ++ post) "}"
                   = Z.of_nat (String.length pre) + 1
                     + Z.of_nat (String.length mid)).
  { unfold str_rfind.
    replace (pre ++ "{" ++ mid ++ "}" ++ post)%string
      with ((pre ++ "{" ++ mid) ++ String "}" post)%string
      by (rewrite !string_app_assoc; reflexivity).
    rewrite rfind_from_app by (lia || exact Hpost).
    rewrite !string_length_app. cbn [String.length]. lia. }
  rewrite Hfind, Hrfind.
  assert (E1 : (Z.of_nat (String.length pre) =? -1) = false)
    by (apply Z.eqb_neq; lia).
  assert (E2 : (Z.of_nat (String.length pre) + 1
                + Z.of_nat (String.length mid) =? -1) = false)
    by (apply Z.eqb_neq; lia).
  assert (E3 : (Z.of_nat (String.length pre)
                <? Z.of_nat (String.length pre) + 1
                   + Z.of_nat (String.length mid)) = true)
    by (apply Z.ltb_lt; lia).
  rewrite E1, E2, E3. cbn [negb andb].
  replace (pre ++ "{" ++ mid ++ "}" ++ post)%string
    with (pre ++ ("{" ++ mid ++ "}") ++ post)%string
    by (rewrite !string_app_assoc; reflexivity).
  replace (Z.of_nat (String.length pre) + 1 + Z.of_nat (String.length mid) + 1)
    with (Z.of_nat (String.length pre)
          + Z.of_nat (String.length ("{" ++ mid ++ "}")))
    by (rewrite !string_length_app; cbn [String.length]; lia).
  rewrite str_slice_middle, Hspan. reflexivity.
Qed.

(** ** From the builder to the engine *)

Lemma search_all_hits (cs : list CorpusIndex) (q : Embedding) (n : Z) :
  (forall c, In c cs ->
     corpus_wf c /\
     exists hits, index c q n = Ok hits /\ Forall (hit_in_range c) hits) ->
  exists all,
    result (search_all cs q n) = Ok all
    /\ forall r, In r all ->
         exists c h, In c cs /\ hit_in_range c h /\ snd h <> -1
                     /\ hit_doc c h r.
Proof.
  induction cs as [| c cs IH]; intros Hcs.
  - exists []. split; [reflexivity | intros r []].
  - destruct (Hcs c (or_introl eq_refl)) as (Hwf & hits & Hix & Hrange).
    destruct (search_hits_spec c hits Hwf Hrange) as (d1 & Hd1 & Hf2 & _).
    destruct IH as (d2 & Hd2 & Hin2);
      [intros c' Hc'; apply Hcs; right; exact Hc' |].
    exists (d1 ++ d2). split.
    + cbn [search_all]. rewrite !result_bind.
      rewrite (search_single_corpus_run c q n hits Hix), Hd1.
      rewrite !result_bind, Hd2. reflexivity.
    + intros r Hr. apply in_app_or in Hr as [Hr | Hr].
      * destruct (Forall2_in_r _ _ _ _ Hf2 Hr) as (h & Hh & Hdoc).
        unfold valid_hits in Hh. apply filter_In in Hh as [Hh Hvalid].
        exists c, h. split; [left; reflexivity |].
        rewrite Forall_forall in Hrange. split; [apply Hrange, Hh |].
        split; [| exact Hdoc].
        unfold is_sentinel in Hvalid. apply negb_true_iff in Hvalid.
        apply Z.eqb_neq in Hvalid. exact Hvalid.
      * destruct (Hin2 r Hr) as (c' & h & Hc' & H).
        exists c', h. split; [right; exact Hc' | exact H].
Qed.

(** X27. The builder and the engine fit together.  On a store whose
    corpora were made by the builder and whose indexes answer as FAISS
    does, [retrieve] never fails, and every returned record has a
    non-empty, stripped raw_chunk that occurs in its merged_text, the
    name of a PDF file as its document_name (never "unknown") and a
    chunk_id that is not negative. *)
Theorem retrieve_on_built_store (corpora : list CorpusIndex)
    (question : string) (hint : option string) (k : option Z) :
  (forall c, In c corpora ->
     (exists fuel read_pdf_text chunk_size overlap folder_name listing metas,
        build_corpus_for_folder fuel read_pdf_text chunk_size overlap
          folder_name listing = Some (chunks c, metas)
        /\ metadatas c = map meta_of_built metas)
     /\ exists hits,
          index c (_encode_query question) (top_k_or_default k) = Ok hits
          /\ faiss_search_contract (List.length (chunks c))
               (top_k_or_default k) hits) ->
  exists docs,
    result (retrieve corpora question hint k) = Ok docs
    /\ forall r, In r docs ->
         raw_chunk r <> ""
         /\ strip (raw_chunk r) = raw_chunk r
         /\ substring_of (raw_chunk r) (merged_text r)
         /\ endswith (lower (document_name r)) ".pdf" = true
         /\ 0 <= doc_chunk_id r.
Proof.
  intros Hstore.
  destruct (search_all_hits (corpora_to_search corpora hint)
              (_encode_query question) (top_k_or_default k))
    as (all & Hall & Hhits).
  { intros c Hc. apply corpora_to_search_incl in Hc.
    destruct (Hstore c Hc)
      as ((fuel & rd & cs & ov & folder & listing & metas & Hbuild & Hmetas)
          & hits & Hix & Hcontract).
    destruct (build_corpus_shape _ _ _ _ _ _ _ Hbuild) as (Hlen & _).
    cbn [fst snd] in Hlen. split.
    - split; [rewrite Hmetas, length_map; exact Hlen |].
      rewrite Hmetas. apply Forall_forall. intros m Hm.
      apply in_map_iff in Hm as (bm & <- & _). discriminate.
    - exists hits. split; [exact Hix |].
      apply (faiss_contract_in_range c _ _ Hcontract). }
  destruct (retrieve_ok_of_search_ok corpora question hint k all Hall)
    as (docs & Hres & Hsub).
  exists docs. split; [exact Hres |].
  intros r Hr. destruct (Hhits r (Hsub r Hr))
    as (c & h & Hc & Hrange & Hvalid & Hdoc).
  apply corpora_to_search_incl in Hc.
  destruct (Hstore c Hc)
    as ((fuel & rd & cs & ov & folder & listing & metas & Hbuild & Hmetas)
        & _).
  destruct (build_corpus_shape _ _ _ _ _ _ _ Hbuild)
    as (Hlen & Hchain & Hchunks & Hfiles).
  cbn [fst snd] in *.
  destruct Hdoc as (_ & _ & [Hpos Hraw] & (m & Hm & Hname & Hid) & _ & Hsubstr
                    & _).
  rewrite Forall_forall in Hchunks.
  destruct (Hchunks (raw_chunk r) (nth_error_In _ _ Hraw)) as [Hne Hstrip].
  rewrite Hmetas, nth_error_map_built in Hm.
  destruct (nth_error metas (Z.to_nat (snd h))) as [bm |] eqn:Ebm;
    [| discriminate].
  cbn [option_map] in Hm. injection Hm as <-.
  cbn [meta_of_built source_file chunk_id] in Hname, Hid.
  rewrite Forall_forall in Hfiles.
  destruct (Hfiles bm (nth_error_In _ _ Ebm))
    as (_ & filenames & _ & Hpdf).
  unfold pdf_files in Hpdf. apply filter_In in Hpdf as [_ Hpdf].
  destruct (chained_nth _ _ Hchain _ _ Ebm) as [Hnonneg _].
  rewrite Hname, Hid. auto.
Qed.

End Engine.

Arguments name {Embedding Dist} c.
Arguments index {Embedding Dist} c.
Arguments chunks {Embedding Dist} c.
Arguments metadatas {Embedding Dist} c.
Arguments Build_CorpusIndex {Embedding Dist} name index chunks metadatas.
Arguments score {Score} d.
Arguments bank {Score} d.
Arguments document_name {Score} d.
Arguments doc_chunk_id {Score} d.
Arguments raw_chunk {Score} d.
Arguments merged_text {Score} d.
Arguments Build_Doc {Score} score bank document_name doc_chunk_id raw_chunk
  merged_text.
Arguments _merge_neighbors {Embedding Dist} corpus idx.
Arguments search_hits {Embedding Dist Score} score_of_distance corpus hits.
Arguments _search_single_corpus {Embedding Dist Score} score_of_distance
  corpus query_embedding top_k.
Arguments corpora_get {Embedding Dist} corpora key.
Arguments find_bank {Embedding Dist} corpora bank_key.
Arguments available_banks {Embedding Dist} corpora.
Arguments corpora_to_search {Embedding Dist} corpora bank.
Arguments search_all {Embedding Dist Score} score_of_distance cs query_emb
  top_k.
Arguments sort_desc {Score} score_ltb {A} key l.
Arguments retrieve {Embedding Dist Score} _encode_query score_of_distance
  score_ltb corpora question bank top_k_per_index.
Arguments _load_all_corpora {Embedding Dist} listing.
Arguments build_sources_for_llm {Score} retrieved_docs.
Arguments source_of {Score} d.
Arguments keep_first {Score} docs.
Arguments doc_key {Score} d.
Arguments ltb_asym {Score} score_ltb.
Arguments ltb_negtrans {Score} score_ltb.
Arguments desc {Score} score_ltb {A} key a b.
Arguments corpus_wf {Embedding Dist} c.
Arguments hit_in_range {Embedding Dist} c h.
Arguments hit_doc {Embedding Dist Score} score_of_distance c h r.
Arguments valid_hits {Dist} hits.
Arguments faiss_search_contract {Dist} ntotal k hits.
Arguments text_at {Embedding Dist} c j t.
Arguments meta_at {Embedding Dist} c j file seq.
Arguments merged_shape {Embedding Dist} c idx cur merged.
Arguments scoped_names {Score} docs.
Arguments has_bank {Score} b r.
Arguments is_common {Score} r.
Arguments corpus_of_entry {Embedding Dist} e.
Arguments load_corpus {Embedding Dist} e.
Arguments loads {Embedding Dist} e.
Arguments build_context_block {Score} retrieved_docs.
Arguments context_part {Score} doc.
Arguments payload_of {Score} question bank history retrieved_docs.
Arguments generate_answer {Score} json_loads gemini question bank session_id
  retrieved_docs sessions.
Arguments ask_question {Embedding Dist Score} _encode_query score_of_distance
  score_ltb json_loads gemini pydantic_str corpora sessions req.
Arguments bank_used {Embedding Dist} corpora sessions req.
Arguments store_with_bank {Embedding Dist} corpora sessions req.

(** ** A concrete instance
    Binary32 scores, one-dimensional embeddings, and a flat L2 index
    that answers as FAISS does. *)

Definition float32_score : Q -> Q := score_fl binary32.

Definition Qltb (a b : Q) : bool :=
  match (a ?= b)%Q with
  | Lt => true
  | _ => false
  end.

(** A stand-in for the embedding model: the length of the text. *)
Definition length_embedding (text : string) : Q :=
  inject_Z (Z.of_nat (String.length text)).

Fixpoint insert_hit (h : Q * Z) (l : list (Q * Z)) : list (Q * Z) :=
  match l with
  | [] => [h]
  | h' :: l' => if Qltb (fst h) (fst h') then h :: l else h' :: insert_hit h l'
  end.

(** [IndexFlatL2.search] over one-dimensional vectors: the [k] nearest
    ids by squared distance, padded with the sentinel. *)
Definition flat_l2_index (vectors : list Q) (query : Q) (k : Z)
    : Res (list (Q * Z)) :=
  if k <=? 0 then Raise AssertionError
  else
    let hits :=
      combine (map (fun v => ((v - query) * (v - query))%Q) vectors)
              (map Z.of_nat (seq 0 (List.length vectors))) in
    let nearest := firstn (Z.to_nat k) (fold_right insert_hit [] hits) in
    Ok (nearest
        ++ repeat (FLT_MAX, -1) (Z.to_nat k - List.length nearest)).

Definition meta (file : string) (seq : Z) : Meta :=
  {| source_file := Some file; chunk_id := Some seq |}.

Definition corpus (nm : string) (vectors : list Q) (cs : list string)
    (ms : list Meta) : CorpusIndex Q Q :=
  {| name := nm; index := flat_l2_index vectors; chunks := cs;
     metadatas := ms |}.

Definition common_corpus : CorpusIndex Q Q :=
  corpus "common" [3; 9; 20]%Q
    ["kyc rules"; "apply online"; "fees and charges"]
    [meta "A.pdf" 0; meta "A.pdf" 1; meta "A.pdf" 2].

Definition hdfc_corpus : CorpusIndex Q Q :=
  corpus "hdfc" [4; 30]%Q ["hdfc loan"; "hdfc card"]
    [meta "hdfc.pdf" 0; meta "hdfc.pdf" 1].

Definition bank_corpus (nm : string) (v : Q) : CorpusIndex Q Q :=
  corpus nm [v] [(nm ++ " policy")%string] [meta (nm ++ ".pdf")%string 0].

Definition seven_corpora : list (CorpusIndex Q Q) :=
  [ common_corpus; hdfc_corpus; bank_corpus "sbi" 6; bank_corpus "icici" 40;
    bank_corpus "axis" 8; bank_corpus "kotak" 2; bank_corpus "pnb" 11 ].

(** A registry whose only corpus was stored under the name "Common". *)
Definition capital_common : list (CorpusIndex Q Q) :=
  [corpus "Common" [1%Q] ["fees"] [meta "a.pdf" 0]].

Definition lowercase_common : list (CorpusIndex Q Q) :=
  [corpus "common" [1%Q] ["fees"] [meta "a.pdf" 0]].

(** A record whose merged_text starts with two spaces and has no line
    boundary. *)
Definition padded_doc : Doc Q :=
  {| score := 1%Q; bank := "hdfc"; document_name := "a.pdf";
     doc_chunk_id := 0; raw_chunk := "fees";
     merged_text := "  fees" |}.

Definition hdfc_hits : list (Q * Z) :=
  [(1%Q, 0); (625%Q, 1); (FLT_MAX, -1); (FLT_MAX, -1); (FLT_MAX, -1)].

Definition stripped_doc : Doc Q :=
  {| score := 1%Q; bank := "hdfc"; document_name := "a.pdf";
     doc_chunk_id := 0; raw_chunk := "fees";
     merged_text := ("fees" ++ newline ++ "charges")%string |}.

(** A store of two corpora, the shared one and one bank. *)
Definition two_corpora : list (CorpusIndex Q Q) :=
  [common_corpus; hdfc_corpus].

(** A data folder with two PDFs and a text file, and what the PDF reader
    returns for each name. *)
Definition data_listing : list string := ["a.pdf"; "notes.txt"; "B.PDF"].

Definition pdf_text (filename : string) : string :=
  if (filename =? "a.pdf")%string then "abcdefghij" else "  xy  ".

Definition built_chunks_example : list string :=
  ["abcd"; "defg"; "ghij"; "j"; "xy"; "y"].

Definition built_metas_example : list BuiltMeta :=
  file_metas "hdfc" "a.pdf" 4 ++ file_metas "hdfc" "B.PDF" 2.

Definition built_corpus_example : CorpusIndex Q Q :=
  {| name := "hdfc"; index := flat_l2_index [1; 2; 3; 4; 5; 6]%Q;
     chunks := built_chunks_example;
     metadatas := map meta_of_built built_metas_example |}.

(** Three entries of a storage directory: a corpus whose two files
    decode, a directory whose [index.faiss] cannot be read, and one
    whose [metadata.pkl] lacks the key "metadatas". *)
Definition stored_hdfc : DirEntry Q Q :=
  {| entry_name := "hdfc"; entry_is_dir := true;
     index_faiss := Some (Ok (flat_l2_index [4; 30]%Q));
     metadata_pkl :=
       Some (Ok (PickledDict (Some ["hdfc loan"; "hdfc card"])
                   (Some [meta "hdfc.pdf" 0; meta "hdfc.pdf" 1]))) |}.

Definition corrupt_index : DirEntry Q Q :=
  {| entry_name := "sbi"; entry_is_dir := true;
     index_faiss := Some (Raise RuntimeError);
     metadata_pkl := Some (Ok (PickledDict (Some []) (Some []))) |}.

Definition incomplete_pickle : DirEntry Q Q :=
  {| entry_name := "axis"; entry_is_dir := true;
     index_faiss := Some (Ok (flat_l2_index []));
     metadata_pkl := Some (Ok (PickledDict (Some []) None)) |}.

(** A JSON reader that knows the empty object only, one that knows
    nothing, a model that answers in plain words, and the validation of
    a string field. *)
Definition json_of_braces (text : string) : option Json :=
  if (text =? "{}")%string then Some (JObject []) else None.

Definition no_json (text : string) : option Json := None.

Definition plain_reply (p : Payload) : option (option string) :=
  Some (Some " ask your branch ").

(** A model whose reply has braces around something that is not JSON. *)
Definition prose_reply (p : Payload) : option (option string) :=
  Some (Some " see {fees} here ").

Definition str_field (j : Json) : option string :=
  match j with
  | JString s => Some s
  | _ => None
  end.

Definition first_request : QuestionRequest :=
  {| req_question := "abcde"; req_bank := Some "HDFC";
     req_session_id := "s1"; req_top_k_per_index := 5 |}.

Definition second_request : QuestionRequest :=
  {| req_question := "and the fees?"; req_bank := None;
     req_session_id := "s1"; req_top_k_per_index := 5 |}.

(** ** Properties of floating-point scores *)

Section FloatScores.

Local Open Scope Q_scope.

Lemma rne_bounds (q : Q) : (Qfloor q <= rne q <= Qfloor q + 1)%Z.
Proof.
  unfold rne. cbv zeta.
  destruct (Qcompare (q - inject_Z (Qfloor q)) (1 # 2));
    [destruct (Z.even (Qfloor q)) | |]; lia.
Qed.

Lemma rne_ge_int (q : Q) (k : Z) : inject_Z k <= q -> (k <= rne q)%Z.
Proof.
  intros H. apply Qfloor_resp_le in H. rewrite Qfloor_Z in H.
  pose proof (rne_bounds q). lia.
Qed.

Lemma rne_le_int (q : Q) (k : Z) : q <= inject_Z k -> (rne q <= k)%Z.
Proof.
  intros H. pose proof (Qfloor_resp_le _ _ H) as Hf. rewrite Qfloor_Z in Hf.
  destruct (Z.eq_dec (Qfloor q) k) as [E | E].
  - unfold rne. cbv zeta. rewrite E.
    assert (Hr : q - inject_Z k < 1 # 2).
    { pose proof (Qfloor_le q) as Hl. rewrite E in Hl. lra. }
    destruct (Qcompare (q - inject_Z k) (1 # 2)) eqn:Ec; [| lia |].
    + apply (proj2 (Qeq_alt _ _)) in Ec. exfalso. lra.
    + apply (proj2 (Qgt_alt _ _)) in Ec. exfalso. lra.
  - pose proof (rne_bounds q). lia.
Qed.

Lemma Qcompare_cases (a b : Q) :
  (Qcompare a b = Eq /\ a == b) \/ (Qcompare a b = Lt /\ a < b)
  \/ (Qcompare a b = Gt /\ b < a).
Proof.
  destruct (Qcompare a b) eqn:E.
  - left. split; [reflexivity | apply Qeq_alt; exact E].
  - right. left. split; [reflexivity | apply Qlt_alt; exact E].
  - right. right. split; [reflexivity | apply Qgt_alt; exact E].
Qed.

Lemma rne_mono (q1 q2 : Q) : q1 <= q2 -> (rne q1 <= rne q2)%Z.
Proof.
  intros H. pose proof (Qfloor_resp_le _ _ H) as Hf.
  destruct (Z.eq_dec (Qfloor q1) (Qfloor q2)) as [E | E].
  - unfold rne. cbv zeta. rewrite E.
    assert (Hr : q1 - inject_Z (Qfloor q2) <= q2 - inject_Z (Qfloor q2)) by lra.
    destruct (Qcompare_cases (q1 - inject_Z (Qfloor q2)) (1 # 2))
      as [[-> E1] | [[-> E1] | [-> E1]]];
      destruct (Qcompare_cases (q2 - inject_Z (Qfloor q2)) (1 # 2))
        as [[-> E2] | [[-> E2] | [-> E2]]];
      try (destruct (Z.even (Qfloor q2))); try lia; exfalso; lra.
  - pose proof (rne_bounds q1). pose proof (rne_bounds q2). lia.
Qed.

Lemma pow2_pos (e : Z) : 0 < pow2 e.
Proof. apply Qpower_0_lt. reflexivity. Qed.

Lemma pow2_add (a b : Z) : pow2 (a + b) == pow2 a * pow2 b.
Proof. apply Qpower_plus. discriminate. Qed.

Lemma pow2_succ (a : Z) : pow2 (a + 1) == 2 * pow2 a.
Proof. rewrite pow2_add. unfold pow2 at 2. rewrite Qpower_1_r. ring. Qed.

Lemma pow2_le (a b : Z) : (a <= b)%Z -> pow2 a <= pow2 b.
Proof. intros H. apply Qpower_le_compat_l; [exact H | discriminate]. Qed.

Lemma pow2_lt_inv (a b : Z) : pow2 a < pow2 b -> (a < b)%Z.
Proof. intros H. apply (Qpower_lt_compat_l_inv 2); [exact H | reflexivity]. Qed.

Lemma pow2_Z (n : Z) : (0 <= n)%Z -> inject_Z (2 ^ n) == pow2 n.
Proof. intros H. apply Zpower_Qpower. exact H. Qed.

Lemma log2_bounds_Q (a : Z) :
  (0 < a)%Z ->
  pow2 (Z.log2 a) <= inject_Z a /\ inject_Z a < 2 * pow2 (Z.log2 a).
Proof.
  intros Ha. destruct (Z.log2_spec a Ha) as [Hl Hu].
  pose proof (Z.log2_nonneg a) as Hn.
  split.
  - rewrite <- pow2_Z by exact Hn. rewrite <- Zle_Qle. exact Hl.
  - rewrite <- pow2_succ, <- pow2_Z by lia. rewrite <- Zlt_Qlt.
    exact Hu.
Qed.

Lemma ilog2_spec (x : Q) :
  0 < x -> pow2 (ilog2 x) <= x /\ x < pow2 (ilog2 x + 1).
Proof.
  intros Hx. destruct x as [a b].
  assert (Ha : (0 < a)%Z).
  { unfold Qlt in Hx. cbn in Hx. lia. }
  destruct (log2_bounds_Q a Ha) as [HA1 HA2].
  destruct (log2_bounds_Q (Zpos b) eq_refl) as [HB1 HB2].
  unfold ilog2. cbn [Qnum Qden].
  set (la := Z.log2 a) in *. set (lb := Z.log2 (Zpos b)) in *.
  pose proof (pow2_pos la) as HPA. pose proof (pow2_pos lb) as HPB.
  pose proof (pow2_pos (la - lb)) as HP.
  assert (HPk : pow2 (la - lb) * pow2 lb == pow2 la).
  { rewrite <- pow2_add. replace (la - lb + lb)%Z with la by lia. reflexivity. }
  assert (HX : (a # b) * inject_Z (Zpos b) == inject_Z a).
  { rewrite (Qmake_Qdiv a b). field. discriminate. }
  assert (HB : 0 < inject_Z (Zpos b)) by reflexivity.
  set (X := a # b) in *. set (A := inject_Z a) in *.
  set (B := inject_Z (Zpos b)) in *.
  set (P := pow2 (la - lb)) in *. set (PA := pow2 la) in *.
  set (PB := pow2 lb) in *.
  destruct (Qle_bool P X) eqn:E.
  - apply Qle_bool_iff in E. split; [exact E |].
    fold P. rewrite pow2_succ. fold P.
    destruct (Qlt_le_dec X (2 * P)) as [H | H]; [exact H | exfalso].
    assert (H1 : 0 <= (X - 2 * P) * B) by nra.
    assert (H2 : 0 <= P * (B - PB)) by nra.
    nra.
  - assert (E' : X < P).
    { apply Qnot_le_lt. intros H. apply Qle_bool_iff in H. congruence. }
    replace (la - lb - 1 + 1)%Z with (la - lb)%Z by lia. fold P.
    split; [| exact E'].
    assert (HP1 : 2 * pow2 (la - lb - 1) == P).
    { rewrite <- pow2_succ. replace (la - lb - 1 + 1)%Z with (la - lb)%Z by lia.
      reflexivity. }
    pose proof (pow2_pos (la - lb - 1)) as HP1pos.
    set (P1 := pow2 (la - lb - 1)) in *.
    destruct (Qlt_le_dec X P1) as [H | H]; [exfalso | exact H].
    assert (H1 : 0 <= (P1 - X) * B) by nra.
    assert (H2 : 0 <= P1 * (2 * PB - B)) by nra.
    nra.
Qed.

Lemma ilog2_mono (x y : Q) : 0 < x -> x <= y -> (ilog2 x <= ilog2 y)%Z.
Proof.
  intros Hx Hxy.
  destruct (ilog2_spec x Hx) as [Hl _].
  destruct (ilog2_spec y) as [_ Hu]; [lra |].
  assert (H : pow2 (ilog2 x) < pow2 (ilog2 y + 1)) by lra.
  apply pow2_lt_inv in H. lia.
Qed.

Lemma div_pow2_le (x : Q) (e k : Z) :
  x <= pow2 (k + e) -> x / pow2 e <= pow2 k.
Proof.
  intros H. apply Qle_shift_div_r; [apply pow2_pos |].
  rewrite <- pow2_add. exact H.
Qed.

Lemma div_pow2_ge (x : Q) (e k : Z) :
  pow2 (k + e) <= x -> pow2 k <= x / pow2 e.
Proof.
  intros H. apply Qle_shift_div_l; [apply pow2_pos |].
  rewrite <- pow2_add. exact H.
Qed.

Lemma round_pos_upper (F : Format) (x : Q) :
  (1 <= prec F)%Z -> 0 < x ->
  round_pos F x <= pow2 (prec F + ulp_exp F x).
Proof.
  intros Hp Hx. unfold round_pos. cbv zeta.
  set (e := ulp_exp F x).
  destruct (ilog2_spec x Hx) as [_ Hu].
  assert (He : (ilog2 x + 1 <= prec F + e)%Z) by (unfold e, ulp_exp; lia).
  assert (Hq : x / pow2 e <= inject_Z (2 ^ prec F)).
  { rewrite pow2_Z by lia. apply div_pow2_le.
    pose proof (pow2_le _ _ He). lra. }
  apply rne_le_int in Hq. rewrite Zle_Qle in Hq.
  rewrite pow2_Z in Hq by lia. rewrite pow2_add.
  pose proof (pow2_pos e). nra.
Qed.

Lemma round_pos_lower (F : Format) (x : Q) :
  (1 <= prec F)%Z -> 0 < x -> (emin F < ulp_exp F x)%Z ->
  pow2 (prec F - 1 + ulp_exp F x) <= round_pos F x.
Proof.
  intros Hp Hx Hmin. unfold round_pos. cbv zeta.
  set (e := ulp_exp F x) in *.
  destruct (ilog2_spec x Hx) as [Hl _].
  assert (He : (prec F - 1 + e = ilog2 x)%Z) by (unfold e, ulp_exp in *; lia).
  assert (Hq : inject_Z (2 ^ (prec F - 1)) <= x / pow2 e).
  { rewrite pow2_Z by lia. apply div_pow2_ge. rewrite He. exact Hl. }
  apply rne_ge_int in Hq. rewrite Zle_Qle in Hq.
  rewrite pow2_Z in Hq by lia. rewrite pow2_add.
  pose proof (pow2_pos e). nra.
Qed.

Lemma round_pos_mono (F : Format) (x y : Q) :
  (1 <= prec F)%Z -> 0 < x -> x <= y ->
  round_pos F x <= round_pos F y.
Proof.
  intros Hp Hx Hxy.
  assert (Hy : 0 < y) by lra.
  pose proof (ilog2_mono x y Hx Hxy) as Hlog.
  assert (He : (ulp_exp F x <= ulp_exp F y)%Z) by (unfold ulp_exp; lia).
  destruct (Z.eq_dec (ulp_exp F x) (ulp_exp F y)) as [E | E].
  - unfold round_pos. cbv zeta. rewrite E.
    set (e := ulp_exp F y). pose proof (pow2_pos e) as Hpe.
    assert (Hq : x / pow2 e <= y / pow2 e).
    { apply Qle_shift_div_l; [exact Hpe |].
      unfold Qdiv. rewrite <- Qmult_assoc, (Qmult_comm (/ pow2 e)).
      rewrite Qmult_inv_r by lra. lra. }
    apply rne_mono in Hq. rewrite Zle_Qle in Hq. nra.
  - pose proof (round_pos_upper F x Hp Hx) as Hu.
    assert (Hmin : (emin F < ulp_exp F y)%Z) by (unfold ulp_exp in *; lia).
    pose proof (round_pos_lower F y Hp Hy Hmin) as Hl.
    assert (Hle : (prec F + ulp_exp F x <= prec F - 1 + ulp_exp F y)%Z) by lia.
    pose proof (pow2_le _ _ Hle). lra.
Qed.

Lemma round_pos_eq (F : Format) (x : Q) : 0 < x -> round F x = round_pos F x.
Proof.
  intros Hx. unfold round.
  destruct (Qcompare_cases x 0) as [[-> E] | [[-> E] | [-> E]]];
    [exfalso; lra | exfalso; lra | reflexivity].
Qed.

Lemma round_mono (F : Format) (x y : Q) :
  (1 <= prec F)%Z -> 0 < x -> x <= y -> round F x <= round F y.
Proof.
  intros Hp Hx Hxy. rewrite !round_pos_eq by lra.
  apply round_pos_mono; assumption.
Qed.

Lemma score_fl_mono (F : Format) (d1 d2 : Q) :
  (1 <= prec F)%Z -> round F 1 == 1 ->
  0 <= d1 -> d1 <= d2 -> score_fl F d2 <= score_fl F d1.
Proof.
  intros Hp H1 Hd1 Hd.
  unfold score_fl.
  assert (Ha : round F 1 <= round F (1 + d1))
    by (apply round_mono; [exact Hp | lra | lra]).
  assert (Hb : round F (1 + d1) <= round F (1 + d2))
    by (apply round_mono; [exact Hp | lra | lra]).
  set (r1 := round F (1 + d1)) in *. set (r2 := round F (1 + d2)) in *.
  assert (Hr1 : 0 < r1) by lra. assert (Hr2 : 0 < r2) by lra.
  apply round_mono; [exact Hp | |].
  - apply Qlt_shift_div_l; lra.
  - apply Qle_shift_div_l; [exact Hr1 |].
    unfold Qdiv. rewrite Qmult_1_l.
    setoid_replace (/ r2 * r1) with (r1 / r2) by (unfold Qdiv; ring).
    apply Qle_shift_div_r; lra.
Qed.

End FloatScores.

Lemma Qltb_lt (a b : Q) : Qltb a b = true <-> (a < b)%Q.
Proof.
  unfold Qltb. rewrite Qlt_alt. destruct (a ?= b)%Q; split; intros H;
    try reflexivity; discriminate.
Qed.

Lemma Qltb_ge (a b : Q) : Qltb a b = false <-> (b <= a)%Q.
Proof.
  rewrite <- not_true_iff_false, Qltb_lt. split.
  - apply Qnot_lt_le.
  - apply Qle_not_lt.
Qed.

Lemma Qltb_asym : ltb_asym Qltb.
Proof.
  intros a b H. apply Qltb_lt in H. apply Qltb_ge, Qlt_le_weak. exact H.
Qed.

Lemma Qltb_negtrans : ltb_negtrans Qltb.
Proof.
  intros a b c H1 H2. apply Qltb_ge in H1, H2. apply Qltb_ge.
  eapply Qle_trans; eassumption.
Qed.

(** The rounding model computes what the Standard Library's IEEE 754
    operations compute, on the sample values. *)
Lemma score_fl_agrees_with_SpecFloat :
  forallb (agrees binary32 sf_score32) sample_floats = true
  /\ forallb (agrees binary64 sf_score64) sample_floats = true.
Proof. split; vm_compute; reflexivity. Qed.

Lemma score_fl_range (F : Format) (d : Q) :
  F = binary32 \/ F = binary64 ->
  (0 <= d)%Q -> (d <= FLT_MAX)%Q ->
  (round F (1 + d) <= FLT_MAX)%Q
  /\ (0 < score_fl F d)%Q /\ (score_fl F d <= 1)%Q.
Proof.
  intros HF Hd0 Hd1.
  assert (Hp : 1 <= prec F) by (destruct HF as [-> | ->]; cbn; lia).
  assert (H1 : (round F 1 == 1)%Q) by (destruct HF as [-> | ->]; reflexivity).
  assert (Hsum : (round F (1 + FLT_MAX) <= FLT_MAX)%Q)
    by (destruct HF as [-> | ->]; vm_compute; discriminate).
  assert (Hlo : (0 < score_fl F FLT_MAX)%Q)
    by (destruct HF as [-> | ->]; vm_compute; reflexivity).
  assert (Hhi : (score_fl F 0 <= 1)%Q)
    by (destruct HF as [-> | ->]; vm_compute; discriminate).
  pose proof (score_fl_mono F d FLT_MAX Hp H1 Hd0 Hd1) as Ha.
  pose proof (score_fl_mono F 0 d Hp H1 (Qle_refl 0) Hd0) as Hb.
  assert (Hc : (round F (1 + d) <= round F (1 + FLT_MAX))%Q)
    by (apply round_mono; [exact Hp | lra | lra]).
  repeat split; lra.
Qed.

(** C6 (amended).  In binary32 and in binary64 the score of a record is
    [1 / (1 + distance)] as the float operations evaluate it, each
    rounded to nearest; for every finite non-negative binary32 distance
    the sum does not overflow and the score is strictly positive (and at
    most 1), and of two distances the larger one never has the larger
    score. *)
Theorem score_positive_nonincreasing (F : Format) :
  F = binary32 \/ F = binary64 ->
  (forall (Embedding : Type) (c : CorpusIndex Embedding Q) (dist : Q)
          (idx : Z) (rest : list (Q * Z)) (r : Doc Q) (rs : list (Doc Q)),
     idx <> -1 ->
     result (search_hits (score_fl F) c ((dist, idx) :: rest)) = Ok (r :: rs) ->
     score r = round F (1 / round F (1 + dist))%Q)
  /\ (forall d : Q,
        (0 <= d)%Q -> (d <= FLT_MAX)%Q ->
        (round F (1 + d) <= FLT_MAX)%Q
        /\ (0 < score_fl F d)%Q /\ (score_fl F d <= 1)%Q)
  /\ (forall d1 d2 : Q,
        (0 <= d1)%Q -> (d1 <= d2)%Q -> (score_fl F d2 <= score_fl F d1)%Q).
Proof.
  intros HF. split; [| split].
  - intros Embedding c dist idx rest r rs Hidx Hres.
    apply (search_hits_head_score Embedding Q Q (score_fl F) c dist idx rest
             r rs Hidx Hres).
  - intros d. apply score_fl_range. exact HF.
  - intros d1 d2. apply score_fl_mono; destruct HF as [-> | ->];
      cbn; try lia; reflexivity.
Qed.

(** The binary32 distances 0 and 2^-60 have the same score, 1, in both
    formats, with the rounding of this file and with the operations of
    the Standard Library, and that score is not the exact quotient. *)
Lemma score_not_strictly_decreasing :
  sf_score32 (S754_finite false 8388608 (-83)) = sf_score32 (S754_zero false)
  /\ sf_score64 (S754_finite false 8388608 (-83)) = sf_score64 (S754_zero false)
  /\ (exists d, SF2Q (S754_finite false 8388608 (-83)) = Some d
                /\ (d == pow2 (-60))%Q)
  /\ (round binary32 (pow2 (-60)) == pow2 (-60))%Q
  /\ (0 < pow2 (-60))%Q
  /\ (pow2 (-60) <= FLT_MAX)%Q
  /\ ~ (score_fl binary32 (pow2 (-60)) < score_fl binary32 0)%Q
  /\ ~ (score_fl binary64 (pow2 (-60)) < score_fl binary64 0)%Q
  /\ ~ (score_fl binary32 (pow2 (-60)) == 1 / (1 + pow2 (-60)))%Q
  /\ ~ (score_fl binary64 (pow2 (-60)) == 1 / (1 + pow2 (-60)))%Q.
Proof.
  split; [vm_compute; reflexivity |].
  split; [vm_compute; reflexivity |].
  split; [eexists; split; [reflexivity | vm_compute; reflexivity] |].
  split; [vm_compute; reflexivity |].
  split; [vm_compute; reflexivity |].
  split; [vm_compute; discriminate |].
  repeat split; vm_compute; intros H; discriminate H.
Qed.

(** C4. The hint is matched with both sides case folded ("HDFC" finds
    the corpus "hdfc"), and a corpus stored as "Common" is counted as the
    shared corpus by [available_banks] and skipped as such by the
    unhinted selection; but [self._corpora.get("common")] compares the
    stored name as it is, so that corpus is never searched: the unhinted
    query that returns its record when the name is "common" returns
    nothing when the name is "Common". *)
Theorem shared_lookup_case_sensitive :
  find_bank seven_corpora (lower "HDFC") = Some hdfc_corpus
  /\ available_banks capital_common = []
  /\ corpora_get capital_common "common" = None
  /\ corpora_to_search capital_common None = []
  /\ result (retrieve length_embedding float32_score Qltb capital_common
               "fees" None None) = Ok []
  /\ map (fun r => (bank r, raw_chunk r))
         (match result (retrieve length_embedding float32_score Qltb
                          lowercase_common "fees" None None) with
          | Ok docs => docs
          | Raise _ => []
          end)
     = [("common", "fees")].
Proof. repeat split; vm_compute; reflexivity. Qed.

Lemma snippet_strips_before_flattening :
  map snippet (build_sources_for_llm [padded_doc]) = ["fees"]
  /\ str_take 400 (flatten_newlines (merged_text padded_doc)) = "  fees"
  /\ map snippet (build_sources_for_llm [padded_doc])
     <> [str_take 400 (flatten_newlines (merged_text padded_doc))].
Proof.
  split; [reflexivity |]. split; [reflexivity |].
  vm_compute. discriminate.
Qed.

(** ** The theorems at concrete inputs *)

Lemma retrieve_unhinted_fusion_witness :
  truthy None = false /\ ltb_asym Qltb /\ ltb_negtrans Qltb /\
  exists all docs,
    result (search_all float32_score (corpora_to_search seven_corpora None)
              (length_embedding "abcde") (top_k_or_default None)) = Ok all
    /\ result (retrieve length_embedding float32_score Qltb seven_corpora
                 "abcde" None None) = Ok docs
    /\ StronglySorted (desc Qltb score) docs
    /\ Z.of_nat (List.length (scoped_names docs))
       <= MAX_BANKS_WHEN_NO_BANK_SPECIFIED.
Proof.
  split; [reflexivity |].
  split; [exact Qltb_asym |]. split; [exact Qltb_negtrans |].
  eexists.
  assert (Hall : result (search_all float32_score
                           (corpora_to_search seven_corpora None)
                           (length_embedding "abcde") (top_k_or_default None))
                 = Ok _) by (vm_compute; reflexivity).
  destruct (retrieve_unhinted_fusion Q Q Q length_embedding float32_score Qltb
              seven_corpora "abcde" None None _ eq_refl Qltb_asym
              Qltb_negtrans Hall)
    as (sorted & selected & docs & Hres & _ & _ & _ & _ & _ & _ & _
        & Hsorted & Hnames).
  exists docs. split; [exact Hall |]. split; [exact Hres |].
  split; [exact Hsorted | exact Hnames].
Defined.

Lemma merge_neighbors_adjacency_witness :
  List.length (metadatas common_corpus) = List.length (chunks common_corpus)
  /\ 0 <= 1
  /\ nth_error (metadatas common_corpus) (Z.to_nat 1) = Some (meta "A.pdf" 1)
  /\ chunk_id (meta "A.pdf" 1) = Some 1
  /\ nth_error (chunks common_corpus) (Z.to_nat 1) = Some "apply online"
  /\ (exists pre post,
        result (_merge_neighbors common_corpus 1)
        = Ok (join newline (pre ++ ["apply online"] ++ post)))
  /\ result (_merge_neighbors common_corpus 1)
     = Ok ("kyc rules" ++ newline ++ "apply online" ++ newline
           ++ "fees and charges")%string.
Proof.
  destruct (merge_neighbors_adjacency Q Q) as [Hgeneral Hscenario].
  assert (H0 : 0 <= 1) by lia.
  destruct (Hgeneral common_corpus 1 (meta "A.pdf" 1) 1 "apply online"
              eq_refl H0 eq_refl eq_refl eq_refl)
    as (pre & post & Hres & _).
  repeat (split; [reflexivity || exact H0 |]).
  split; [exists pre, post; exact Hres |].
  apply (Hscenario "common" (flat_l2_index [3; 9; 20]%Q) (Some "A.pdf")).
Defined.

Lemma retrieve_hinted_scope_witness :
  "HDFC" <> ""
  /\ find_bank seven_corpora (lower "HDFC") = Some hdfc_corpus
  /\ is_common_name (name hdfc_corpus) = false
  /\ corpora_to_search seven_corpora (Some "HDFC")
     = [hdfc_corpus; common_corpus]
  /\ (forall docs r,
        result (retrieve length_embedding float32_score Qltb seven_corpora
                  "abcde" (Some "HDFC") None) = Ok docs ->
        In r docs -> bank r <> "sbi")
  /\ exists bank_docs common_docs,
       result (_search_single_corpus float32_score hdfc_corpus
                 (length_embedding "abcde") (top_k_or_default None))
       = Ok bank_docs
       /\ result (_search_single_corpus float32_score common_corpus
                    (length_embedding "abcde") (top_k_or_default None))
          = Ok common_docs
       /\ bank_docs <> []
       /\ result (retrieve length_embedding float32_score Qltb seven_corpora
                    "abcde" (Some "HDFC") None)
          = Ok (slice_to (sort_desc Qltb score (bank_docs ++ common_docs))
                  (top_k_or_default None * 2)).
Proof.
  assert (Hh : "HDFC" <> "") by discriminate.
  destruct (retrieve_hinted_scope Q Q Q length_embedding float32_score Qltb
              seven_corpora "abcde" "HDFC" None hdfc_corpus Hh eq_refl
              eq_refl)
    as (_ & _ & Hcs & _ & Hother & _ & Hval).
  split; [exact Hh |]. split; [reflexivity |]. split; [reflexivity |].
  split; [exact Hcs |].
  split.
  { intros docs r Hres Hin.
    apply (Hother docs r (bank_corpus "sbi" 6) Hres Hin).
    - right. right. left. reflexivity.
    - reflexivity.
    - discriminate. }
  eexists. eexists.
  assert (Hb : result (_search_single_corpus float32_score hdfc_corpus
                         (length_embedding "abcde") (top_k_or_default None))
               = Ok _) by (vm_compute; reflexivity).
  assert (Hc : result (_search_single_corpus float32_score common_corpus
                         (length_embedding "abcde") (top_k_or_default None))
               = Ok _) by (vm_compute; reflexivity).
  split; [exact Hb |]. split; [exact Hc |]. split; [discriminate |].
  change (corpora_get seven_corpora "common") with (Some common_corpus)
    in Hval.
  rewrite Hb, Hc in Hval. exact Hval.
Defined.

Lemma hdfc_corpus_wf : corpus_wf hdfc_corpus.
Proof.
  split; [reflexivity |]. repeat constructor; discriminate.
Qed.

Lemma hdfc_hits_contract :
  faiss_search_contract (List.length (chunks hdfc_corpus)) 5 hdfc_hits.
Proof.
  split; [reflexivity |]. split.
  - repeat constructor; cbn; lia.
  - repeat constructor.
Qed.

Lemma search_single_corpus_budget_witness :
  index hdfc_corpus 5%Q 5 = Ok hdfc_hits
  /\ Z.of_nat (List.length hdfc_hits) = 5
  /\ corpus_wf hdfc_corpus
  /\ faiss_search_contract (List.length (chunks hdfc_corpus)) 5 hdfc_hits
  /\ exists docs,
       result (_search_single_corpus float32_score hdfc_corpus 5%Q 5) = Ok docs
       /\ List.length docs = 2%nat.
Proof.
  assert (Hix : index hdfc_corpus 5%Q 5 = Ok hdfc_hits)
    by (vm_compute; reflexivity).
  destruct (search_single_corpus_budget Q Q Q float32_score hdfc_corpus 5%Q 5
              hdfc_hits Hix eq_refl)
    as (_ & _ & Hexact).
  destruct (Hexact hdfc_corpus_wf hdfc_hits_contract)
    as (docs & Hres & _ & _ & Hall).
  split; [exact Hix |]. split; [reflexivity |].
  split; [exact hdfc_corpus_wf |]. split; [exact hdfc_hits_contract |].
  exists docs. split; [exact Hres |]. apply Hall. cbn. lia.
Defined.

Lemma retrieve_unresolved_hint_witness :
  "xyz" <> ""
  /\ (forall c, In c seven_corpora -> lower (name c) <> lower "xyz")
  /\ corpora_to_search seven_corpora (Some "xyz") = [common_corpus]
  /\ forall docs r,
       result (retrieve length_embedding float32_score Qltb seven_corpora
                 "abcde" (Some "xyz") None) = Ok docs ->
       In r docs -> bank r = "common".
Proof.
  assert (Hh : "xyz" <> "") by discriminate.
  assert (Hnone : forall c, In c seven_corpora ->
                            lower (name c) <> lower "xyz").
  { intros c Hc. cbn in Hc.
    repeat (destruct Hc as [<- | Hc]; [discriminate |]). destruct Hc. }
  destruct (retrieve_unresolved_hint Q Q Q length_embedding float32_score Qltb
              seven_corpora "abcde" "xyz" None Hh Hnone)
    as (Hcs & _ & Hshared).
  split; [exact Hh |]. split; [exact Hnone |]. split; [exact Hcs |].
  intros docs r. apply (Hshared common_corpus eq_refl).
Defined.

Lemma retrieve_no_corpora_witness :
  corpora_to_search capital_common (Some "hdfc") = []
  /\ retrieve length_embedding float32_score Qltb capital_common "fees"
       (Some "hdfc") (Some (-3))
     = ([], Ok [])
  /\ @_load_all_corpora Q Q (Some []) = Ok []
  /\ retrieve length_embedding float32_score Qltb [] "fees" None (Some 0)
     = ([], Ok []).
Proof.
  destruct (retrieve_no_corpora Q Q Q length_embedding float32_score Qltb)
    as (Hempty & _ & Hload).
  split; [reflexivity |].
  split; [apply Hempty; reflexivity |].
  split; [reflexivity |].
  apply Hload. reflexivity.
Defined.

Lemma neighbor_repair_in_bounds_witness :
  List.length (metadatas common_corpus) = List.length (chunks common_corpus)
  /\ 0 <= 0 < Z.of_nat (List.length (chunks common_corpus))
  /\ nth_error (metadatas common_corpus) (Z.to_nat 0) = Some (meta "A.pdf" 0)
  /\ chunk_id (meta "A.pdf" 0) = Some 0
  /\ (forall arr p,
        In (arr, p) (reads (_merge_neighbors common_corpus 0)) ->
        0 <= p < 3 /\ (p = 0 - 1 \/ p = 0 \/ p = 0 + 1))
  /\ exists cur merged,
       result (_merge_neighbors common_corpus 0) = Ok merged
       /\ substring_of cur merged.
Proof.
  assert (Hidx : 0 <= 0 < Z.of_nat (List.length (chunks common_corpus)))
    by (cbn; lia).
  destruct (neighbor_repair_in_bounds Q Q Q float32_score common_corpus 0
              (meta "A.pdf" 0) 0 eq_refl Hidx eq_refl eq_refl)
    as (Hreads & (cur & merged & _ & Hres & _ & Hsub & _) & _).
  split; [reflexivity |]. split; [exact Hidx |].
  split; [reflexivity |]. split; [reflexivity |].
  split; [exact Hreads |].
  exists cur, merged. split; [exact Hres | exact Hsub].
Defined.

Lemma build_sources_first_occurrence_witness :
  strip (merged_text stripped_doc) = merged_text stripped_doc
  /\ all_chars (fun c => (negb (is_linebreak c) || is_lf c)%bool)
               (merged_text stripped_doc) = true
  /\ snippet (source_of stripped_doc) = "fees charges"
  /\ map snippet
         (build_sources_for_llm
            [stripped_doc; padded_doc; stripped_doc])
     = ["fees charges"].
Proof.
  destruct (build_sources_first_occurrence Q
              [stripped_doc; padded_doc; stripped_doc])
    as (Hout & _ & _ & _ & Hsnip).
  destruct (Hsnip stripped_doc) as (_ & _ & _ & Hflat).
  split; [reflexivity |]. split; [reflexivity |].
  split; [rewrite (Hflat eq_refl eq_refl); reflexivity |].
  rewrite Hout. reflexivity.
Defined.

Lemma score_positive_nonincreasing_witness :
  (binary32 = binary32 \/ binary32 = binary64)
  /\ (0 < score_fl binary32 3)%Q
  /\ (score_fl binary32 3 <= score_fl binary32 (1 # 3))%Q.
Proof.
  destruct (score_positive_nonincreasing binary32 (or_introl eq_refl))
    as (_ & Hpos & Hmono).
  split; [left; reflexivity |]. split.
  - apply (Hpos 3%Q); vm_compute; discriminate.
  - apply Hmono; vm_compute; discriminate.
Defined.

(** ** The further properties at concrete inputs *)

Lemma retrieve_returns_part_of_working_set_witness :
  exists docs all dropped,
    result (retrieve length_embedding float32_score Qltb seven_corpora
              "abcde" None None) = Ok docs
    /\ result (search_all float32_score (corpora_to_search seven_corpora None)
                 (length_embedding "abcde") (top_k_or_default None)) = Ok all
    /\ Permutation all (docs ++ dropped).
Proof.
  eexists.
  assert (Hres : result (retrieve length_embedding float32_score Qltb
                           seven_corpora "abcde" None None) = Ok _)
    by (vm_compute; reflexivity).
  destruct (retrieve_returns_part_of_working_set Q Q Q length_embedding
              float32_score Qltb seven_corpora "abcde" None None _ Hres)
    as (all & dropped & Hall & Hperm & _).
  exists all, dropped. split; [exact Hres |]. split; [exact Hall | exact Hperm].
Defined.

Lemma two_corpora_wellformed :
  forall c, In c two_corpora ->
    corpus_wf c /\
    exists hits,
      index c (length_embedding "abcde") (top_k_or_default None) = Ok hits
      /\ Forall (hit_in_range c) hits.
Proof.
  intros c [<- | [<- | []]].
  - split; [split; [reflexivity | repeat constructor; discriminate] |].
    eexists. split; [vm_compute; reflexivity |].
    repeat (constructor;
            [first [left; reflexivity | right; cbn; lia] |]).
    constructor.
  - split; [split; [reflexivity | repeat constructor; discriminate] |].
    eexists. split; [vm_compute; reflexivity |].
    repeat (constructor;
            [first [left; reflexivity | right; cbn; lia] |]).
    constructor.
Qed.

Lemma retrieve_succeeds_on_wellformed_store_witness :
  (forall c, In c two_corpora ->
     corpus_wf c /\
     exists hits,
       index c (length_embedding "abcde") (top_k_or_default None) = Ok hits
       /\ Forall (hit_in_range c) hits)
  /\ exists docs,
       result (retrieve length_embedding float32_score Qltb two_corpora
                 "abcde" None None) = Ok docs.
Proof.
  split; [exact two_corpora_wellformed |].
  destruct (retrieve_succeeds_on_wellformed_store Q Q Q length_embedding
              float32_score Qltb two_corpora "abcde" None None
              two_corpora_wellformed) as (docs & Hres & _).
  exists docs. exact Hres.
Defined.

Lemma retrieve_result_size_witness :
  0 <= top_k_or_default None
  /\ exists docs,
       result (retrieve length_embedding float32_score Qltb seven_corpora
                 "abcde" None None) = Ok docs
       /\ Z.of_nat (List.length docs)
          <= top_k_or_default None * (1 + MAX_BANKS_WHEN_NO_BANK_SPECIFIED).
Proof.
  assert (Hk : 0 <= top_k_or_default None) by (vm_compute; discriminate).
  split; [exact Hk |]. eexists.
  assert (Hres : result (retrieve length_embedding float32_score Qltb
                           seven_corpora "abcde" None None) = Ok _)
    by (vm_compute; reflexivity).
  split; [exact Hres |].
  destruct (retrieve_result_size Q Q Q length_embedding float32_score Qltb
              seven_corpora "abcde" None None _ Hk Hres) as [_ Hunhinted].
  apply Hunhinted. reflexivity.
Defined.

Lemma hdfc_hint_searches :
  corpora_to_search seven_corpora (Some "HDFC") = [hdfc_corpus; common_corpus].
Proof. reflexivity. Qed.

Lemma hdfc_hint_budget :
  forall c hits,
    In c (corpora_to_search seven_corpora (Some "HDFC")) ->
    index c (length_embedding "abcde") (top_k_or_default None) = Ok hits ->
    Z.of_nat (List.length hits) <= top_k_or_default None.
Proof.
  intros c hits Hin Hix. rewrite hdfc_hint_searches in Hin.
  destruct Hin as [<- | [<- | []]]; vm_compute in Hix;
    injection Hix as <-; vm_compute; discriminate.
Qed.

Lemma retrieve_hinted_keeps_every_hit_witness :
  truthy (Some "HDFC") = true
  /\ (forall c hits,
        In c (corpora_to_search seven_corpora (Some "HDFC")) ->
        index c (length_embedding "abcde") (top_k_or_default None) = Ok hits ->
        Z.of_nat (List.length hits) <= top_k_or_default None)
  /\ exists all,
       result (search_all float32_score
                 (corpora_to_search seven_corpora (Some "HDFC"))
                 (length_embedding "abcde") (top_k_or_default None)) = Ok all
       /\ result (retrieve length_embedding float32_score Qltb seven_corpora
                    "abcde" (Some "HDFC") None)
          = Ok (sort_desc Qltb score all).
Proof.
  split; [reflexivity |]. split; [exact hdfc_hint_budget |]. eexists.
  assert (Hall : result (search_all float32_score
                           (corpora_to_search seven_corpora (Some "HDFC"))
                           (length_embedding "abcde") (top_k_or_default None))
                 = Ok _) by (vm_compute; reflexivity).
  split; [exact Hall |].
  apply (retrieve_hinted_keeps_every_hit Q Q Q length_embedding float32_score
           Qltb seven_corpora "abcde" (Some "HDFC") None _ eq_refl
           hdfc_hint_budget Hall).
Defined.

Lemma seven_corpora_one_common :
  forall c', In c' seven_corpora -> is_common_name (name c') = true ->
             name c' = "common".
Proof.
  intros c' Hin Hc.
  repeat (destruct Hin as [<- | Hin];
          [first [reflexivity | vm_compute in Hc; discriminate Hc] |]).
  destruct Hin.
Qed.

Lemma retrieve_hint_names_shared_corpus_witness :
  "Common" <> ""
  /\ lower "Common" = "common"
  /\ corpora_get seven_corpora "common" = Some common_corpus
  /\ (forall c', In c' seven_corpora -> is_common_name (name c') = true ->
                 name c' = "common")
  /\ corpora_to_search seven_corpora (Some "Common")
     = [common_corpus; common_corpus].
Proof.
  assert (Hh : "Common" <> "") by discriminate.
  split; [exact Hh |]. split; [reflexivity |]. split; [reflexivity |].
  split; [exact seven_corpora_one_common |].
  apply (retrieve_hint_names_shared_corpus Q Q Q length_embedding
           float32_score Qltb seven_corpora "abcde" "Common" None
           common_corpus Hh eq_refl eq_refl seven_corpora_one_common).
Defined.

Lemma available_banks_resolve_witness :
  In "hdfc" (available_banks seven_corpora)
  /\ exists c, find_bank seven_corpora (lower "hdfc") = Some c
               /\ is_common_name (name c) = false.
Proof.
  assert (Hin : In "hdfc" (available_banks seven_corpora))
    by (left; reflexivity).
  split; [exact Hin |].
  destruct (available_banks_resolve Q Q seven_corpora "hdfc" Hin)
    as (c & Hfind & _ & _ & Hscoped & _).
  exists c. split; [exact Hfind | exact Hscoped].
Defined.

Lemma retrieve_unhinted_bank_coverage_witness :
  truthy None = false
  /\ 1 <= top_k_or_default None
  /\ exists all docs,
       result (search_all float32_score (corpora_to_search seven_corpora None)
                 (length_embedding "abcde") (top_k_or_default None)) = Ok all
       /\ result (retrieve length_embedding float32_score Qltb seven_corpora
                    "abcde" None None) = Ok docs
       /\ List.length (scoped_names docs)
          = Nat.min 5 (List.length (scoped_names all)).
Proof.
  assert (Hk : 1 <= top_k_or_default None) by (vm_compute; discriminate).
  split; [reflexivity |]. split; [exact Hk |]. eexists.
  assert (Hall : result (search_all float32_score
                           (corpora_to_search seven_corpora None)
                           (length_embedding "abcde") (top_k_or_default None))
                 = Ok _) by (vm_compute; reflexivity).
  destruct (retrieve_unhinted_bank_coverage Q Q Q length_embedding
              float32_score Qltb seven_corpora "abcde" None None _ eq_refl Hk
              Hall) as (docs & Hres & Hlen & _).
  exists docs. split; [exact Hall |]. split; [exact Hres | exact Hlen].
Defined.

Lemma retrieve_first_record_is_best_witness :
  1 <= top_k_or_default None
  /\ ltb_asym Qltb /\ ltb_negtrans Qltb
  /\ exists all top rest,
       result (search_all float32_score (corpora_to_search seven_corpora None)
                 (length_embedding "abcde") (top_k_or_default None)) = Ok all
       /\ all <> []
       /\ result (retrieve length_embedding float32_score Qltb seven_corpora
                    "abcde" None None) = Ok (top :: rest)
       /\ forall r, In r all -> Qltb (score top) (score r) = false.
Proof.
  assert (Hk : 1 <= top_k_or_default None) by (vm_compute; discriminate).
  split; [exact Hk |].
  split; [exact Qltb_asym |]. split; [exact Qltb_negtrans |]. eexists.
  assert (Hall : result (search_all float32_score
                           (corpora_to_search seven_corpora None)
                           (length_embedding "abcde") (top_k_or_default None))
                 = Ok _) by (vm_compute; reflexivity).
  match type of Hall with
  | _ = Ok ?l => assert (Hne : l <> []) by discriminate
  end.
  destruct (retrieve_first_record_is_best Q Q Q length_embedding
              float32_score Qltb seven_corpora "abcde" None None _ Hk
              Qltb_asym Qltb_negtrans Hall Hne)
    as (top & rest & Hres & _ & Hbest).
  exists top, rest. split; [exact Hall |]. split; [exact Hne |].
  split; [exact Hres | exact Hbest].
Defined.

Lemma retrieve_unhinted_keeps_everything_witness :
  truthy None = false
  /\ exists all docs,
       result (search_all float32_score (corpora_to_search two_corpora None)
                 (length_embedding "abcde") (top_k_or_default None)) = Ok all
       /\ (List.length (scoped_names all) <= 5)%nat
       /\ Z.of_nat (List.length (filter is_common all)) <= top_k_or_default None
       /\ (forall b, Z.of_nat (List.length (filter (has_bank b) all))
                     <= top_k_or_default None)
       /\ result (retrieve length_embedding float32_score Qltb two_corpora
                    "abcde" None None) = Ok docs
       /\ Permutation docs all.
Proof.
  split; [reflexivity |]. eexists.
  assert (Hall : result (search_all float32_score
                           (corpora_to_search two_corpora None)
                           (length_embedding "abcde") (top_k_or_default None))
                 = Ok _) by (vm_compute; reflexivity).
  match type of Hall with
  | _ = Ok ?l =>
      assert (Hfew : (List.length (scoped_names l) <= 5)%nat)
        by (vm_compute; repeat constructor);
      assert (Hcommon : Z.of_nat (List.length (filter is_common l))
                        <= top_k_or_default None)
        by (vm_compute; discriminate);
      assert (Hbanks : forall b,
                Z.of_nat (List.length (filter (has_bank b) l))
                <= top_k_or_default None)
        by (intros b;
            pose proof (filter_length_le (has_bank b) l) as Hle;
            change (Z.of_nat (List.length (filter (has_bank b) l)) <= 5);
            etransitivity; [apply inj_le, Hle |];
            vm_compute; discriminate)
  end.
  destruct (retrieve_unhinted_keeps_everything Q Q Q length_embedding
              float32_score Qltb two_corpora "abcde" None None _ eq_refl Hall
              Hfew Hcommon Hbanks) as (docs & Hres & Hperm).
  exists docs. split; [exact Hall |]. split; [exact Hfew |].
  split; [exact Hcommon |]. split; [exact Hbanks |].
  split; [exact Hres | exact Hperm].
Defined.

Lemma chunk_text_returns_windows_witness :
  1 < 4
  /\ (window_count "abcdefghij" (4 - 1) < 10)%nat
  /\ chunk_text 10 "abcdefghij" 4 1 = Some (windows "abcdefghij" 4 1)
  /\ windows "abcdefghij" 4 1 = ["abcd"; "defg"; "ghij"; "j"].
Proof.
  assert (Hstep : 1 < 4) by lia.
  assert (Hfuel : (window_count "abcdefghij" (4 - 1) < 10)%nat)
    by (vm_compute; repeat constructor).
  split; [exact Hstep |]. split; [exact Hfuel |].
  split; [| reflexivity].
  apply (proj1 (chunk_text_returns_windows "abcdefghij" 4 1 10 Hstep) Hfuel).
Defined.

Lemma chunk_text_diverges_witness :
  4 <= 4 /\ "abc" <> "" /\ chunk_text 1000 "abc" 4 4 = None.
Proof.
  assert (Hstep : 4 <= 4) by lia.
  assert (Hne : "abc" <> "") by discriminate.
  split; [exact Hstep |]. split; [exact Hne |].
  apply (chunk_text_diverges "abc" 4 4 Hstep Hne 1000%nat).
Defined.

Lemma chunk_text_chunks_witness :
  chunk_text 10 "  ab cd efgh  " 6 2 = Some ["ab c"; "cd ef"; "efgh"]
  /\ Forall (fun c => strip c = c /\ Z.of_nat (String.length c) <= 6)
       ["ab c"; "cd ef"; "efgh"].
Proof.
  assert (Hrun : chunk_text 10 "  ab cd efgh  " 6 2
                 = Some ["ab c"; "cd ef"; "efgh"]) by reflexivity.
  split; [exact Hrun |].
  destruct (chunk_text_chunks "  ab cd efgh  " 6 2 10 _ Hrun) as [Hall _].
  eapply Forall_impl; [| exact Hall].
  intros c (_ & Hs & _ & _ & _ & Hlen). split; [exact Hs |].
  apply Hlen. lia.
Defined.

Lemma chunk_text_no_overlap_partition_witness :
  0 < 4
  /\ chunk_text 10 "abcdefghij" 4 0 = Some ["abcd"; "efgh"; "ij"]
  /\ exists pieces,
       join "" pieces = "abcdefghij"
       /\ ["abcd"; "efgh"; "ij"]
          = filter (fun c => negb (c =? "")%string) (map strip pieces).
Proof.
  assert (Hcs : 0 < 4) by lia.
  assert (Hrun : chunk_text 10 "abcdefghij" 4 0 = Some ["abcd"; "efgh"; "ij"])
    by reflexivity.
  split; [exact Hcs |]. split; [exact Hrun |].
  destruct (chunk_text_no_overlap_partition "abcdefghij" 4 10 _ Hcs Hrun)
    as (pieces & Hjoin & _ & Hchunks & _).
  exists pieces. split; [exact Hjoin | exact Hchunks].
Defined.

Lemma built_corpus_example_run :
  build_corpus_for_folder 10 pdf_text 4 1 "hdfc" (Some data_listing)
  = Some (built_chunks_example, built_metas_example).
Proof. reflexivity. Qed.

Lemma built_corpus_wellformed_witness :
  build_corpus_for_folder 10 pdf_text 4 1 "hdfc" (Some data_listing)
  = Some (built_chunks_example, built_metas_example)
  /\ corpus_wf built_corpus_example.
Proof.
  split; [exact built_corpus_example_run |].
  destruct (built_corpus_wellformed Q Q 10 pdf_text 4 1 "hdfc"
              (Some data_listing) built_chunks_example built_metas_example
              built_corpus_example_run) as (_ & _ & _ & _ & Hwf).
  apply (Hwf "hdfc" (flat_l2_index [1; 2; 3; 4; 5; 6]%Q)).
Defined.

Lemma built_corpus_neighbors_witness :
  build_corpus_for_folder 10 pdf_text 4 1 "hdfc" (Some data_listing)
  = Some (built_chunks_example, built_metas_example)
  /\ chunks built_corpus_example = built_chunks_example
  /\ metadatas built_corpus_example = map meta_of_built built_metas_example
  /\ 0 <= 3
  /\ nth_error built_metas_example (Z.to_nat 3)
     = Some {| built_source_file := "a.pdf"; built_chunk_id := 3;
               built_folder := "hdfc" |}
  /\ result (_merge_neighbors built_corpus_example 3)
     = Ok ("ghij" ++ newline ++ "j")%string.
Proof.
  assert (H0 : 0 <= 3) by lia.
  split; [exact built_corpus_example_run |]. split; [reflexivity |].
  split; [reflexivity |]. split; [exact H0 |]. split; [reflexivity |].
  destruct (built_corpus_neighbors Q Q 10 pdf_text 4 1 "hdfc"
              (Some data_listing) built_chunks_example built_metas_example
              built_corpus_example 3
              {| built_source_file := "a.pdf"; built_chunk_id := 3;
                 built_folder := "hdfc" |}
              built_corpus_example_run eq_refl eq_refl H0 eq_refl)
    as [Hres _].
  exact Hres.
Defined.

Lemma ask_question_follow_up_witness :
  strip (req_question first_request) <> ""
  /\ truthy (bank_used seven_corpora [] first_request) = true
  /\ req_session_id second_request = req_session_id first_request
  /\ truthy (req_bank second_request) = false
  /\ bank_of (snd (ask_question length_embedding float32_score Qltb no_json
                     plain_reply str_field seven_corpora [] first_request))
       "s1"
     = Some "HDFC"
  /\ bank_used seven_corpora
       (snd (ask_question length_embedding float32_score Qltb no_json
               plain_reply str_field seven_corpora [] first_request))
       second_request
     = Some "HDFC".
Proof.
  assert (Hq : strip (req_question first_request) <> "")
    by (vm_compute; discriminate).
  split; [exact Hq |]. split; [reflexivity |]. split; [reflexivity |].
  split; [reflexivity |].
  destruct (ask_question_follow_up Q Q Q length_embedding float32_score Qltb
              no_json plain_reply str_field seven_corpora [] first_request
              second_request Hq eq_refl eq_refl eq_refl)
    as (Hstored & Hused & _).
  split; [exact Hstored | exact Hused].
Defined.

Lemma generate_answer_unparsable_reply_witness :
  prose_reply (payload_of "abcde" None (history_of [] "s1") ([] : list (Doc Q)))
  = Some (Some " see {fees} here ")
  /\ json_of_braces (unfenced (content_of (Some " see {fees} here "))) = None
  /\ brace_span (unfenced (content_of (Some " see {fees} here ")))
     = Some "{fees}"
  /\ (forall span,
        brace_span (unfenced (content_of (Some " see {fees} here ")))
        = Some span ->
        json_of_braces span = None)
  /\ json_of_braces "{}" = Some (JObject [])
  /\ fst (generate_answer json_of_braces prose_reply "abcde" None "s1"
            ([] : list (Doc Q)) [])
     = Some {| summary := "see {fees} here"; steps := ""; sources := [];
               cost_saving_tips := "" |}.
Proof.
  assert (Hspan : forall span,
            brace_span (unfenced (content_of (Some " see {fees} here ")))
            = Some span ->
            json_of_braces span = None).
  { intros span H. vm_compute in H. injection H as <-. reflexivity. }
  split; [reflexivity |]. split; [reflexivity |]. split; [reflexivity |].
  split; [exact Hspan |]. split; [reflexivity |].
  apply (generate_answer_unparsable_reply Q json_of_braces prose_reply
           "abcde" None "s1" [] [] (Some " see {fees} here ") eq_refl eq_refl
           Hspan).
Defined.

Lemma safe_parse_fenced_reply_witness :
  no_linebreak "json" = true
  /\ Forall (fun l => no_linebreak l = true) ["{}"]
  /\ json_of_braces (strip (join newline ["{}"])) = Some (JObject [])
  /\ safe_parse_llm_json json_of_braces
       (join newline [(fence ++ "json")%string; "{}"; fence])
     = JObject [].
Proof.
  assert (Hbody : Forall (fun l => no_linebreak l = true) ["{}"])
    by (repeat constructor).
  split; [reflexivity |]. split; [exact Hbody |]. split; [reflexivity |].
  apply (safe_parse_fenced_reply json_of_braces "json" ["{}"] (JObject [])
           eq_refl Hbody eq_refl).
Defined.

Lemma safe_parse_embedded_object_witness :
  strip ("Answer: " ++ "{" ++ "" ++ "}" ++ " ok")
  = ("Answer: " ++ "{" ++ "" ++ "}" ++ " ok")%string
  /\ startswith ("Answer: " ++ "{" ++ "" ++ "}" ++ " ok") fence = false
  /\ has_char "{" "Answer: " = false
  /\ has_char "}" " ok" = false
  /\ json_of_braces ("Answer: " ++ "{" ++ "" ++ "}" ++ " ok") = None
  /\ json_of_braces ("{" ++ "" ++ "}") = Some (JObject [])
  /\ safe_parse_llm_json json_of_braces
       ("Answer: " ++ "{" ++ "" ++ "}" ++ " ok")
     = JObject [].
Proof.
  repeat (split; [reflexivity |]).
  apply (safe_parse_embedded_object json_of_braces "Answer: " "" " ok"
           (JObject []) eq_refl eq_refl eq_refl eq_refl eq_refl eq_refl).
Defined.

Lemma built_store_example :
  forall c, In c [built_corpus_example] ->
    (exists fuel read_pdf_text chunk_size overlap folder_name listing metas,
       build_corpus_for_folder fuel read_pdf_text chunk_size overlap
         folder_name listing = Some (chunks c, metas)
       /\ metadatas c = map meta_of_built metas)
    /\ exists hits,
         index c (length_embedding "abcde") (top_k_or_default None) = Ok hits
         /\ faiss_search_contract (List.length (chunks c))
              (top_k_or_default None) hits.
Proof.
  intros c [<- | []]. split.
  - exists 10%nat, pdf_text, 4, 1, "hdfc", (Some data_listing),
      built_metas_example.
    split; reflexivity.
  - eexists. split; [vm_compute; reflexivity |].
    split; [reflexivity |]. split.
    + repeat (constructor; [cbn; lia |]). constructor.
    + constructor.
Qed.

Lemma retrieve_on_built_store_witness :
  (forall c, In c [built_corpus_example] ->
     (exists fuel read_pdf_text chunk_size overlap folder_name listing metas,
        build_corpus_for_folder fuel read_pdf_text chunk_size overlap
          folder_name listing = Some (chunks c, metas)
        /\ metadatas c = map meta_of_built metas)
     /\ exists hits,
          index c (length_embedding "abcde") (top_k_or_default None) = Ok hits
          /\ faiss_search_contract (List.length (chunks c))
               (top_k_or_default None) hits)
  /\ exists docs,
       result (retrieve length_embedding float32_score Qltb
                 [built_corpus_example] "abcde" None None) = Ok docs
       /\ forall r, In r docs -> 0 <= doc_chunk_id r.
Proof.
  split; [exact built_store_example |].
  destruct (retrieve_on_built_store Q Q Q length_embedding float32_score Qltb
              [built_corpus_example] "abcde" None None built_store_example)
    as (docs & Hres & Hdocs).
  exists docs. split; [exact Hres |].
  intros r Hr. apply (Hdocs r Hr).
Defined.

Lemma load_all_corpora_registry_witness :
  _load_all_corpora (Some [stored_hdfc; corrupt_index; incomplete_pickle])
  = Raise RuntimeError
  /\ _load_all_corpora (Some [stored_hdfc; incomplete_pickle])
     = Raise KeyError
  /\ exists corpora,
       _load_all_corpora (Some [stored_hdfc]) = Ok corpora
       /\ map name corpora = ["hdfc"].
Proof.
  destruct (load_all_corpora_registry Q Q) as (_ & _ & Hentries).
  assert (Hgood : Forall loads [stored_hdfc])
    by (constructor; [eexists; reflexivity | constructor]).
  split; [| split].
  - destruct (Hentries [stored_hdfc; corrupt_index; incomplete_pickle])
      as (Hraise & _).
    apply (Hraise [stored_hdfc] corrupt_index [incomplete_pickle]
             RuntimeError eq_refl Hgood eq_refl).
  - destruct (Hentries [stored_hdfc; incomplete_pickle]) as (Hraise & _).
    apply (Hraise [stored_hdfc] incomplete_pickle [] KeyError eq_refl Hgood
             eq_refl).
  - destruct (Hentries [stored_hdfc]) as (_ & Hok & _).
    destruct (proj2 Hok Hgood) as [corpora Hload].
    exists corpora. split; [exact Hload |].
    cbn in Hload. injection Hload as <-. reflexivity.
Defined.
